(** * Route map: trajectory store and playback engine

    A shallow embedding of the two AMD modules of the application,
    [mapObjectsDictionary] (the classes [MapObject] and
    [MapObjectsDictionary]) and [mapObjectsViewModel] (the class
    [MapObjectsViewModel]), followed by the properties of the trajectory
    store, the registry and the playback clock.

    JavaScript numbers are IEEE 754 binary64 values; they are embedded as
    Rocq's primitive floats, whose operations are the same binary64
    operations.  The Google Maps objects the code draws with are embedded
    by the little the code observes of them: a marker is the position it
    was last given, a polyline is its path.  Titles and colours only
    decorate the drawing and are left out, and so are the methods that
    only steer the map ([highlightObject], [autoZoom]). *)

From Stdlib Require Import ZArith Floats Bool List Lia.
From stdpp Require Import gmap strings list fin_maps.

(** ** JavaScript numbers and values *)

Module JS.

(** [a < b], [a > b], [a <= b] and [a == b] on numbers. *)
Definition lt (a b : float) : bool := PrimFloat.ltb a b.
Definition gt (a b : float) : bool := PrimFloat.ltb b a.
Definition le (a b : float) : bool := PrimFloat.leb a b.
Definition eq (a b : float) : bool := PrimFloat.eqb a b.

Definition NaN : float := PrimFloat.nan.
Definition isNaN (x : float) : bool := PrimFloat.is_nan x.

(** ToBoolean on a number: [0], [-0] and [NaN] are falsy. *)
Definition truthy (x : float) : bool := negb (eq x 0 || isNaN x).

(** A variable or attribute that is [undefined]/[null] ([None]) or holds
    a number. *)
Definition truthy_opt (v : option float) : bool :=
  match v with
  | Some x => truthy x
  | None => false
  end.

(** ToNumber([undefined]) is [NaN], ToNumber([null]) is [0]. *)
Definition undefined_to_number (v : option float) : float :=
  match v with Some x => x | None => NaN end.
Definition null_to_number (v : option float) : float :=
  match v with Some x => x | None => 0%float end.

(** An attribute of a Backbone model that holds a number once it is set:
    it is [undefined] while it was never set, it is [null] after it was
    set to [null], or it holds a number. *)
Inductive attr : Type :=
| Unset
| Nulled
| Num (x : float).

(** ToBoolean and ToNumber on such an attribute: [undefined] and [null]
    are falsy, ToNumber([undefined]) is [NaN] and ToNumber([null]) is
    [0]. *)
Definition truthy_attr (v : attr) : bool :=
  match v with
  | Num x => truthy x
  | _ => false
  end.
Definition attr_to_number (v : attr) : float :=
  match v with
  | Num x => x
  | Nulled => 0%float
  | Unset => NaN
  end.

(** A local variable that is [null] ([None]) or a number, as a value to
    write. *)
Definition nullable (v : option float) : attr :=
  match v with Some x => Num x | None => Nulled end.

Definition is_neg_zero (x : float) : bool :=
  match PrimFloat.classify x with NZero => true | _ => false end.
Definition is_pos_zero (x : float) : bool :=
  match PrimFloat.classify x with PZero => true | _ => false end.

(** [Math.abs], [Math.min] and [Math.max] (two arguments): [NaN] is
    contagious and [-0] is below [+0]. *)
Definition Math_abs (x : float) : float := PrimFloat.abs x.

Definition Math_min (a b : float) : float :=
  if isNaN a || isNaN b then NaN
  else if lt a b then a
  else if lt b a then b
  else if is_neg_zero a then a else b.

Definition Math_max (a b : float) : float :=
  if isNaN a || isNaN b then NaN
  else if lt a b then b
  else if lt b a then a
  else if is_pos_zero a then a else b.

(** The values a field of an incoming point can hold. *)
Inductive value : Type :=
| Undefined
| Null
| Boolean (b : bool)
| Number (x : float)
| String (s : string).

(** Underscore's [_.isNumber]: the class of the value is Number, which
    holds of [NaN] and of the infinities too. *)
Definition isNumber (v : value) : bool :=
  match v with Number _ => true | _ => false end.

(** The text-to-number conversion of the host is a parameter of the
    embedding. *)
Class StringToNumber := string_to_number : string -> float.

Definition to_number {toNumber : StringToNumber} (v : value) : float :=
  match v with
  | Undefined => NaN
  | Null => 0%float
  | Boolean b => if b then 1%float else 0%float
  | Number x => x
  | String s => string_to_number s
  end.

(** [JSON.stringify] on the identifying record of an object is a
    parameter of the embedding as well. *)
Class Stringify (Fields : Type) := JSON_stringify : Fields -> string.

End JS.

(** ** Exceptions and the state-and-exception monad *)

(** The two strings [MapObject.add] throws. *)
Inductive exn : Type :=
| InvalidPointFormat   (* 'Argument exception. Invalid point format' *)
| PointsOutOfOrder.    (* 'We expect to see all points to be added to desc order by timestamp' *)

(** A method run on an object in state [S]: the state it leaves behind,
    and either the exception it threw or the value it returned.  The state
    is kept when an exception is thrown, as the mutations made before a
    [throw] are. *)
Definition M (S A : Type) : Type := S -> S * (exn + A).

Definition ret {S A} (a : A) : M S A := fun s => (s, inr a).
Definition throw {S A} (e : exn) : M S A := fun s => (s, inl e).
Definition bind {S A B} (c : M S A) (k : A -> M S B) : M S B :=
  fun s => match c s with
           | (s', inr a) => k a s'
           | (s', inl e) => (s', inl e)
           end.
Definition get {S} : M S S := fun s => (s, inr s).
Definition put {S} (s : S) : M S unit := fun _ => (s, inr tt).
Definition modify {S} (f : S -> S) : M S unit := fun s => (f s, inr tt).

Declare Scope js_scope.
Delimit Scope js_scope with js.
Notation "'let*' x ':=' c 'in' k" := (bind c (fun x => k))
  (at level 10, x pattern, c at level 100, k at level 200) : js_scope.
Notation "c1 '>>' c2" := (bind c1 (fun _ => c2))
  (at level 100, c2 at level 200, right associativity) : js_scope.

(** ** Points *)

(** A point as a caller hands it over: an object whose properties [ts],
    [lat] and [lon] hold any value (a missing property reads
    [undefined]). *)
Record RawPoint : Type := mkRaw { raw_ts : JS.value; raw_lat : JS.value; raw_lon : JS.value }.

(** A stored point: [add] stores a point only after [_.isNumber] held of
    its three fields. *)
Record Point : Type := mkPoint { ts : float; lat : float; lon : float }.

(** A position on the map, [new google.maps.LatLng(lat, lon)]. *)
Definition LatLng : Type := (float * float)%type.

(** ** MapObject: one tracked object *)

Module MapObject.

(** How many seconds an object is shown after it has disappeared. *)
Definition defaultObjectTimeout : float := 300%float.

(** [Math.abs] ignores its second argument. *)
Definition inTimeoutLimit (currentTime : float) (point : Point) : bool :=
  JS.le (JS.Math_abs (currentTime - ts point)%float) defaultObjectTimeout.

(** The attributes [modelId], [points], [showObject], [showRoute] and
    the fields [marker] and [polyline]. *)
Record t : Type := mk {
  modelId : string;
  points : list Point;          (* ordered by ts asc *)
  attr_showObject : bool;
  attr_showRoute : bool;
  marker : option LatLng;
  polyline : option (list LatLng)
}.

Definition set_points (ps : list Point) (m : t) : t :=
  mk (modelId m) ps (attr_showObject m) (attr_showRoute m) (marker m) (polyline m).
Definition set_showObject (b : bool) (m : t) : t :=
  mk (modelId m) (points m) b (attr_showRoute m) (marker m) (polyline m).
Definition set_showRoute (b : bool) (m : t) : t :=
  mk (modelId m) (points m) (attr_showObject m) b (marker m) (polyline m).
Definition set_marker (k : option LatLng) (m : t) : t :=
  mk (modelId m) (points m) (attr_showObject m) (attr_showRoute m) k (polyline m).
Definition set_polyline (l : option (list LatLng)) (m : t) : t :=
  mk (modelId m) (points m) (attr_showObject m) (attr_showRoute m) (marker m) l.

(** [new MapObject({showObject: .., showRoute: .., modelId: ..})]:
    [defaults] is a function, so every object gets a points array of
    its own; [initialize] leaves the marker and the polyline null. *)
Definition new (showObject showRoute : bool) (id : string) : t :=
  mk id [] showObject showRoute None None.

Definition getPoints (m : t) : list Point := points m.
Definition isEmpty (m : t) : bool :=
  match points m with [] => true | _ => false end.

(** [clearPos]: the marker is taken off the map. *)
Definition clearPos (m : t) : t :=
  match marker m with
  | Some _ => set_marker None m
  | None => m
  end.

(** The body of [showRoute(value)] after the attribute is written: the
    polyline is drawn from the current points, reversed, or removed. *)
Definition drawRoute (value : bool) (m : t) : t :=
  if value then
    match polyline m with
    | None => set_polyline (Some (rev (map (fun p => (lat p, lon p)) (getPoints m)))) m
    | Some _ => m
    end
  else
    match polyline m with
    | Some _ => set_polyline None m
    | None => m
    end.

(** [showRoute(value)] with a defined value.  The second component tells
    whether [set] changed the attribute, that is whether
    'change:showRoute' was triggered. *)
Definition showRoute (value : bool) (m : t) : t * bool :=
  let changed := negb (Bool.eqb (attr_showRoute m) value) in
  (drawRoute value (set_showRoute value m), changed).

(** The test that opens [add]:
    [!point || !_.isNumber(point.ts) || !_.isNumber(point.lat) || !_.isNumber(point.lon)].
    A falsy argument is [None]. *)
Definition invalidPoint (point : option RawPoint) : bool :=
  match point with
  | None => true
  | Some p => negb (JS.isNumber (raw_ts p)) || negb (JS.isNumber (raw_lat p))
              || negb (JS.isNumber (raw_lon p))
  end.

(** The point object once its three fields are known to be numbers. *)
Definition numeric (point : option RawPoint) : option Point :=
  match point with
  | Some (mkRaw (JS.Number a) (JS.Number b) (JS.Number c)) => Some (mkPoint a b c)
  | _ => None
  end.

(** [_.last(points) && _.last(points).ts > point.ts] *)
Definition outOfOrder (ps : list Point) (p : Point) : bool :=
  match last ps with
  | Some l => JS.gt (ts l) (ts p)
  | None => false
  end.

(** [add(point)] *)
Definition add (point : option RawPoint) : M t unit :=
  if invalidPoint point then throw InvalidPointFormat
  else match numeric point with
       | None => throw InvalidPointFormat
       | Some p =>
         (let* m := get in
          if outOfOrder (getPoints m) p then throw PointsOutOfOrder
          else
            modify (set_points (getPoints m ++ [p])) >>
            let* m := get in
            if attr_showRoute m then
              match polyline m with
              | Some path => put (set_polyline (Some (path ++ [(lat p, lon p)])) m)
              | None => put (fst (showRoute true m))
              end
            else ret tt)%js
       end.

(** [this.polyline.getPath().removeAt(0)], when there is a polyline. *)
Definition removeAt0 (path : option (list LatLng)) : option (list LatLng) :=
  option_map (@tail LatLng) path.

(** The eviction loop of [calculatePos]:
<<
    while (firstPoint && firstPoint.ts < deadline) {
      if (points.length === 1 && inTimeoutLimit(currentTime, _.first(points))) break;
      firstPoint = points.shift();
      if (this.polyline) this.polyline.getPath().removeAt(0);
    }
>>
    [shift] removes the first element of the array and returns it, and
    returns [undefined] on an empty array.  The loop state is
    [firstPoint], the array and the path of the polyline. *)
Fixpoint evict (currentTime deadline : float) (firstPoint : option Point)
    (ps : list Point) (path : option (list LatLng)) {struct ps}
    : list Point * option (list LatLng) :=
  match firstPoint with
  | None => (ps, path)
  | Some fp =>
    if JS.lt (ts fp) deadline then
      match ps with
      | [] => ([], removeAt0 path)
      | p :: rest =>
        if (length ps =? 1)%nat && inTimeoutLimit currentTime p then (ps, path)
        else evict currentTime deadline (Some p) rest (removeAt0 path)
      end
    else (ps, path)
  end.

(** [if (timeWindow) { ... }] *)
Definition removeOldPoints (currentTime : float) (timeWindow : option float) (m : t) : t :=
  if JS.truthy_opt timeWindow then
    let deadline := (currentTime - JS.undefined_to_number timeWindow)%float in
    let '(ps, path) := evict currentTime deadline (head (points m)) (points m) (polyline m) in
    set_polyline path (set_points ps m)
  else m.

(** The search loop: the index of the first point whose [ts] is above
    [currentTime], the length of the array when there is none. *)
Fixpoint nextPointIndex (currentTime : float) (ps : list Point) : nat :=
  match ps with
  | [] => 0
  | p :: rest => if JS.gt (ts p) currentTime then 0 else S (nextPointIndex currentTime rest)
  end.

Definition interpolate (currentTime : float) (currentPoint nextPoint : Point) : LatLng :=
  let p := ((currentTime - ts currentPoint) / (ts nextPoint - ts currentPoint))%float in
  ((lat currentPoint + (lat nextPoint - lat currentPoint) * p)%float,
   (lon currentPoint + (lon nextPoint - lon currentPoint) * p)%float).

(** The variables [lat] and [lon] of [calculatePos] after the lookup;
    [None] is [undefined]. *)
Definition position (currentTime : float) (realtime : bool) (ps : list Point)
    : option float * option float :=
  if realtime then
    match last ps with
    | Some lastPoint => (Some (lat lastPoint), Some (lon lastPoint))
    | None => (None, None)
    end
  else
    let i := nextPointIndex currentTime ps in
    if negb (i =? 0)%nat && (i <? length ps)%nat then
      match ps !! (i - 1)%nat, ps !! i with
      | Some currentPoint, Some nextPoint =>
        let '(la, lo) := interpolate currentTime currentPoint nextPoint in
        (Some la, Some lo)
      | _, _ => (None, None)
      end
    else (None, None).

(** [calculatePos(currentTime, realtime, timeWindow)].  An existing
    marker is moved and a missing one is added; in both cases the object
    then has a marker at [(lat, lon)]. *)
Definition calculatePos (currentTime : float) (realtime : bool)
    (timeWindow : option float) (m : t) : t :=
  if attr_showObject m then
    let m := removeOldPoints currentTime timeWindow m in
    match position currentTime realtime (points m) with
    | (Some la, Some lo) =>
      if JS.truthy la && JS.truthy lo then set_marker (Some (la, lo)) m
      else clearPos m
    | _ => clearPos m
    end
  else clearPos m.

(** [showObject(value)] with a defined value.  [set] triggers
    'change:showObject' when the attribute changes; the listener
    [initialize] registered clears the position of a hidden object, then
    the listeners registered from outside run, whose effect on this
    object is [listeners].  The second component tells whether the event
    was triggered. *)
Definition showObject (listeners : t -> bool -> t) (value : bool) (m : t) : t * bool :=
  let changed := negb (Bool.eqb (attr_showObject m) value) in
  let m := set_showObject value m in
  let m := if changed
           then listeners (if attr_showObject m then m else clearPos m) value
           else m in
  (if value then m else clearPos m, changed).

End MapObject.

(** ** MapObjectsDictionary: the registry of tracked objects *)

Module MapObjectsDictionary.

(** The events the dictionary triggers on itself. *)
Inductive event : Type :=
| EvAdd (id : string)      (* trigger('add', model) *)
| EvRemove (id : string)   (* trigger('remove', model) *)
| EvReset.                 (* trigger('reset') *)

(** The attributes [showAllObjects] and [showAllRoutes], the object
    [models] keyed by the generated id, and the events triggered so
    far, oldest first. *)
Record t : Type := mk {
  attr_showAllObjects : bool;
  attr_showAllRoutes : bool;
  models : gmap string MapObject.t;
  triggered : list event
}.

Definition set_showAllObjects (b : bool) (d : t) : t :=
  mk b (attr_showAllRoutes d) (models d) (triggered d).
Definition set_showAllRoutes (b : bool) (d : t) : t :=
  mk (attr_showAllObjects d) b (models d) (triggered d).
Definition set_models (ms : gmap string MapObject.t) (d : t) : t :=
  mk (attr_showAllObjects d) (attr_showAllRoutes d) ms (triggered d).
Definition trigger (e : event) (d : t) : t :=
  mk (attr_showAllObjects d) (attr_showAllRoutes d) (models d) (triggered d ++ [e]).

(** [new MapObjectsDictionary({map: ..})] with the default attributes. *)
Definition new : t := mk true true ∅ [].

(** [each(action)]: the action runs on every own property of [models];
    a property deleted before it is reached is skipped.  The [for-in]
    loop of the code visits the keys in the order of their insertion,
    which a [gmap] does not record: here the visit follows the order of
    the map.  The actions of this program touch only the object they are
    given and the dictionary's own attributes and events, so that the
    objects and attributes a visit leaves are the same in either order;
    the order of the 'remove' events a visit appends to [triggered] is
    not the one of the code, and the properties below speak of these
    events as a set only. *)
Definition each (action : MapObject.t -> string -> t -> t) (d : t) : t :=
  foldl (fun d id => match models d !! id with
                     | Some model => action model id d
                     | None => d
                     end)
        d (map_to_list (models d)).*1.

Section Listeners.

(** The effect on a model of the 'change:showObject' listeners that the
    owner of the dictionary registers on every model from its 'add'
    handler; they run before the dictionary's own. *)
Variable ownerListener : MapObject.t -> bool -> MapObject.t.

(** The dictionary's listener on 'change:showObject':
<<
    if (this.showAllObjects() && !showObject) this.showAllObjects(false, true /* silent */);
>>
    a silent [showAllObjects] writes the attribute and does nothing
    else. *)
Definition onChangeShowObject (showObject : bool) (d : t) : t :=
  if attr_showAllObjects d && negb showObject then set_showAllObjects false d else d.

(** The same on 'change:showRoute'. *)
Definition onChangeShowRoute (showRoute : bool) (d : t) : t :=
  if attr_showAllRoutes d && negb showRoute then set_showAllRoutes false d else d.

(** [model.showObject(value)] on the model stored under [id], with the
    listeners registered on it.  The dictionary's listener writes only
    the attribute of the dictionary, so it does not matter that it runs
    before [showObject] is done with the model. *)
Definition modelShowObject (id : string) (value : bool) (d : t) : t :=
  match models d !! id with
  | None => d
  | Some model =>
    let '(model', changed) := MapObject.showObject ownerListener value model in
    let d := set_models (<[id := model']> (models d)) d in
    if changed then onChangeShowObject value d else d
  end.

(** [model.showRoute(value)] on the model stored under [id]. *)
Definition modelShowRoute (id : string) (value : bool) (d : t) : t :=
  match models d !! id with
  | None => d
  | Some model =>
    let '(model', changed) := MapObject.showRoute value model in
    let d := set_models (<[id := model']> (models d)) d in
    if changed then onChangeShowRoute value d else d
  end.

(** [model.toggleShowObject()] and [model.toggleShowRoute()]. *)
Definition modelToggleShowObject (id : string) (d : t) : t :=
  match models d !! id with
  | None => d
  | Some model => modelShowObject id (negb (MapObject.attr_showObject model)) d
  end.
Definition modelToggleShowRoute (id : string) (d : t) : t :=
  match models d !! id with
  | None => d
  | Some model => modelShowRoute id (negb (MapObject.attr_showRoute model)) d
  end.

(** [showAllObjects(value, silent)] with a defined value. *)
Definition showAllObjects (value silent : bool) (d : t) : t :=
  let oldValue := attr_showAllObjects d in
  let d := set_showAllObjects value d in
  if negb (Bool.eqb oldValue value) && negb silent
  then each (fun _ id d => modelShowObject id value d) d
  else d.

(** [showAllRoutes(value, silent)] with a defined value. *)
Definition showAllRoutes (value silent : bool) (d : t) : t :=
  let oldValue := attr_showAllRoutes d in
  let d := set_showAllRoutes value d in
  if negb (Bool.eqb oldValue value) && negb silent
  then each (fun _ id d => modelShowRoute id value d) d
  else d.

End Listeners.

(** [model.add(point)] on the model stored under [id]. *)
Definition modelAdd (id : string) (point : option RawPoint) : M t unit :=
  fun d => match models d !! id with
           | None => (d, inr tt)
           | Some model =>
             let '(model', r) := MapObject.add point model in
             (set_models (<[id := model']> (models d)) d, r)
           end.

(** [addData(obj, point)]; the model is returned by its id.  A new
    model is stored and announced, and gets the listeners, before the
    point is added to it. *)
Definition addData {Fields} {stringify : JS.Stringify Fields}
    (obj : Fields) (point : option RawPoint) : M t string :=
  (let id := JS.JSON_stringify obj in
   let* d := get in
   (match models d !! id with
    | Some _ => ret tt
    | None =>
      let model := MapObject.new (attr_showAllObjects d) (attr_showAllRoutes d) id in
      put (trigger (EvAdd id) (set_models (<[id := model]> (models d)) d))
    end) >>
   modelAdd id point >>
   ret id)%js.

(** The removal of one model, shared by [reset] and
    [clearEmptyObjects]: [off] drops the listeners, so hiding the route
    is silent, and the property is deleted. *)
Definition remove (id : string) (d : t) : t :=
  set_models (delete id (models d)) (trigger (EvRemove id) d).

(** [clearEmptyObjects()] *)
Definition clearEmptyObjects (d : t) : t :=
  each (fun model id d => if MapObject.isEmpty model then remove id d else d) d.

(** [reset()] *)
Definition reset (d : t) : t :=
  each (fun _ id d => remove id d) (trigger EvReset d).

End MapObjectsDictionary.

(** ** MapObjectsViewModel: the playback controller *)

Module MapObjectsViewModel.

(** The attributes of the view model and its [collection].
    [playInterval] holds the handle of a running interval timer; only
    its presence is observed. *)
Record t : Type := mk {
  attr_graduality : float;
  attr_speed : float;
  attr_realtime : bool;
  attr_timeWindow : option float;
  attr_currentTime : JS.attr;
  attr_beginTime : JS.attr;
  attr_endTime : JS.attr;
  attr_playInterval : bool;
  collection : MapObjectsDictionary.t
}.

Definition set_currentTime (v : JS.attr) (vm : t) : t :=
  mk (attr_graduality vm) (attr_speed vm) (attr_realtime vm) (attr_timeWindow vm)
     v (attr_beginTime vm) (attr_endTime vm) (attr_playInterval vm) (collection vm).
Definition set_beginTime (v : JS.attr) (vm : t) : t :=
  mk (attr_graduality vm) (attr_speed vm) (attr_realtime vm) (attr_timeWindow vm)
     (attr_currentTime vm) v (attr_endTime vm) (attr_playInterval vm) (collection vm).
Definition set_endTime (v : JS.attr) (vm : t) : t :=
  mk (attr_graduality vm) (attr_speed vm) (attr_realtime vm) (attr_timeWindow vm)
     (attr_currentTime vm) (attr_beginTime vm) v (attr_playInterval vm) (collection vm).
Definition set_realtime (b : bool) (vm : t) : t :=
  mk (attr_graduality vm) (attr_speed vm) b (attr_timeWindow vm)
     (attr_currentTime vm) (attr_beginTime vm) (attr_endTime vm) (attr_playInterval vm)
     (collection vm).
Definition set_playInterval (b : bool) (vm : t) : t :=
  mk (attr_graduality vm) (attr_speed vm) (attr_realtime vm) (attr_timeWindow vm)
     (attr_currentTime vm) (attr_beginTime vm) (attr_endTime vm) b (collection vm).
Definition set_collection (c : MapObjectsDictionary.t) (vm : t) : t :=
  mk (attr_graduality vm) (attr_speed vm) (attr_realtime vm) (attr_timeWindow vm)
     (attr_currentTime vm) (attr_beginTime vm) (attr_endTime vm) (attr_playInterval vm) c.

(** [new MapObjectsViewModel()] with the default attributes. *)
Definition new : t :=
  mk 2%float 10%float true (Some 1800%float) JS.Unset JS.Unset JS.Unset false
     MapObjectsDictionary.new.

(** The listener [initialize] registers on every model added to the
    collection:
<<
    if (showObject) model.calculatePos(this.currentTime(), this.realtime(), this.timeWindow());
>>
    [calculatePos] uses its [currentTime] in subtractions and
    comparisons only, which convert [undefined] to [NaN] and [null] to
    [0]. *)
Definition onChangeShowObject (vm : t) (model : MapObject.t) (showObject : bool)
    : MapObject.t :=
  if showObject
  then MapObject.calculatePos (JS.attr_to_number (attr_currentTime vm))
         (attr_realtime vm) (attr_timeWindow vm) model
  else model.

(** [has(attr)]: the attribute is neither [undefined] nor [null]. *)
Definition has (v : JS.attr) : bool :=
  match v with JS.Num _ => true | _ => false end.

(** [this.has(attr) ? this.get(attr) : null] *)
Definition getOrNull (v : JS.attr) : option float :=
  match v with JS.Num x => Some x | _ => None end.

(** [playbackMode()] *)
Definition playbackMode (vm : t) : bool := attr_playInterval vm.

(** [pause()] *)
Definition pause (vm : t) : t :=
  if attr_playInterval vm then set_playInterval false vm else vm.

(** [currentTime(value)] with a defined value: every visible object is
    asked for its position, then the empty ones are removed. *)
Definition currentTime (value : float) (vm : t) : t :=
  let vm := set_currentTime (JS.Num value) vm in
  let c := MapObjectsDictionary.each
             (fun obj id d =>
                if MapObject.attr_showObject obj
                then MapObjectsDictionary.set_models
                       (<[id := MapObject.calculatePos value (attr_realtime vm)
                                  (attr_timeWindow vm) obj]>
                          (MapObjectsDictionary.models d)) d
                else d)
             (collection vm) in
  set_collection (MapObjectsDictionary.clearEmptyObjects c) vm.

(** [realtime(value)] with a defined value. *)
Definition realtime (value : bool) (vm : t) : t :=
  set_realtime value (if value then pause vm else vm).

(** One element of the array given to [addDataPoints]. *)
Record dataPoint (Fields : Type) : Type :=
  mkData { obj : Fields; point : RawPoint }.
Arguments mkData {Fields} _ _.
Arguments obj {Fields} _.
Arguments point {Fields} _.

Section AddDataPoints.

Context {Fields : Type} {stringify : JS.Stringify Fields} {toNumber : JS.StringToNumber}.

(** The test of the loop of [addDataPoints]:
    [!realtime || !currentTime || currentTime < p.point.ts]. *)
Definition accepts (realtime : bool) (currentTime : JS.attr)
    (p : dataPoint Fields) : bool :=
  negb realtime
  || negb (JS.truthy_attr currentTime)
  || JS.lt (JS.attr_to_number currentTime) (JS.to_number (raw_ts (point p))).

(** The body of the loop on one element; the state is the collection
    and the local variables [beginTime] and [endTime] ([None] is
    [null]) are threaded through. *)
Definition addDataPoint (realtime : bool) (currentTime : JS.attr)
    (bounds : option float * option float) (p : dataPoint Fields)
    : M MapObjectsDictionary.t (option float * option float) :=
  (if accepts realtime currentTime p then
     let ts := JS.to_number (raw_ts (point p)) in
     let beginTime :=
       JS.Math_min ts (if JS.truthy_opt (fst bounds)
                       then JS.null_to_number (fst bounds) else ts) in
     let endTime :=
       JS.Math_max ts (if JS.truthy_opt (snd bounds)
                       then JS.null_to_number (snd bounds) else ts) in
     MapObjectsDictionary.addData (obj p) (Some (point p)) >>
     ret (Some beginTime, Some endTime)
   else ret bounds)%js.

Fixpoint addEach (realtime : bool) (currentTime : JS.attr)
    (data : list (dataPoint Fields)) (bounds : option float * option float)
    : M MapObjectsDictionary.t (option float * option float) :=
  match data with
  | [] => ret bounds
  | p :: rest =>
    (let* bounds := addDataPoint realtime currentTime bounds p in
     addEach realtime currentTime rest bounds)%js
  end.

(** [addDataPoints(data)] *)
Definition addDataPoints (data : list (dataPoint Fields)) : M t unit :=
  fun vm =>
    let beginTime := getOrNull (attr_beginTime vm) in
    let endTime := getOrNull (attr_endTime vm) in
    let currentTime := attr_currentTime vm in
    let realtime := attr_realtime vm in
    match addEach realtime currentTime data (beginTime, endTime) (collection vm) with
    | (c, inl e) => (set_collection c vm, inl e)
    | (c, inr (beginTime, endTime)) =>
      let vm := set_collection c vm in
      let beginTime :=
        match attr_timeWindow vm with
        | Some w => Some (JS.Math_max (JS.null_to_number endTime - w)%float
                                      (JS.null_to_number beginTime))
        | None => beginTime
        end in
      let vm := if JS.truthy_opt beginTime
                then set_beginTime (JS.nullable beginTime) vm else vm in
      let vm := if JS.truthy_opt endTime
                then set_endTime (JS.nullable endTime) vm else vm in
      (vm, inr tt)
    end.

End AddDataPoints.

(** [play()].  In real-time mode the clock jumps to the end time and no
    timer is started. *)
Definition play (vm : t) : t :=
  if negb (has (attr_beginTime vm)) || negb (has (attr_endTime vm)) || attr_playInterval vm
  then vm
  else if attr_realtime vm
  then currentTime (JS.attr_to_number (attr_endTime vm)) vm
  else
    let vm := if negb (has (attr_currentTime vm))
              then currentTime (JS.attr_to_number (attr_beginTime vm)) vm
              else vm in
    set_playInterval true vm.

(** The callback given to [setInterval], run at each tick of the
    timer:
<<
    this.currentTime(this.currentTime() + (this.speed() / this.graduality()));
    if (this.currentTime() > this.endTime()) this.pause();
>>
    A cleared timer does not fire. *)
Definition tick (vm : t) : t :=
  if attr_playInterval vm then
    let vm := currentTime (JS.attr_to_number (attr_currentTime vm)
                           + attr_speed vm / attr_graduality vm)%float vm in
    if JS.gt (JS.attr_to_number (attr_currentTime vm))
             (JS.attr_to_number (attr_endTime vm))
    then pause vm else vm
  else vm.

(** [removeAllObjects()].  Its last statement is
<<
    this.unset({currentTime: null, beginTime: null, endTime: null});
>>
    [unset(attr, options)] is [set(attr, void 0, {unset: true})], and
    [set] given an object as its first argument takes the second as its
    options: the option [unset] is lost and the three attributes are set
    to [null]. *)
Definition removeAllObjects (vm : t) : t :=
  let vm := pause vm in
  let vm := set_collection (MapObjectsDictionary.reset (collection vm)) vm in
  set_endTime JS.Nulled (set_beginTime JS.Nulled (set_currentTime JS.Nulled vm)).

(** [n] ticks of the timer in a row. *)
Fixpoint ticks (n : nat) (vm : t) : t :=
  match n with
  | O => vm
  | S n => ticks n (tick vm)
  end.

(** The calls the page makes on the models of the collection and on the
    collection, with the listener of this view model in place. *)
Definition modelShowObject (id : string) (value : bool) (vm : t) : t :=
  set_collection
    (MapObjectsDictionary.modelShowObject (onChangeShowObject vm) id value (collection vm)) vm.
Definition modelToggleShowObject (id : string) (vm : t) : t :=
  set_collection
    (MapObjectsDictionary.modelToggleShowObject (onChangeShowObject vm) id (collection vm)) vm.
Definition showAllObjects (value : bool) (vm : t) : t :=
  set_collection
    (MapObjectsDictionary.showAllObjects (onChangeShowObject vm) value false (collection vm)) vm.

End MapObjectsViewModel.

(** ** Vocabulary of the properties *)

Module D := MapObjectsDictionary.

(** The timestamps of a points array never go down: every point is at or
    below its successor. *)
Fixpoint ascending (ps : list Point) : bool :=
  match ps with
  | p :: (q :: _) as rest => JS.le (ts p) (ts q) && ascending rest
  | _ => true
  end.

(** No stored timestamp is [NaN]. *)
Definition timestamped (ps : list Point) : bool :=
  forallb (fun p => negb (JS.isNaN (ts p))) ps.

(** The argument of a call of [add] does not carry the number [NaN] as its
    timestamp. *)
Definition ts_not_NaN (point : option RawPoint) : bool :=
  match point with
  | Some (mkRaw (JS.Number x) _ _) => negb (JS.isNaN x)
  | _ => true
  end.

(** A finite number: a number that is neither [NaN] nor an infinity. *)
Definition finite (v : JS.value) : bool :=
  match v with
  | JS.Number x => negb (JS.isNaN x) && negb (PrimFloat.is_infinity x)
  | _ => false
  end.

(** A sequence of calls of [add] on one object; the caller catches what a
    call throws and goes on with the next. *)
Definition addAll (calls : list (option RawPoint)) (m : MapObject.t) : MapObject.t :=
  foldl (fun m point => fst (MapObject.add point m)) m calls.

(** The state a successful [add] leaves: the point is pushed and the
    route, when shown, is extended or drawn. *)
Definition pushed (p : Point) (m : MapObject.t) : MapObject.t :=
  let m := MapObject.set_points (MapObject.points m ++ [p]) m in
  if MapObject.attr_showRoute m then
    match MapObject.polyline m with
    | Some path => MapObject.set_polyline (Some (path ++ [(lat p, lon p)])) m
    | None => fst (MapObject.showRoute true m)
    end
  else m.

(** A well-formed point with the given numbers. *)
Definition pt (t la lo : float) : option RawPoint :=
  Some (mkRaw (JS.Number t) (JS.Number la) (JS.Number lo)).

(** The clock of the playback after [n] ticks that each add [step]. *)
Fixpoint clock (step : float) (n : nat) (t : float) : float :=
  match n with
  | O => t
  | S n => clock step n (t + step)%float
  end.

(** The object of the interpolation example: two points, at [ts] 0 and
    10. *)
Definition twoPoints (showObject : bool) : MapObject.t :=
  MapObject.mk "a" [mkPoint 0 0 0; mkPoint 10 10 20] showObject false None None.

(** A listener that leaves the attribute [showObject] alone, as the one
    of the view model does. *)
Definition keepsShowObject (listener : MapObject.t -> bool -> MapObject.t) : Prop :=
  forall m b, MapObject.attr_showObject (listener m b) = MapObject.attr_showObject m.

(** What [showObject(value)] makes of a model. *)
Definition shown (listener : MapObject.t -> bool -> MapObject.t) (value : bool)
    (m : MapObject.t) : MapObject.t :=
  fst (MapObject.showObject listener value m).

(** The view model of the playback example: historical mode, begin time
    0, end time 10, and the default speed 10 and graduality 2. *)
Definition playbackExample : MapObjectsViewModel.t :=
  MapObjectsViewModel.set_endTime (JS.Num 10%float)
    (MapObjectsViewModel.set_beginTime (JS.Num 0%float)
       (MapObjectsViewModel.set_realtime false MapObjectsViewModel.new)).

(** Instances for the examples: the identifying record is the name of the
    object and its serialisation wraps the name; the examples carry no
    text in the fields of a point, so the conversion of text is never
    consulted there and is the constant [NaN]. *)
Definition nameStringify : JS.Stringify string := fun name => ("{name:" ++ name ++ "}")%string.
Definition textIsNaN : JS.StringToNumber := fun _ => JS.NaN.

Module VM := MapObjectsViewModel.

(** A view model with three visible objects, for the examples. *)
Definition threeObjects : VM.t :=
  let add name d := fst (D.addData (stringify := nameStringify) name (pt 1 2 3) d) in
  VM.set_collection (add "van" (add "car" (add "bus" D.new))) VM.new.






(** ** Vocabulary of the further properties *)

(** The vertices a polyline gets for an array of points, in the order of
    the array. *)
Definition coords (ps : list Point) : list LatLng :=
  map (fun p => (lat p, lon p)) ps.

(** The route of an object is in step with its points: when the route is
    shown, the path of the polyline lists the points in their order, a
    polyline that is not drawn yet belonging to an object without points,
    as a new object is; when the route is hidden there is no polyline. *)
Definition routeFollows (m : MapObject.t) : Prop :=
  if MapObject.attr_showRoute m then
    match MapObject.polyline m with
    | Some path => path = coords (MapObject.points m)
    | None => MapObject.points m = []
    end
  else MapObject.polyline m = None.

(** The route of an object, when it is drawn, has one vertex for each
    point. *)
Definition routeCounts (m : MapObject.t) : Prop :=
  match MapObject.polyline m with
  | Some path => length path = length (MapObject.points m)
  | None => True
  end.

(** The marker [calculatePos] leaves for the values of [lat] and [lon]
    it has computed. *)
Definition markerFor (pos : option float * option float) : option LatLng :=
  match pos with
  | (Some la, Some lo) => if JS.truthy la && JS.truthy lo then Some (la, lo) else None
  | _ => None
  end.

(** A point is older than the deadline of the eviction. *)
Definition olderThan (deadline : float) (p : Point) : bool := JS.lt (ts p) deadline.

(** The route of an object has the shape the methods leave it in: a
    shown route is drawn with one vertex for each point, unless the object
    has no points yet; a hidden route has no polyline. *)
Definition routeShape (m : MapObject.t) : Prop :=
  if MapObject.attr_showRoute m then
    match MapObject.polyline m with
    | Some path => length path = length (MapObject.points m)
    | None => MapObject.points m = []
    end
  else MapObject.polyline m = None.

(** [beginTime(value)], [endTime(value)], [timeWindow(value)],
    [speed(value)] and [graduality(value)] with a defined value. *)
Definition vmBeginTime (value : float) (vm : VM.t) : VM.t :=
  VM.set_beginTime (JS.Num value) vm.
Definition vmEndTime (value : float) (vm : VM.t) : VM.t :=
  VM.set_endTime (JS.Num value) vm.
Definition vmTimeWindow (value : float) (vm : VM.t) : VM.t :=
  VM.mk (VM.attr_graduality vm) (VM.attr_speed vm) (VM.attr_realtime vm) (Some value)
    (VM.attr_currentTime vm) (VM.attr_beginTime vm) (VM.attr_endTime vm)
    (VM.attr_playInterval vm) (VM.collection vm).
Definition vmSpeed (value : float) (vm : VM.t) : VM.t :=
  VM.mk (VM.attr_graduality vm) value (VM.attr_realtime vm) (VM.attr_timeWindow vm)
    (VM.attr_currentTime vm) (VM.attr_beginTime vm) (VM.attr_endTime vm)
    (VM.attr_playInterval vm) (VM.collection vm).
Definition vmGraduality (value : float) (vm : VM.t) : VM.t :=
  VM.mk value (VM.attr_speed vm) (VM.attr_realtime vm) (VM.attr_timeWindow vm)
    (VM.attr_currentTime vm) (VM.attr_beginTime vm) (VM.attr_endTime vm)
    (VM.attr_playInterval vm) (VM.collection vm).

(** The calls on the routes of the models of the collection and on the
    collection. *)
Definition vmShowRoute (id : string) (value : bool) (vm : VM.t) : VM.t :=
  VM.set_collection (D.modelShowRoute id value (VM.collection vm)) vm.
Definition vmToggleShowRoute (id : string) (vm : VM.t) : VM.t :=
  VM.set_collection (D.modelToggleShowRoute id (VM.collection vm)) vm.
Definition vmShowAllRoutes (value : bool) (vm : VM.t) : VM.t :=
  VM.set_collection (D.showAllRoutes value false (VM.collection vm)) vm.

(** The calls the page and the data source make on a view model. *)
Inductive call (Fields : Type) : Type :=
| AddDataPoints (data : list (VM.dataPoint Fields))
| SetCurrentTime (value : float)
| SetBeginTime (value : float)
| SetEndTime (value : float)
| SetRealtime (value : bool)
| SetTimeWindow (value : float)
| SetSpeed (value : float)
| SetGraduality (value : float)
| Play
| Pause
| Tick
| ShowObject (id : string) (value : bool)
| ToggleShowObject (id : string)
| ShowRoute (id : string) (value : bool)
| ToggleShowRoute (id : string)
| ShowAllObjects (value : bool)
| ShowAllRoutes (value : bool)
| RemoveAllObjects.

Arguments AddDataPoints {Fields} _.
Arguments SetCurrentTime {Fields} _.
Arguments SetBeginTime {Fields} _.
Arguments SetEndTime {Fields} _.
Arguments SetRealtime {Fields} _.
Arguments SetTimeWindow {Fields} _.
Arguments SetSpeed {Fields} _.
Arguments SetGraduality {Fields} _.
Arguments Play {Fields}.
Arguments Pause {Fields}.
Arguments Tick {Fields}.
Arguments ShowObject {Fields} _ _.
Arguments ToggleShowObject {Fields} _.
Arguments ShowRoute {Fields} _ _.
Arguments ToggleShowRoute {Fields} _.
Arguments ShowAllObjects {Fields} _.
Arguments ShowAllRoutes {Fields} _.
Arguments RemoveAllObjects {Fields}.

(** The state a call leaves; what [addDataPoints] throws is caught by
    the caller. *)
Definition perform {Fields} {stringify : JS.Stringify Fields} {toNumber : JS.StringToNumber}
    (c : call Fields) (vm : VM.t) : VM.t :=
  match c with
  | AddDataPoints data => fst (VM.addDataPoints data vm)
  | SetCurrentTime value => VM.currentTime value vm
  | SetBeginTime value => vmBeginTime value vm
  | SetEndTime value => vmEndTime value vm
  | SetRealtime value => VM.realtime value vm
  | SetTimeWindow value => vmTimeWindow value vm
  | SetSpeed value => vmSpeed value vm
  | SetGraduality value => vmGraduality value vm
  | Play => VM.play vm
  | Pause => VM.pause vm
  | Tick => VM.tick vm
  | ShowObject id value => VM.modelShowObject id value vm
  | ToggleShowObject id => VM.modelToggleShowObject id vm
  | ShowRoute id value => vmShowRoute id value vm
  | ToggleShowRoute id => vmToggleShowRoute id vm
  | ShowAllObjects value => VM.showAllObjects value vm
  | ShowAllRoutes value => vmShowAllRoutes value vm
  | RemoveAllObjects => VM.removeAllObjects vm
  end.

Definition performAll {Fields} {stringify : JS.Stringify Fields}
    {toNumber : JS.StringToNumber} (calls : list (call Fields)) (vm : VM.t) : VM.t :=
  foldl (fun vm c => perform c vm) vm calls.

(** No point handed over by the call carries [NaN] as its timestamp. *)
Definition withoutNaN {Fields} (c : call Fields) : bool :=
  match c with
  | AddDataPoints data => forallb (fun p => ts_not_NaN (Some (VM.point p))) data
  | _ => true
  end.

(** What holds of every object of a collection in the states the calls
    lead to; [ordered] tells whether the order of the points is part of
    it. *)
Definition objectInv (ordered : bool) (id : string) (m : MapObject.t) : Prop :=
  MapObject.modelId m = id
  /\ routeShape m
  /\ (ordered = true ->
      ascending (MapObject.points m) = true /\ timestamped (MapObject.points m) = true).

Definition dictionaryInv (ordered : bool) (d : D.t) : Prop :=
  forall id m, D.models d !! id = Some m ->
    objectInv ordered id m
    /\ (D.attr_showAllObjects d = true -> MapObject.attr_showObject m = true)
    /\ (D.attr_showAllRoutes d = true -> MapObject.attr_showRoute m = true).

Definition timerInv (vm : VM.t) : Prop :=
  VM.attr_playInterval vm = true ->
  VM.attr_realtime vm = false
  /\ VM.has (VM.attr_currentTime vm) = true
  /\ VM.has (VM.attr_beginTime vm) = true
  /\ VM.has (VM.attr_endTime vm) = true.

Definition viewModelInv (ordered : bool) (vm : VM.t) : Prop :=
  dictionaryInv ordered (VM.collection vm) /\ timerInv vm.

(** ** Order of the numbers *)

(** Case analysis on three binary floats and on the comparisons of their
    exponents and mantissas. *)
Ltac sf_cases x y z :=
  destruct x as [?s|?s| |?s ?m ?e], y as [?s|?s| |?s ?m ?e], z as [?s|?s| |?s ?m ?e];
  simpl; try discriminate; try reflexivity;
  repeat match goal with
         | b : bool |- _ => destruct b; simpl; try discriminate; try reflexivity
         end;
  try (intros; assumption);
  change (PosDef.Pos.compare_cont Eq) with Pos.compare;
  repeat match goal with
         | |- context [(?a ?= ?b)%Z] =>
           destruct (Z.compare_spec a b); simpl; try discriminate; try reflexivity;
           try lia; subst
         end;
  repeat match goal with
         | |- context [(?a ?= ?b)%positive] =>
           destruct (Pos.compare_spec a b); simpl; try discriminate; try reflexivity;
           try lia; subst
         end.

Lemma SFcompare_antisym x y :
  SFcompare y x = option_map CompOpp (SFcompare x y).
Proof.
  destruct x as [sx|sx| |sx mx ex], y as [sy|sy| |sy my ey]; simpl; try reflexivity;
    try (destruct sx; reflexivity); try (destruct sy; reflexivity);
    try (destruct sx, sy; reflexivity).
  change (PosDef.Pos.compare_cont Eq) with Pos.compare.
  rewrite (Z.compare_antisym ex ey), (Pos.compare_antisym mx my).
  destruct sx, sy; simpl; try reflexivity;
    destruct (ex ?= ey)%Z; simpl; try reflexivity;
    destruct (mx ?= my)%positive; reflexivity.
Qed.

Lemma SFcompare_refl x : x <> S754_nan -> SFcompare x x = Some Eq.
Proof.
  destruct x as [s|s| |s m e]; simpl; try congruence; intros _.
  - destruct s; reflexivity.
  - change (PosDef.Pos.compare_cont Eq) with Pos.compare.
    rewrite Z.compare_refl, Pos.compare_refl. destruct s; reflexivity.
Qed.

Lemma SFcompare_defined x y :
  x <> S754_nan -> y <> S754_nan -> exists c, SFcompare x y = Some c.
Proof.
  destruct x, y; simpl; try congruence; eauto.
Qed.

Lemma SFcompare_None x y :
  SFcompare x y = None -> x = S754_nan \/ y = S754_nan.
Proof.
  destruct x, y; simpl; try discriminate; auto.
Qed.

Lemma SFleb_trans x y z :
  SFleb x y = true -> SFleb y z = true -> SFleb x z = true.
Proof. unfold SFleb. sf_cases x y z. Qed.

Lemma SFltb_leb_trans x y z :
  SFltb x y = true -> SFleb y z = true -> SFltb x z = true.
Proof. unfold SFleb, SFltb. sf_cases x y z. Qed.

Lemma isNaN_false x : JS.isNaN x = false <-> Prim2SF x <> S754_nan.
Proof.
  unfold JS.isNaN, is_nan. rewrite FloatAxioms.eqb_spec. unfold SFeqb. split.
  - intros E N. rewrite N in E. discriminate.
  - intros N. rewrite (SFcompare_refl _ N). reflexivity.
Qed.

Lemma le_trans a b c :
  JS.le a b = true -> JS.le b c = true -> JS.le a c = true.
Proof. unfold JS.le. rewrite !FloatAxioms.leb_spec. apply SFleb_trans. Qed.

Lemma lt_le_trans a b c :
  JS.lt a b = true -> JS.le b c = true -> JS.lt a c = true.
Proof. unfold JS.le, JS.lt. rewrite !FloatAxioms.ltb_spec, FloatAxioms.leb_spec. apply SFltb_leb_trans. Qed.

Lemma le_not_NaN a b :
  JS.le a b = true -> JS.isNaN a = false /\ JS.isNaN b = false.
Proof.
  unfold JS.le. rewrite FloatAxioms.leb_spec. unfold SFleb.
  destruct (SFcompare (Prim2SF a) (Prim2SF b)) eqn:E; [|discriminate].
  intros _. split; apply isNaN_false; intros N; rewrite N in E;
    destruct (Prim2SF a), (Prim2SF b); simpl in E; discriminate.
Qed.

(** [a > b] fails exactly when [a <= b], unless one of them is [NaN]. *)
Lemma not_gt_le a b :
  JS.isNaN a = false -> JS.isNaN b = false -> JS.gt a b = false -> JS.le a b = true.
Proof.
  intros Na Nb. apply isNaN_false in Na, Nb.
  unfold JS.gt, JS.le. rewrite FloatAxioms.ltb_spec, FloatAxioms.leb_spec.
  destruct (SFcompare_defined _ _ Na Nb) as [c E].
  unfold SFltb, SFleb. rewrite (SFcompare_antisym (Prim2SF a) (Prim2SF b)), E.
  destruct c; simpl; congruence.
Qed.

Lemma le_not_gt a b : JS.le a b = true -> JS.gt a b = false.
Proof.
  unfold JS.gt, JS.le. rewrite FloatAxioms.ltb_spec, FloatAxioms.leb_spec.
  unfold SFltb, SFleb. rewrite (SFcompare_antisym (Prim2SF a) (Prim2SF b)).
  destruct (SFcompare (Prim2SF a) (Prim2SF b)) as [[]|]; simpl; congruence.
Qed.

Lemma lt_gt a b : JS.lt a b = JS.gt b a.
Proof. reflexivity. Qed.

Lemma eq_le a b : JS.eq a b = true -> JS.le a b = true.
Proof.
  unfold JS.eq, JS.le. rewrite FloatAxioms.eqb_spec, FloatAxioms.leb_spec. unfold SFeqb, SFleb.
  destruct (SFcompare (Prim2SF a) (Prim2SF b)) as [[]|]; simpl; congruence.
Qed.

Lemma eq_sym_float a b : JS.eq a b = true -> JS.eq b a = true.
Proof.
  unfold JS.eq. rewrite !FloatAxioms.eqb_spec. unfold SFeqb.
  rewrite (SFcompare_antisym (Prim2SF a) (Prim2SF b)).
  destruct (SFcompare (Prim2SF a) (Prim2SF b)) as [[]|]; simpl; congruence.
Qed.

Lemma truthy_nonzero x : JS.truthy x = true -> JS.eq x 0 = false /\ JS.isNaN x = false.
Proof.
  unfold JS.truthy. destruct (JS.eq x 0), (JS.isNaN x); simpl; intros; split; congruence.
Qed.

(** ** MapObject.add *)

Lemma ascending_cons p q ps :
  ascending (p :: q :: ps) = JS.le (ts p) (ts q) && ascending (q :: ps).
Proof. reflexivity. Qed.

Lemma ascending_snoc ps p :
  ascending (ps ++ [p]) =
  ascending ps && match last ps with
                  | Some l => JS.le (ts l) (ts p)
                  | None => true
                  end.
Proof.
  induction ps as [|a [|b ps] IH].
  - reflexivity.
  - simpl. destruct (JS.le (ts a) (ts p)); reflexivity.
  - change ((a :: b :: ps) ++ [p]) with (a :: b :: (ps ++ [p])).
    rewrite !ascending_cons. change (b :: ps ++ [p]) with ((b :: ps) ++ [p]).
    rewrite IH. change (last (a :: b :: ps)) with (last (b :: ps)).
    rewrite andb_assoc. reflexivity.
Qed.

Lemma ascending_tail p ps : ascending (p :: ps) = true -> ascending ps = true.
Proof.
  destruct ps as [|q ps]; [reflexivity|]. rewrite ascending_cons.
  intros H. apply andb_prop in H. apply H.
Qed.

(** In an ascending array the first point is at or below every later
    one. *)
Lemma ascending_head p ps q :
  ascending (p :: ps) = true -> q ∈ ps -> JS.le (ts p) (ts q) = true.
Proof.
  revert p. induction ps as [|a ps IH]; intros p H Hq.
  - inversion Hq.
  - rewrite ascending_cons in H. apply andb_prop in H as [Hpa Hrest].
    apply elem_of_cons in Hq as [->|Hq]; [exact Hpa|].
    eapply le_trans; [exact Hpa|]. apply IH; assumption.
Qed.

(** Every point is at or below every later one. *)
Lemma ascending_lookup ps i j p q :
  ascending ps = true -> (i < j)%nat -> ps !! i = Some p -> ps !! j = Some q ->
  JS.le (ts p) (ts q) = true.
Proof.
  revert i j. induction ps as [|a ps IH]; intros i j H Hij Hi Hj.
  - discriminate.
  - destruct j as [|j]; [lia|]. destruct i as [|i].
    + simpl in Hi. injection Hi as ->. simpl in Hj.
      eapply ascending_head; [exact H|]. eapply list_elem_of_lookup_2. exact Hj.
    + simpl in Hi, Hj. eapply (IH i j); [eapply ascending_tail; exact H|lia|exact Hi|exact Hj].
Qed.

Lemma invalidPoint_numeric point :
  MapObject.invalidPoint point = false <-> exists p, MapObject.numeric point = Some p.
Proof.
  destruct point as [[[] [] []]|]; simpl; split; intros H;
    try discriminate; try (destruct H; discriminate); eauto.
Qed.

Lemma add_invalid point m :
  MapObject.invalidPoint point = true ->
  MapObject.add point m = (m, inl InvalidPointFormat).
Proof. intros H. unfold MapObject.add. rewrite H. reflexivity. Qed.

Lemma add_numeric point p m :
  MapObject.numeric point = Some p ->
  MapObject.add point m =
  if MapObject.outOfOrder (MapObject.points m) p
  then (m, inl PointsOutOfOrder)
  else (pushed p m, inr tt).
Proof.
  intros Hn. unfold MapObject.add.
  assert (Hv : MapObject.invalidPoint point = false)
    by (apply invalidPoint_numeric; eauto).
  rewrite Hv, Hn. unfold bind, get, modify, throw, MapObject.getPoints. simpl.
  destruct (MapObject.outOfOrder (MapObject.points m) p); [reflexivity|].
  unfold pushed. simpl. destruct (MapObject.attr_showRoute m); [|reflexivity].
  destruct (MapObject.polyline m); reflexivity.
Qed.

Lemma points_pushed p m :
  MapObject.points (pushed p m) = MapObject.points m ++ [p].
Proof.
  unfold pushed. simpl. destruct (MapObject.attr_showRoute m); [|reflexivity].
  destruct (MapObject.polyline m); reflexivity.
Qed.

(** A call of [add] either leaves the points as they are or appends the
    point it was given. *)
Lemma add_points point m :
  MapObject.points (fst (MapObject.add point m)) = MapObject.points m
  \/ exists p, MapObject.numeric point = Some p
               /\ MapObject.outOfOrder (MapObject.points m) p = false
               /\ MapObject.points (fst (MapObject.add point m)) = MapObject.points m ++ [p].
Proof.
  destruct (MapObject.invalidPoint point) eqn:Hv.
  - left. rewrite add_invalid by assumption. reflexivity.
  - apply invalidPoint_numeric in Hv as [p Hp]. rewrite (add_numeric _ _ _ Hp).
    destruct (MapObject.outOfOrder (MapObject.points m) p) eqn:Ho.
    + left. reflexivity.
    + right. exists p. repeat split; try assumption. apply points_pushed.
Qed.

Lemma timestamped_last ps l :
  timestamped ps = true -> last ps = Some l -> JS.isNaN (ts l) = false.
Proof.
  unfold timestamped. rewrite forallb_forall. intros H Hl.
  apply negb_true_iff. apply H. apply list_elem_of_In.
  apply last_Some in Hl as [ps' ->]. apply elem_of_app. right. apply list_elem_of_singleton.
  reflexivity.
Qed.

Lemma add_keeps_order point m :
  ascending (MapObject.points m) = true ->
  timestamped (MapObject.points m) = true ->
  ts_not_NaN point = true ->
  ascending (MapObject.points (fst (MapObject.add point m))) = true
  /\ timestamped (MapObject.points (fst (MapObject.add point m))) = true.
Proof.
  intros Ha Ht Hp. destruct (add_points point m) as [->|(p & Hn & Ho & ->)]; [auto|].
  assert (Hnan : JS.isNaN (ts p) = false).
  { destruct point as [[[] [] []]|]; simpl in Hn; try discriminate.
    injection Hn as <-. simpl in *. apply negb_true_iff. exact Hp. }
  split.
  - rewrite ascending_snoc, Ha. simpl. unfold MapObject.outOfOrder in Ho.
    destruct (last (MapObject.points m)) as [l|] eqn:Hl; [|reflexivity].
    apply not_gt_le; [eapply timestamped_last; eassumption|assumption|assumption].
  - unfold timestamped in *. rewrite forallb_app, Ht. simpl. rewrite Hnan. reflexivity.
Qed.

(** C2 (as amended): as long as no call of [add] carries [NaN] as its
    timestamp, the points stay in non-decreasing order of [ts] along any
    sequence of calls; a call whose [ts] is strictly below the last stored
    one throws the out-of-order exception and leaves the object as it
    was, and a call whose [ts] equals the last stored one is accepted and
    appended. *)
Theorem add_keeps_points_ascending (m : MapObject.t) (calls : list (option RawPoint)) :
  ascending (MapObject.points m) = true ->
  timestamped (MapObject.points m) = true ->
  forallb ts_not_NaN calls = true ->
  (ascending (MapObject.points (addAll calls m)) = true
   /\ timestamped (MapObject.points (addAll calls m)) = true)
  /\ (forall point p l,
        MapObject.numeric point = Some p ->
        last (MapObject.points m) = Some l ->
        (JS.lt (ts p) (ts l) = true ->
         MapObject.add point m = (m, inl PointsOutOfOrder))
        /\ (JS.eq (ts p) (ts l) = true ->
            snd (MapObject.add point m) = inr tt
            /\ MapObject.points (fst (MapObject.add point m)) = MapObject.points m ++ [p])).
Proof.
  intros Ha Ht Hc. split.
  - revert m Ha Ht. induction calls as [|c calls IH]; intros m Ha Ht; [auto|].
    simpl in Hc. apply andb_prop in Hc as [Hc Hcs].
    destruct (add_keeps_order c m Ha Ht Hc) as [Ha' Ht'].
    apply (IH Hcs _ Ha' Ht').
  - intros point p l Hn Hl. rewrite (add_numeric _ _ _ Hn).
    unfold MapObject.outOfOrder. rewrite Hl. split.
    + intros Hlt. rewrite <- lt_gt, Hlt. reflexivity.
    + intros Heq. rewrite (le_not_gt _ _ (eq_le _ _ (eq_sym_float _ _ Heq))).
      split; [reflexivity|apply points_pushed].
Qed.

Lemma add_keeps_points_ascending_witness :
  let m := MapObject.new true false "a" in
  let calls := [pt 1 2 3; pt 5 2 3; pt 5 4 4; pt 3 0 0; None] in
  (ascending (MapObject.points m) = true
   /\ timestamped (MapObject.points m) = true
   /\ forallb ts_not_NaN calls = true)
  /\ ascending (MapObject.points (addAll calls m)) = true
  /\ MapObject.points (addAll calls m) = [mkPoint 1 2 3; mkPoint 5 2 3; mkPoint 5 4 4].
Proof.
  intros m calls.
  split; [repeat split; vm_compute; reflexivity|].
  split; [|vm_compute; reflexivity].
  apply (add_keeps_points_ascending m calls); vm_compute; reflexivity.
Defined.

(** C2, as stated, fails: a timestamp [NaN] passes both tests of [add],
    and so does whatever comes after it; the calls with timestamps 5,
    [NaN] and 3 are all accepted, and 3 is stored after 5. *)
Lemma add_NaN_breaks_order :
  let m := addAll [pt 5 1 1; pt JS.NaN 1 1; pt 3 1 1] (MapObject.new true false "a") in
  MapObject.points m = [mkPoint 5 1 1; mkPoint JS.NaN 1 1; mkPoint 3 1 1]
  /\ ascending (MapObject.points m) = false
  /\ JS.lt 3 5 = true.
Proof. vm_compute. repeat split; reflexivity. Qed.

(** C6 (as amended): [add] throws the invalid-point exception exactly
    when the argument is missing or one of [ts], [lat], [lon] is not a
    number in the sense of [_.isNumber]; the object is then left as it
    was.  [NaN] and the infinities are numbers in that sense: a point
    carrying them is not invalid. *)
Theorem add_throws_invalid_iff_not_number (point : option RawPoint) (m : MapObject.t) :
  (snd (MapObject.add point m) = inl InvalidPointFormat
   <-> match point with
       | None => True
       | Some r => JS.isNumber (raw_ts r) = false
                   \/ JS.isNumber (raw_lat r) = false
                   \/ JS.isNumber (raw_lon r) = false
       end)
  /\ (snd (MapObject.add point m) = inl InvalidPointFormat ->
      fst (MapObject.add point m) = m)
  /\ (forall la lo,
        snd (MapObject.add (pt JS.NaN la lo) m) <> inl InvalidPointFormat
        /\ snd (MapObject.add (pt la infinity lo) m) <> inl InvalidPointFormat
        /\ snd (MapObject.add (pt la lo neg_infinity) m) <> inl InvalidPointFormat).
Proof.
  assert (Hnum : forall p, MapObject.numeric point = Some p ->
                           snd (MapObject.add point m) <> inl InvalidPointFormat).
  { intros p Hp. rewrite (add_numeric _ _ _ Hp).
    destruct (MapObject.outOfOrder (MapObject.points m) p); simpl; congruence. }
  split; [|split].
  - destruct (MapObject.invalidPoint point) eqn:Hv.
    + rewrite (add_invalid _ _ Hv). simpl. split; [intros _|reflexivity].
      destruct point as [r|]; [|exact I]. simpl in Hv.
      destruct (JS.isNumber (raw_ts r)), (JS.isNumber (raw_lat r)), (JS.isNumber (raw_lon r));
        simpl in Hv; try discriminate; auto.
    + pose proof Hv as Hv'. apply invalidPoint_numeric in Hv' as [p Hp].
      split; [intros H; exfalso; exact (Hnum p Hp H)|].
      destruct point as [r|]; [|discriminate]. simpl in Hv.
      intros [H|[H|H]]; rewrite H in Hv; simpl in Hv; try discriminate.
      * destruct (JS.isNumber (raw_ts r)); discriminate.
      * destruct (JS.isNumber (raw_ts r)), (JS.isNumber (raw_lat r)); discriminate.
  - destruct (MapObject.invalidPoint point) eqn:Hv.
    + rewrite (add_invalid _ _ Hv). reflexivity.
    + apply invalidPoint_numeric in Hv as [p Hp]. intros H. exfalso. exact (Hnum p Hp H).
  - intros la lo. repeat split.
    + rewrite (add_numeric (pt JS.NaN la lo) (mkPoint JS.NaN la lo) m eq_refl).
      destruct (MapObject.outOfOrder _ _); simpl; congruence.
    + rewrite (add_numeric (pt la infinity lo) (mkPoint la infinity lo) m eq_refl).
      destruct (MapObject.outOfOrder _ _); simpl; congruence.
    + rewrite (add_numeric (pt la lo neg_infinity) (mkPoint la lo neg_infinity) m eq_refl).
      destruct (MapObject.outOfOrder _ _); simpl; congruence.
Qed.

Lemma add_throws_invalid_iff_not_number_witness :
  let m := MapObject.new true true "a" in
  let point := Some (mkRaw (JS.Number 1) (JS.String "north") (JS.Number 2)) in
  snd (MapObject.add point m) = inl InvalidPointFormat
  /\ fst (MapObject.add point m) = m.
Proof.
  intros m point.
  assert (H : snd (MapObject.add point m) = inl InvalidPointFormat).
  { apply (proj1 (add_throws_invalid_iff_not_number point m)). simpl. auto. }
  split; [exact H|].
  exact (proj1 (proj2 (add_throws_invalid_iff_not_number point m)) H).
Defined.

(** C6, as stated, fails: points whose [ts], [lat] or [lon] is [NaN] or
    an infinity are not finite, yet [add] accepts and appends them. *)
Lemma add_accepts_NaN_and_Infinity :
  let m := MapObject.new true false "a" in
  (finite (JS.Number JS.NaN) = false /\ finite (JS.Number infinity) = false)
  /\ MapObject.add (pt JS.NaN 1 1) m
     = (MapObject.set_points [mkPoint JS.NaN 1 1] m, inr tt)
  /\ MapObject.add (pt 1 infinity 1) m
     = (MapObject.set_points [mkPoint 1 infinity 1] m, inr tt)
  /\ MapObject.add (pt 1 1 JS.NaN) m
     = (MapObject.set_points [mkPoint 1 1 JS.NaN] m, inr tt).
Proof. vm_compute. repeat split; reflexivity. Qed.

(** ** MapObject.calculatePos: eviction *)

(** What the eviction loop leaves is what remains of the array after some
    number of points were dropped from its front. *)
Lemma evict_drop currentTime deadline firstPoint ps path :
  exists k, fst (MapObject.evict currentTime deadline firstPoint ps path) = drop k ps.
Proof.
  revert firstPoint path. induction ps as [|p rest IH]; intros firstPoint path.
  - exists 0%nat. destruct firstPoint as [fp|]; simpl; [|reflexivity].
    destruct (JS.lt (ts fp) deadline); reflexivity.
  - destruct firstPoint as [fp|]; [|exists 0%nat; reflexivity].
    cbn [MapObject.evict]. destruct (JS.lt (ts fp) deadline); [|exists 0%nat; reflexivity].
    destruct ((length (p :: rest) =? 1)%nat && MapObject.inTimeoutLimit currentTime p);
      [exists 0%nat; reflexivity|].
    destruct (IH (Some p) (MapObject.removeAt0 path)) as [k Hk].
    exists (S k). exact Hk.
Qed.

Lemma points_removeOldPoints currentTime timeWindow m :
  exists k, MapObject.points (MapObject.removeOldPoints currentTime timeWindow m)
            = drop k (MapObject.points m).
Proof.
  unfold MapObject.removeOldPoints.
  destruct (JS.truthy_opt timeWindow); [|exists 0%nat; reflexivity].
  set (deadline := (currentTime - JS.undefined_to_number timeWindow)%float).
  destruct (evict_drop currentTime deadline (head (MapObject.points m))
              (MapObject.points m) (MapObject.polyline m)) as [k Hk].
  exists k. destruct (MapObject.evict _ _ _ _ _) as [ps path]. exact Hk.
Qed.

Lemma removeOldPoints_showObject currentTime timeWindow m :
  MapObject.attr_showObject (MapObject.removeOldPoints currentTime timeWindow m)
  = MapObject.attr_showObject m.
Proof.
  unfold MapObject.removeOldPoints. destruct (JS.truthy_opt timeWindow); [|reflexivity].
  destruct (MapObject.evict _ _ _ _ _). reflexivity.
Qed.

Lemma removeOldPoints_no_window currentTime m :
  MapObject.removeOldPoints currentTime None m = m.
Proof. reflexivity. Qed.

(** What the loop does in general: once it has dropped a point older than
    the deadline it drops every point up to and including the first one
    that is not older, as long as points are left behind it. *)
Lemma evict_past_deadline currentTime deadline fp old q rest path :
  JS.lt (ts fp) deadline = true ->
  Forall (fun x => JS.lt (ts x) deadline = true) old ->
  JS.lt (ts q) deadline = false ->
  rest <> [] ->
  fst (MapObject.evict currentTime deadline (Some fp) (old ++ q :: rest) path) = rest.
Proof.
  intros Hfp Hold Hq Hrest. revert fp path Hfp.
  induction Hold as [|o old Ho _ IH]; intros fp path Hfp.
  - cbn [app MapObject.evict]. rewrite Hfp.
    destruct rest as [|r rest]; [congruence|].
    cbn [length Nat.eqb andb MapObject.evict]. rewrite Hq. reflexivity.
  - cbn [app MapObject.evict]. rewrite Hfp.
    replace (length (o :: old ++ q :: rest) =? 1)%nat with false
      by (cbn [length]; rewrite length_app; cbn [length]; symmetry; apply Nat.eqb_neq; lia).
    cbn [andb]. apply IH. exact Ho.
Qed.

Lemma evict_drops_point_not_older currentTime deadline p old q rest path :
  JS.lt (ts p) deadline = true ->
  Forall (fun x => JS.lt (ts x) deadline = true) old ->
  JS.lt (ts q) deadline = false ->
  rest <> [] ->
  fst (MapObject.evict currentTime deadline (head (p :: old ++ q :: rest))
         (p :: old ++ q :: rest) path) = rest.
Proof.
  intros Hp Hold Hq Hrest.
  apply (evict_past_deadline currentTime deadline p (p :: old) q rest path);
    [exact Hp|constructor; assumption|exact Hq|exact Hrest].
Qed.

(** C1: with the points at [ts] 0, 100 and 200, the current time 150 and
    a window of 100, the deadline is 50; the loop drops the point at 0,
    which is older than the deadline, and then the point at 100, which is
    not: [shift] hands back the point it removed, so the test of the loop
    looks at the point just dropped and not at the first point left. *)
Example eviction_drops_point_inside_window :
  let m := MapObject.mk "a" [mkPoint 0 1 1; mkPoint 100 1 1; mkPoint 200 1 1]
             true false None None in
  MapObject.points (MapObject.calculatePos 150 true (Some 100%float) m) = [mkPoint 200 1 1]
  /\ JS.lt 100 (150 - 100) = false.
Proof. vm_compute. split; reflexivity. Qed.

(** The same slip empties an object whose last point is inside the
    window, once that point is older than the default timeout. *)
Example eviction_empties_object_inside_window :
  let m := MapObject.mk "a" [mkPoint 0 1 1; mkPoint 1000 1 1] true false None None in
  MapObject.points (MapObject.calculatePos 1400 true (Some 500%float) m) = []
  /\ JS.lt 1000 (1400 - 500) = false.
Proof. vm_compute. split; reflexivity. Qed.

(** The single point protected by the default timeout is kept. *)
Example eviction_keeps_recent_single_point :
  let m := MapObject.mk "a" [mkPoint 1000 1 1] true false None None in
  MapObject.points (MapObject.calculatePos 1005 true (Some 1%float) m) = [mkPoint 1000 1 1].
Proof. vm_compute. reflexivity. Qed.

(** ** MapObject.calculatePos: the position *)

Lemma marker_clearPos m : MapObject.marker (MapObject.clearPos m) = None.
Proof. unfold MapObject.clearPos. destruct (MapObject.marker m) eqn:E; [reflexivity|exact E]. Qed.

Lemma nextPointIndex_le currentTime ps :
  (MapObject.nextPointIndex currentTime ps <= length ps)%nat.
Proof.
  induction ps as [|p ps IH]; simpl; [lia|].
  destruct (JS.gt (ts p) currentTime); simpl; lia.
Qed.

(** When no point is above the current time the search runs to the end of
    the array. *)
Lemma nextPointIndex_none currentTime ps :
  Forall (fun q => JS.gt (ts q) currentTime = false) ps ->
  MapObject.nextPointIndex currentTime ps = length ps.
Proof.
  induction 1 as [|p ps Hp _ IH]; simpl; [reflexivity|]. rewrite Hp, IH. reflexivity.
Qed.

(** The search stops on the first point above the current time. *)
Lemma nextPointIndex_first currentTime pre next post :
  Forall (fun q => JS.gt (ts q) currentTime = false) pre ->
  JS.gt (ts next) currentTime = true ->
  MapObject.nextPointIndex currentTime (pre ++ next :: post) = length pre.
Proof.
  induction 1 as [|p ps Hp _ IH]; intros Hn; simpl.
  - rewrite Hn. reflexivity.
  - rewrite Hp, (IH Hn). reflexivity.
Qed.

Lemma position_historical_bracket currentTime pre prev next post :
  Forall (fun q => JS.gt (ts q) currentTime = false) (pre ++ [prev]) ->
  JS.gt (ts next) currentTime = true ->
  MapObject.position currentTime false (pre ++ prev :: next :: post)
  = (Some (fst (MapObject.interpolate currentTime prev next)),
     Some (snd (MapObject.interpolate currentTime prev next))).
Proof.
  intros Hpre Hnext. unfold MapObject.position.
  replace (pre ++ prev :: next :: post) with ((pre ++ [prev]) ++ next :: post)
    by (rewrite <- app_assoc; reflexivity).
  rewrite (nextPointIndex_first _ _ _ _ Hpre Hnext).
  set (l1 := pre ++ [prev]).
  assert (Hlen : length l1 = S (length pre)) by (unfold l1; rewrite length_app; simpl; lia).
  assert (Hi : (l1 ++ next :: post) !! length l1 = Some next).
  { rewrite lookup_app_r by lia. rewrite Nat.sub_diag. reflexivity. }
  assert (Hj : (l1 ++ next :: post) !! (length l1 - 1)%nat = Some prev).
  { rewrite lookup_app_l by lia. rewrite Hlen. unfold l1.
    rewrite lookup_app_r by lia.
    replace (S (length pre) - 1 - length pre)%nat with 0%nat by lia. reflexivity. }
  rewrite Hi, Hj, length_app, Hlen. simpl length.
  replace (S (length pre) =? 0)%nat with false by reflexivity.
  replace (S (length pre) <? S (length pre) + S (length post))%nat with true
    by (symmetry; apply Nat.ltb_lt; lia).
  simpl. destruct (MapObject.interpolate currentTime prev next). reflexivity.
Qed.

(** In an ascending array the points before a point are at or below it. *)
Lemma ascending_before pre prev rest q :
  ascending (pre ++ prev :: rest) = true -> q ∈ pre -> JS.le (ts q) (ts prev) = true.
Proof.
  intros Ha Hq. apply list_elem_of_lookup in Hq as [i Hi].
  pose proof (lookup_lt_Some _ _ _ Hi) as Hlt.
  eapply (ascending_lookup _ i (length pre)); [exact Ha|exact Hlt| |].
  - rewrite lookup_app_l by exact Hlt. exact Hi.
  - rewrite lookup_app_r by lia. rewrite Nat.sub_diag. reflexivity.
Qed.

Lemma calculatePos_visible currentTime realtime timeWindow m :
  MapObject.attr_showObject m = true ->
  MapObject.calculatePos currentTime realtime timeWindow m =
  let m' := MapObject.removeOldPoints currentTime timeWindow m in
  match MapObject.position currentTime realtime (MapObject.points m') with
  | (Some la, Some lo) =>
    if JS.truthy la && JS.truthy lo then MapObject.set_marker (Some (la, lo)) m'
    else MapObject.clearPos m'
  | _ => MapObject.clearPos m'
  end.
Proof. intros H. unfold MapObject.calculatePos. rewrite H. reflexivity. Qed.

Lemma calculatePos_no_position currentTime realtime timeWindow m :
  (MapObject.attr_showObject m = true ->
   MapObject.position currentTime realtime
     (MapObject.points (MapObject.removeOldPoints currentTime timeWindow m)) = (None, None)) ->
  MapObject.marker (MapObject.calculatePos currentTime realtime timeWindow m) = None.
Proof.
  intros H. unfold MapObject.calculatePos.
  destruct (MapObject.attr_showObject m); [|apply marker_clearPos].
  rewrite (H eq_refl). apply marker_clearPos.
Qed.

(** C3 (as amended): in historical mode and without a time window, for a
    visible object whose ascending points hold two neighbours [prev] and
    [next] with [prev.ts <= currentTime < next.ts], [calculatePos] puts the
    marker at [prev + (next - prev) * p] with
    [p = (currentTime - prev.ts) / (next.ts - prev.ts)], provided both
    coordinates so computed are truthy (neither zero nor [NaN]); with the
    points (0, 0, 0) and (10, 10, 20) and the current time 5 the marker is
    at (5, 10). *)
Theorem calculatePos_interpolates :
  (forall (m : MapObject.t) (currentTime : float) (pre post : list Point) (prev next : Point),
      MapObject.attr_showObject m = true ->
      ascending (MapObject.points m) = true ->
      MapObject.points m = pre ++ prev :: next :: post ->
      JS.le (ts prev) currentTime = true ->
      JS.lt currentTime (ts next) = true ->
      let p := ((currentTime - ts prev) / (ts next - ts prev))%float in
      let la := (lat prev + (lat next - lat prev) * p)%float in
      let lo := (lon prev + (lon next - lon prev) * p)%float in
      JS.truthy la = true ->
      JS.truthy lo = true ->
      MapObject.marker (MapObject.calculatePos currentTime false None m) = Some (la, lo))
  /\ MapObject.marker (MapObject.calculatePos 5 false None (twoPoints true))
     = Some (5%float, 10%float).
Proof.
  split; [|vm_compute; reflexivity].
  intros m currentTime pre post prev next Hvis Hasc Hps Hprev Hnext p la lo Hla Hlo.
  rewrite (calculatePos_visible _ _ _ _ Hvis). cbv zeta.
  rewrite removeOldPoints_no_window, Hps.
  rewrite position_historical_bracket.
  - unfold MapObject.interpolate. simpl. fold p. fold la. fold lo. rewrite Hla, Hlo. reflexivity.
  - rewrite Hps in Hasc. apply Forall_app. split.
    + apply Forall_forall. intros q Hq. apply le_not_gt.
      eapply le_trans; [|exact Hprev]. eapply ascending_before; eassumption.
    + constructor; [|constructor]. apply le_not_gt. exact Hprev.
  - rewrite <- lt_gt. exact Hnext.
Qed.

Lemma calculatePos_interpolates_witness :
  MapObject.marker (MapObject.calculatePos 2.5 false None (twoPoints true))
  = Some (2.5%float, 5%float).
Proof.
  apply (proj1 calculatePos_interpolates (twoPoints true) 2.5%float
           [] [] (mkPoint 0 0 0) (mkPoint 10 10 20)); vm_compute; reflexivity.
Defined.

(** C3, as stated, fails: the current time 0 is bracketed by the points
    at 0 and 10 of the example, the interpolated position is (0, 0), and
    no marker is placed there; and a hidden object gets no marker at
    all.  When the points are out of order, as 1, 10, [NaN], 3 are after
    [add] accepted them all, the marker at the current time 5 is put
    between the points at 1 and 10, while the last point at or below 5 is
    the one at 3. *)
Lemma calculatePos_no_marker_at_zero :
  (JS.le 0 0 = true /\ JS.lt 0 10 = true
   /\ MapObject.interpolate 0 (mkPoint 0 0 0) (mkPoint 10 10 20) = (0%float, 0%float)
   /\ MapObject.marker (MapObject.calculatePos 0 false None (twoPoints true)) = None)
  /\ MapObject.marker (MapObject.calculatePos 5 false None (twoPoints false)) = None
  /\ (MapObject.points
        (addAll [pt 1 1 1; pt 10 10 10; pt JS.NaN 3 3; pt 3 4 4] (MapObject.new true false "a"))
      = [mkPoint 1 1 1; mkPoint 10 10 10; mkPoint JS.NaN 3 3; mkPoint 3 4 4]
      /\ JS.le 3 5 = true
      /\ MapObject.marker
           (MapObject.calculatePos 5 false None
              (addAll [pt 1 1 1; pt 10 10 10; pt JS.NaN 3 3; pt 3 4 4]
                 (MapObject.new true false "a")))
         = Some (MapObject.interpolate 5 (mkPoint 1 1 1) (mkPoint 10 10 10))
      /\ JS.eq (fst (MapObject.interpolate 5 (mkPoint 1 1 1) (mkPoint 10 10 10)))
               (fst (MapObject.interpolate 5 (mkPoint 3 4 4) (mkPoint 10 10 10)))
         = false).
Proof. vm_compute. repeat split; reflexivity. Qed.

(** When the last point of an ascending array is at or below the current
    time, so is every point. *)
Lemma ascending_all_le ps l currentTime :
  ascending ps = true -> last ps = Some l -> JS.le (ts l) currentTime = true ->
  Forall (fun q => JS.le (ts q) currentTime = true) ps.
Proof.
  intros Ha Hl Hle. apply last_Some in Hl as [ps' ->].
  apply Forall_app. split.
  - apply Forall_forall. intros q Hq. eapply le_trans; [|exact Hle].
    eapply ascending_before; eassumption.
  - constructor; [exact Hle|constructor].
Qed.

Lemma position_historical_past_last currentTime ps :
  Forall (fun q => JS.le (ts q) currentTime = true) ps ->
  MapObject.position currentTime false ps = (None, None).
Proof.
  intros H. unfold MapObject.position. rewrite nextPointIndex_none.
  - rewrite Nat.ltb_irrefl, andb_false_r. reflexivity.
  - eapply Forall_impl; [exact H|]. intros q Hq. apply le_not_gt. exact Hq.
Qed.

Lemma position_historical_before_first currentTime ps :
  match ps with
  | [] => True
  | q :: _ => JS.lt currentTime (ts q) = true
  end ->
  MapObject.position currentTime false ps = (None, None).
Proof.
  intros H. unfold MapObject.position. destruct ps as [|q ps]; [reflexivity|].
  simpl. rewrite <- lt_gt, H. reflexivity.
Qed.

(** C4 (as amended): for an object whose points are in ascending order,
    in historical mode [calculatePos] leaves no marker when the current
    time is at or after the [ts] of the last point or strictly before the
    [ts] of the first one, whatever the time window; in real-time mode
    without a time window, for a visible object whose last point has
    truthy coordinates (neither zero nor [NaN]), the marker is at the last
    point whatever the current time. *)
Theorem calculatePos_outside_and_realtime :
  (forall (m : MapObject.t) (currentTime : float) (timeWindow : option float),
      ascending (MapObject.points m) = true ->
      (exists l, last (MapObject.points m) = Some l /\ JS.le (ts l) currentTime = true)
      \/ (exists f, head (MapObject.points m) = Some f /\ JS.lt currentTime (ts f) = true) ->
      MapObject.marker (MapObject.calculatePos currentTime false timeWindow m) = None)
  /\ (forall (m : MapObject.t) (currentTime : float) (l : Point),
         MapObject.attr_showObject m = true ->
         last (MapObject.points m) = Some l ->
         JS.truthy (lat l) = true ->
         JS.truthy (lon l) = true ->
         MapObject.marker (MapObject.calculatePos currentTime true None m)
         = Some (lat l, lon l)).
Proof.
  split.
  - intros m currentTime timeWindow Ha Hcase.
    apply calculatePos_no_position. intros _.
    destruct (points_removeOldPoints currentTime timeWindow m) as [k ->].
    destruct Hcase as [(l & Hl & Hle)|(f & Hf & Hlt)].
    + apply position_historical_past_last. apply Forall_drop.
      eapply ascending_all_le; eassumption.
    + apply position_historical_before_first.
      destruct (drop k (MapObject.points m)) as [|q rest] eqn:Hd; [exact I|].
      assert (Hq : MapObject.points m !! k = Some q).
      { rewrite <- (Nat.add_0_r k), <- lookup_drop, Hd. reflexivity. }
      destruct (MapObject.points m) as [|f' ps] eqn:Hps; [discriminate|].
      simpl in Hf. injection Hf as ->.
      destruct k as [|k].
      * simpl in Hq. injection Hq as ->. exact Hlt.
      * eapply lt_le_trans; [exact Hlt|].
        eapply (ascending_lookup (f :: ps) 0 (S k)); [exact Ha|lia|reflexivity|exact Hq].
  - intros m currentTime l Hvis Hl Hla Hlo.
    rewrite (calculatePos_visible _ _ _ _ Hvis). cbv zeta.
    rewrite removeOldPoints_no_window. unfold MapObject.position.
    rewrite Hl, Hla, Hlo. reflexivity.
Qed.

Lemma calculatePos_outside_and_realtime_witness :
  MapObject.marker (MapObject.calculatePos 10 false (Some 1800%float) (twoPoints true)) = None
  /\ MapObject.marker (MapObject.calculatePos (-1) false None (twoPoints true)) = None
  /\ MapObject.marker (MapObject.calculatePos 100 true None (twoPoints true))
     = Some (10%float, 20%float).
Proof.
  split; [|split].
  - apply (proj1 calculatePos_outside_and_realtime); [reflexivity|].
    left. exists (mkPoint 10 10 20). split; vm_compute; reflexivity.
  - apply (proj1 calculatePos_outside_and_realtime); [reflexivity|].
    right. exists (mkPoint 0 0 0). split; vm_compute; reflexivity.
  - apply (proj2 calculatePos_outside_and_realtime (twoPoints true) 100%float
             (mkPoint 10 10 20)); vm_compute; reflexivity.
Defined.

(** C4, as stated, fails.  In real-time mode an object whose last point
    lies on the equator gets no marker, and neither does a hidden object.
    In historical mode the points 1, 10, [NaN], 3, all accepted by [add],
    are out of order, and at the current time 5, which is after the [ts]
    of the last point, a marker is placed between the first two. *)
Lemma calculatePos_realtime_without_marker :
  MapObject.marker
    (MapObject.calculatePos 100 true None
       (MapObject.mk "a" [mkPoint 1 4 4; mkPoint 5 0 10] true false (Some (4, 4)%float) None))
  = None
  /\ MapObject.marker (MapObject.calculatePos 100 true None (twoPoints false)) = None
  /\ (let m := addAll [pt 1 1 1; pt 10 10 10; pt JS.NaN 3 3; pt 3 4 4]
                 (MapObject.new true false "a") in
      (exists l, last (MapObject.points m) = Some l /\ JS.le (ts l) 5 = true)
      /\ MapObject.marker (MapObject.calculatePos 5 false None m) = Some (5, 5)%float).
Proof.
  split; [vm_compute; reflexivity|]. split; [vm_compute; reflexivity|].
  split; [exists (mkPoint 3 4 4); vm_compute; split; reflexivity|vm_compute; reflexivity].
Qed.

(** C10: for a visible object, a marker is there after [calculatePos]
    only at the position the lookup computed and only when neither
    coordinate of that position is zero; when one of them is zero the
    marker is cleared.  Such inputs exist: a stored point on the equator
    in real-time mode, and an interpolated point on the prime meridian in
    historical mode, both on an object that had a marker. *)
Theorem marker_only_at_nonzero_position :
  (forall (m : MapObject.t) (currentTime : float) (realtime : bool)
          (timeWindow : option float),
      MapObject.attr_showObject m = true ->
      let ps := MapObject.points (MapObject.removeOldPoints currentTime timeWindow m) in
      (forall pos,
          MapObject.marker (MapObject.calculatePos currentTime realtime timeWindow m)
          = Some pos ->
          MapObject.position currentTime realtime ps = (Some (fst pos), Some (snd pos))
          /\ JS.eq (fst pos) 0 = false /\ JS.eq (snd pos) 0 = false)
      /\ (forall la lo,
             MapObject.position currentTime realtime ps = (Some la, Some lo) ->
             JS.eq la 0 = true \/ JS.eq lo 0 = true ->
             MapObject.marker (MapObject.calculatePos currentTime realtime timeWindow m)
             = None))
  /\ (let m := MapObject.mk "a" [mkPoint 1 4 4; mkPoint 5 0 10] true false
                 (Some (4, 4)%float) None in
      MapObject.position 100 true (MapObject.points m) = (Some 0, Some 10)%float
      /\ MapObject.marker (MapObject.calculatePos 100 true None m) = None)
  /\ (let m := MapObject.mk "a" [mkPoint 0 50 (-10); mkPoint 10 60 10] true false
                 (Some (50, -10)%float) None in
      MapObject.position 5 false (MapObject.points m) = (Some 55, Some 0)%float
      /\ MapObject.marker (MapObject.calculatePos 5 false None m) = None).
Proof.
  split; [|split; vm_compute; split; reflexivity].
  intros m currentTime realtime timeWindow Hvis ps.
  rewrite (calculatePos_visible _ _ _ _ Hvis). cbv zeta. fold ps.
  destruct (MapObject.position currentTime realtime ps) as [[la|] [lo|]] eqn:Hpos.
  - destruct (JS.truthy la && JS.truthy lo) eqn:Ht.
    + apply andb_prop in Ht as [Hla Hlo].
      apply truthy_nonzero in Hla as [Hla _]. apply truthy_nonzero in Hlo as [Hlo _].
      split.
      * intros pos Hm. simpl in Hm. injection Hm as <-. simpl. auto.
      * intros la' lo' E [H|H]; injection E as <- <-; congruence.
    + split.
      * intros pos Hm. rewrite marker_clearPos in Hm. discriminate.
      * intros. apply marker_clearPos.
  - split; [intros pos Hm; rewrite marker_clearPos in Hm; discriminate|intros; discriminate].
  - split; [intros pos Hm; rewrite marker_clearPos in Hm; discriminate|intros; discriminate].
  - split; [intros pos Hm; rewrite marker_clearPos in Hm; discriminate|intros; discriminate].
Qed.

Lemma marker_only_at_nonzero_position_witness :
  let m := twoPoints true in
  MapObject.attr_showObject m = true
  /\ MapObject.marker (MapObject.calculatePos 5 false None m) = Some (5, 10)%float
  /\ JS.eq 5 0 = false /\ JS.eq 10 0 = false.
Proof.
  intros m. split; [reflexivity|]. split; [vm_compute; reflexivity|].
  apply (proj1 (proj1 marker_only_at_nonzero_position m 5%float false None eq_refl)
           (5, 10)%float).
  vm_compute. reflexivity.
Defined.

(** ** MapObjectsDictionary *)

Lemma calculatePos_showObject currentTime realtime timeWindow m :
  MapObject.attr_showObject (MapObject.calculatePos currentTime realtime timeWindow m)
  = MapObject.attr_showObject m.
Proof.
  unfold MapObject.calculatePos.
  destruct (MapObject.attr_showObject m) eqn:Hvis.
  - rewrite <- (removeOldPoints_showObject currentTime timeWindow m) in Hvis.
    destruct (MapObject.position _ _ _) as [[la|] [lo|]];
      try destruct (JS.truthy la && JS.truthy lo);
      unfold MapObject.clearPos; try destruct (MapObject.marker _); exact Hvis.
  - unfold MapObject.clearPos. destruct (MapObject.marker m); exact Hvis.
Qed.

Lemma clearPos_showObject m :
  MapObject.attr_showObject (MapObject.clearPos m) = MapObject.attr_showObject m.
Proof. unfold MapObject.clearPos. destruct (MapObject.marker m); reflexivity. Qed.

Lemma showObject_attr listener value m :
  keepsShowObject listener ->
  MapObject.attr_showObject (fst (MapObject.showObject listener value m)) = value.
Proof.
  intros HL. unfold MapObject.showObject. simpl.
  assert (H : MapObject.attr_showObject
                (if negb (Bool.eqb (MapObject.attr_showObject m) value)
                 then listener (if value then MapObject.set_showObject value m
                                else MapObject.clearPos (MapObject.set_showObject value m)) value
                 else MapObject.set_showObject value m) = value).
  { destruct (negb (Bool.eqb (MapObject.attr_showObject m) value)); [|reflexivity].
    rewrite HL. destruct value; [reflexivity|]. rewrite clearPos_showObject. reflexivity. }
  destruct value; [exact H|]. rewrite clearPos_showObject. exact H.
Qed.

Lemma showObject_false_marker listener m :
  MapObject.marker (fst (MapObject.showObject listener false m)) = None.
Proof. unfold MapObject.showObject. simpl. apply marker_clearPos. Qed.

Section Fanout.

Variable listener : MapObject.t -> bool -> MapObject.t.
Variable value : bool.

(** Once the attribute of the dictionary holds [value], the dictionary's
    own listener has nothing to do when a model is given [value]. *)
Lemma modelShowObject_settled id d :
  D.attr_showAllObjects d = value ->
  D.modelShowObject listener id value d
  = match D.models d !! id with
    | Some model => D.set_models (<[id := shown listener value model]> (D.models d)) d
    | None => d
    end.
Proof.
  intros Hd. unfold D.modelShowObject, shown.
  destruct (D.models d !! id) as [model|]; [|reflexivity].
  destruct (MapObject.showObject listener value model) as [model' changed]. simpl.
  destruct changed; [|reflexivity].
  unfold D.onChangeShowObject. simpl. rewrite Hd. destruct value; reflexivity.
Qed.

Lemma fanout_fold (l : list string) d :
  D.attr_showAllObjects d = value ->
  NoDup l ->
  let d' := foldl (fun d id => match D.models d !! id with
                               | Some model => D.modelShowObject listener id value d
                               | None => d
                               end) d l in
  D.attr_showAllObjects d' = value
  /\ D.attr_showAllRoutes d' = D.attr_showAllRoutes d
  /\ D.triggered d' = D.triggered d
  /\ forall i, D.models d' !! i
               = if decide (i ∈ l) then shown listener value <$> D.models d !! i
                 else D.models d !! i.
Proof.
  revert d. induction l as [|a l IH]; intros d Hd Hnd; cbn [foldl].
  - split; [exact Hd|]. split; [reflexivity|]. split; [reflexivity|].
    intros i. case_decide as Hi; [inversion Hi|reflexivity].
  - apply NoDup_cons in Hnd as [Ha Hnd].
    set (d1 := match D.models d !! a with
               | Some _ => D.modelShowObject listener a value d
               | None => d
               end).
    assert (H1 : D.attr_showAllObjects d1 = value
                 /\ D.attr_showAllRoutes d1 = D.attr_showAllRoutes d
                 /\ D.triggered d1 = D.triggered d
                 /\ forall i, D.models d1 !! i
                              = if decide (i = a) then shown listener value <$> D.models d !! i
                                else D.models d !! i).
    { unfold d1. rewrite modelShowObject_settled by exact Hd.
      destruct (D.models d !! a) as [model|] eqn:Hm.
      - split; [exact Hd|]. split; [reflexivity|]. split; [reflexivity|].
        intros i. cbn [D.models D.set_models].
        case_decide as Hi.
        + subst i. rewrite lookup_insert_eq, Hm. reflexivity.
        + rewrite lookup_insert_ne by congruence. reflexivity.
      - split; [exact Hd|]. split; [reflexivity|]. split; [reflexivity|].
        intros i. case_decide as Hi; [subst i; rewrite Hm; reflexivity|reflexivity]. }
    destruct H1 as (Hf1 & Hr1 & Ht1 & Hm1).
    destruct (IH d1 Hf1 Hnd) as (Hf & Hr & Ht & Hm).
    split; [exact Hf|]. split; [congruence|]. split; [congruence|].
    intros i. rewrite Hm, Hm1.
    destruct (decide (i ∈ l)) as [Hil|Hil].
    + rewrite decide_False by (intros ->; contradiction).
      rewrite decide_True by (apply elem_of_cons; auto). reflexivity.
    + destruct (decide (i = a)) as [->|Hne].
      * rewrite decide_True by (apply elem_of_cons; auto). reflexivity.
      * rewrite decide_False; [reflexivity|].
        intros Hin. apply elem_of_cons in Hin as [?|?]; contradiction.
Qed.

(** A loud [showAllObjects(value)] that changes the attribute gives
    [value] to every model, keeps the keys, and leaves the attribute at
    [value]. *)
Lemma showAllObjects_fanout d :
  D.attr_showAllObjects d = negb value ->
  let d' := D.showAllObjects listener value false d in
  D.attr_showAllObjects d' = value
  /\ D.attr_showAllRoutes d' = D.attr_showAllRoutes d
  /\ D.triggered d' = D.triggered d
  /\ D.models d' = shown listener value <$> D.models d.
Proof.
  intros Hd. unfold D.showAllObjects. rewrite Hd.
  replace (negb (Bool.eqb (negb value) value) && negb false) with true
    by (destruct value; reflexivity).
  unfold D.each.
  set (d1 := D.set_showAllObjects value d).
  destruct (fanout_fold (map_to_list (D.models d1)).*1 d1 eq_refl
              (NoDup_fst_map_to_list _)) as (Hf & Hr & Ht & Hm).
  split; [exact Hf|]. split; [exact Hr|]. split; [exact Ht|].
  apply map_eq. intros i. rewrite Hm, lookup_fmap. simpl.
  destruct (decide (i ∈ (map_to_list (D.models d)).*1)) as [Hin|Hin]; [reflexivity|].
  destruct (D.models d !! i) as [m|] eqn:Hi; [|reflexivity].
  exfalso. apply Hin. apply list_elem_of_fmap. exists (i, m). split; [reflexivity|].
  apply elem_of_map_to_list. exact Hi.
Qed.

End Fanout.

Lemma vm_listener_keepsShowObject vm : keepsShowObject (VM.onChangeShowObject vm).
Proof.
  intros m b. unfold VM.onChangeShowObject. destruct b; [|reflexivity].
  apply calculatePos_showObject.
Qed.

Lemma showObject_pair listener value m :
  MapObject.showObject listener value m
  = (shown listener value m, negb (Bool.eqb (MapObject.attr_showObject m) value)).
Proof. reflexivity. Qed.

Lemma modelShowObject_changed listener id value d m :
  D.models d !! id = Some m ->
  MapObject.attr_showObject m = negb value ->
  D.modelShowObject listener id value d
  = D.onChangeShowObject value
      (D.set_models (<[id := shown listener value m]> (D.models d)) d).
Proof.
  intros Hm Hv. unfold D.modelShowObject. rewrite Hm, showObject_pair, Hv.
  destruct value; reflexivity.
Qed.

(** C7: when the dictionary shows all objects and every object is
    visible, hiding one object turns the attribute [showAllObjects] off,
    hides that object and clears its marker, and leaves every other object
    as it was; [showAllObjects(true)] then turns the attribute on again
    and makes every object visible, the objects being the same as
    before. *)
Theorem hiding_one_object_demotes_showAllObjects
    (vm : VM.t) (id : string) (m : MapObject.t) :
  D.attr_showAllObjects (VM.collection vm) = true ->
  (forall i x, D.models (VM.collection vm) !! i = Some x -> MapObject.attr_showObject x = true) ->
  D.models (VM.collection vm) !! id = Some m ->
  let vm1 := VM.modelShowObject id false vm in
  let vm2 := VM.showAllObjects true vm1 in
  VM.modelToggleShowObject id vm = vm1
  /\ D.attr_showAllObjects (VM.collection vm1) = false
  /\ (exists m1, D.models (VM.collection vm1) !! id = Some m1
                 /\ MapObject.attr_showObject m1 = false
                 /\ MapObject.marker m1 = None)
  /\ (forall i, i <> id ->
                D.models (VM.collection vm1) !! i = D.models (VM.collection vm) !! i)
  /\ D.attr_showAllObjects (VM.collection vm2) = true
  /\ dom (D.models (VM.collection vm2)) = dom (D.models (VM.collection vm))
  /\ (forall i x, D.models (VM.collection vm2) !! i = Some x ->
                  MapObject.attr_showObject x = true).
Proof.
  intros Hall Hvis Hm vm1 vm2.
  pose proof (Hvis _ _ Hm) as Hmv.
  assert (Hc1 : VM.collection vm1
                = D.set_showAllObjects false
                    (D.set_models
                       (<[id := shown (VM.onChangeShowObject vm) false m]>
                          (D.models (VM.collection vm)))
                       (VM.collection vm))).
  { unfold vm1, VM.modelShowObject. cbn [VM.collection VM.set_collection].
    rewrite (modelShowObject_changed _ id false _ m Hm Hmv).
    unfold D.onChangeShowObject. cbn [D.attr_showAllObjects D.set_models].
    rewrite Hall. reflexivity. }
  split.
  { unfold VM.modelToggleShowObject, D.modelToggleShowObject. rewrite Hm, Hmv. reflexivity. }
  split; [rewrite Hc1; reflexivity|].
  split.
  { exists (shown (VM.onChangeShowObject vm) false m). rewrite Hc1.
    cbn [D.models D.set_showAllObjects D.set_models]. rewrite lookup_insert_eq.
    split; [reflexivity|]. split.
    - apply showObject_attr. apply vm_listener_keepsShowObject.
    - apply showObject_false_marker. }
  split.
  { intros i Hi. rewrite Hc1. cbn [D.models D.set_showAllObjects D.set_models].
    apply lookup_insert_ne. congruence. }
  destruct (showAllObjects_fanout (VM.onChangeShowObject vm1) true (VM.collection vm1))
    as (Hf & _ & _ & Hms); [rewrite Hc1; reflexivity|].
  unfold vm2, VM.showAllObjects. cbn [VM.collection VM.set_collection].
  split; [exact Hf|]. rewrite Hms. split.
  - rewrite dom_fmap_L, Hc1. cbn [D.models D.set_showAllObjects D.set_models].
    rewrite dom_insert_L.
    assert (Hd : id ∈ dom (D.models (VM.collection vm))) by (apply elem_of_dom; eauto).
    apply subseteq_union_1_L. apply singleton_subseteq_l. exact Hd.
  - intros i x Hx. rewrite lookup_fmap in Hx.
    destruct (D.models (VM.collection vm1) !! i) as [y|]; [|discriminate].
    simpl in Hx. injection Hx as <-. apply showObject_attr.
    apply vm_listener_keepsShowObject.
Qed.

Lemma hiding_one_object_demotes_showAllObjects_witness :
  let vm1 := VM.modelShowObject "{name:car}" false threeObjects in
  let vm2 := VM.showAllObjects true vm1 in
  D.attr_showAllObjects (VM.collection vm1) = false
  /\ D.models (VM.collection vm1) !! "{name:bus}"
     = D.models (VM.collection threeObjects) !! "{name:bus}"
  /\ D.attr_showAllObjects (VM.collection vm2) = true
  /\ (forall i x, D.models (VM.collection vm2) !! i = Some x ->
                  MapObject.attr_showObject x = true).
Proof.
  intros vm1 vm2.
  assert (Hm : D.models (VM.collection threeObjects) !! "{name:car}"
               = Some (pushed (mkPoint 1 2 3) (MapObject.new true true "{name:car}")))
    by (vm_compute; reflexivity).
  assert (Hvis : forall i x, D.models (VM.collection threeObjects) !! i = Some x ->
                             MapObject.attr_showObject x = true).
  { apply (map_Forall_to_list (fun _ x => MapObject.attr_showObject x = true)).
    vm_compute. repeat constructor. }
  destruct (hiding_one_object_demotes_showAllObjects threeObjects "{name:car}" _
              eq_refl Hvis Hm) as (_ & H1 & _ & H2 & H3 & _ & H4).
  split; [exact H1|]. split; [apply H2; discriminate|]. split; [exact H3|exact H4].
Defined.

(** ** MapObjectsDictionary.addData *)

(** The dictionary once [addData] has stored and announced a new model
    under [id]. *)
Lemma addData_unseen {Fields} {stringify : JS.Stringify Fields}
    (obj : Fields) (point : option RawPoint) (d : D.t) :
  let id := JS.JSON_stringify obj in
  let model := MapObject.new (D.attr_showAllObjects d) (D.attr_showAllRoutes d) id in
  D.models d !! id = None ->
  D.addData obj point d
  = (D.set_models (<[id := fst (MapObject.add point model)]> (D.models d))
       (D.trigger (D.EvAdd id) d),
     match snd (MapObject.add point model) with
     | inl e => inl e
     | inr _ => inr id
     end).
Proof.
  intros id model Hnone. unfold D.addData. fold id. unfold bind, get, put, ret.
  rewrite Hnone. fold model. unfold D.modelAdd.
  cbn [D.models D.set_models D.trigger]. rewrite lookup_insert_eq.
  destruct (MapObject.add point model) as [model' [e|[]]]; cbn [fst snd];
    unfold D.set_models, D.trigger; cbn; rewrite insert_insert_eq; reflexivity.
Qed.

(** C9 (as amended): when [addData] is called with an identity the
    dictionary has not seen and with an invalid point, the exception of
    [add] reaches the caller, and the dictionary is left with a new object
    under that identity: the object has no points, it carries the two
    attributes of the dictionary, and the event 'add' was triggered for
    it; the other objects and the attributes of the dictionary are as
    before.  The first point of an object is never out of order. *)
Theorem addData_invalid_point_leaves_empty_object {Fields} {stringify : JS.Stringify Fields}
    (obj : Fields) (point : option RawPoint) (d : D.t) :
  let id := JS.JSON_stringify obj in
  D.models d !! id = None ->
  (snd (D.addData obj point d) <> inl PointsOutOfOrder)
  /\ (MapObject.invalidPoint point = true ->
      let d' := fst (D.addData obj point d) in
      snd (D.addData obj point d) = inl InvalidPointFormat
      /\ D.models d' !! id
         = Some (MapObject.new (D.attr_showAllObjects d) (D.attr_showAllRoutes d) id)
      /\ (forall i, i <> id -> D.models d' !! i = D.models d !! i)
      /\ D.triggered d' = D.triggered d ++ [D.EvAdd id]
      /\ D.attr_showAllObjects d' = D.attr_showAllObjects d
      /\ D.attr_showAllRoutes d' = D.attr_showAllRoutes d).
Proof.
  intros id Hnone. rewrite (addData_unseen (stringify := stringify) obj point d Hnone). fold id.
  cbn [fst snd]. split.
  - destruct (MapObject.invalidPoint point) eqn:Hv.
    + rewrite add_invalid by exact Hv. simpl. congruence.
    + apply invalidPoint_numeric in Hv as [p Hp]. rewrite (add_numeric _ _ _ Hp).
      simpl. congruence.
  - intros Hv. rewrite (add_invalid _ _ Hv). cbn [fst snd D.models D.set_models D.trigger
      D.triggered D.attr_showAllObjects D.attr_showAllRoutes].
    rewrite lookup_insert_eq. repeat split.
    intros i Hi. apply lookup_insert_ne. congruence.
Qed.

Lemma addData_invalid_point_leaves_empty_object_witness :
  let point := Some (mkRaw JS.Undefined (JS.Number 2) (JS.Number 3)) in
  let d := VM.collection threeObjects in
  let d' := fst (D.addData (stringify := nameStringify) "tram" point d) in
  snd (D.addData (stringify := nameStringify) "tram" point d) = inl InvalidPointFormat
  /\ D.models d' !! "{name:tram}" = Some (MapObject.new true true "{name:tram}")
  /\ D.triggered d' = D.triggered d ++ [D.EvAdd "{name:tram}"].
Proof.
  intros point d d'.
  destruct (proj2 (addData_invalid_point_leaves_empty_object (stringify := nameStringify)
                     "tram" point d eq_refl) eq_refl) as (H1 & H2 & _ & H3 & _).
  split; [exact H1|]. split; [exact H2|exact H3].
Defined.

(** C9, as stated, fails: after [addData] has thrown on the invalid first
    point of an unseen identity, the dictionary holds an object for that
    identity and has triggered 'add' for it. *)
Lemma addData_invalid_point_creates_object :
  let point := Some (mkRaw JS.Undefined (JS.Number 2) (JS.Number 3)) in
  let r := D.addData (stringify := nameStringify) "tram" point D.new in
  D.models D.new !! "{name:tram}" = None
  /\ snd r = inl InvalidPointFormat
  /\ D.models (fst r) !! "{name:tram}" = Some (MapObject.new true true "{name:tram}")
  /\ D.triggered (fst r) = [D.EvAdd "{name:tram}"].
Proof. vm_compute. repeat split; reflexivity. Qed.

(** ** MapObjectsViewModel.addDataPoints *)

Section AddDataPointsProperties.

Context {Fields : Type} {stringify : JS.Stringify Fields} {toNumber : JS.StringToNumber}.








End AddDataPointsProperties.



(** ** MapObjectsViewModel: play, tick, pause *)

Lemma ticks_last n vm : VM.ticks (S n) vm = VM.tick (VM.ticks n vm).
Proof.
  revert vm. induction n as [|n IH]; intros vm; [reflexivity|].
  change (VM.ticks (S (S n)) vm) with (VM.ticks (S n) (VM.tick vm)).
  rewrite IH. reflexivity.
Qed.

Lemma clock_last step n t : clock step (S n) t = (clock step n t + step)%float.
Proof.
  revert t. induction n as [|n IH]; intros t; [reflexivity|].
  change (clock step (S (S n)) t) with (clock step (S n) (t + step)%float).
  rewrite IH. reflexivity.
Qed.

(** One tick of a running timer: the clock advances, the other attributes
    stay, and the timer is cleared exactly when the new time is above the
    end time. *)
Lemma tick_running vm t :
  VM.attr_playInterval vm = true ->
  VM.attr_currentTime vm = JS.Num t ->
  let t' := (t + VM.attr_speed vm / VM.attr_graduality vm)%float in
  VM.attr_currentTime (VM.tick vm) = JS.Num t'
  /\ VM.attr_playInterval (VM.tick vm)
     = negb (JS.gt t' (JS.attr_to_number (VM.attr_endTime vm)))
  /\ VM.attr_endTime (VM.tick vm) = VM.attr_endTime vm
  /\ VM.attr_speed (VM.tick vm) = VM.attr_speed vm
  /\ VM.attr_graduality (VM.tick vm) = VM.attr_graduality vm.
Proof.
  intros Hp Ht t'. unfold VM.tick. rewrite Hp, Ht.
  cbn [JS.attr_to_number VM.currentTime VM.set_collection VM.set_currentTime
       VM.attr_currentTime VM.attr_endTime VM.attr_speed VM.attr_graduality
       VM.attr_playInterval VM.attr_realtime VM.attr_timeWindow VM.collection].
  fold t'. destruct (JS.gt t' (JS.attr_to_number (VM.attr_endTime vm))).
  - unfold VM.pause. cbn. rewrite Hp. cbn. repeat split; reflexivity.
  - cbn. rewrite Hp. repeat split; reflexivity.
Qed.

(** A cleared timer does not fire. *)
Lemma tick_paused vm : VM.attr_playInterval vm = false -> VM.tick vm = vm.
Proof. intros Hp. unfold VM.tick. rewrite Hp. reflexivity. Qed.

(** As long as the clock has not gone above the end time the timer keeps
    running and the clock is the start time plus one step per tick. *)
Lemma ticks_running n vm t e :
  VM.attr_playInterval vm = true ->
  VM.attr_currentTime vm = JS.Num t ->
  VM.attr_endTime vm = JS.Num e ->
  let step := (VM.attr_speed vm / VM.attr_graduality vm)%float in
  (forall k, (1 <= k <= n)%nat -> JS.gt (clock step k t) e = false) ->
  VM.attr_playInterval (VM.ticks n vm) = true
  /\ VM.attr_currentTime (VM.ticks n vm) = JS.Num (clock step n t)
  /\ VM.attr_endTime (VM.ticks n vm) = JS.Num e
  /\ VM.attr_speed (VM.ticks n vm) = VM.attr_speed vm
  /\ VM.attr_graduality (VM.ticks n vm) = VM.attr_graduality vm.
Proof.
  intros Hp Ht He step. induction n as [|n IH]; intros Hk.
  - repeat split; assumption.
  - destruct IH as (Hp' & Ht' & He' & Hs' & Hg'); [intros k Hkn; apply Hk; lia|].
    rewrite ticks_last.
    destruct (tick_running _ _ Hp' Ht') as (Ht2 & Hp2 & He2 & Hs2 & Hg2).
    rewrite Hs', Hg', He' in *. fold step in Ht2, Hp2. rewrite <- clock_last in Ht2, Hp2.
    cbn [JS.attr_to_number] in Hp2. rewrite (Hk (S n)) in Hp2 by lia.
    split; [exact Hp2|]. repeat split; assumption.
Qed.

(** C8: in historical mode [play] starts the timer with the clock at the
    current time, or at the begin time when there is none; every tick
    advances the clock by [speed / graduality]; the timer runs as long as
    the clock has not gone strictly above the end time and is cleared by
    the first tick that takes it above, after which ticks no longer come.
    With begin time 0, end time 10, speed 10 and graduality 2 the clock
    reads 5, 10 and 15 after the first three ticks and the third one
    pauses the playback. *)
Theorem playback_ticks_then_pauses :
  (forall (vm : VM.t) (b e : float),
      VM.attr_realtime vm = false ->
      VM.attr_playInterval vm = false ->
      VM.attr_beginTime vm = JS.Num b ->
      VM.attr_endTime vm = JS.Num e ->
      let t0 := default b (VM.getOrNull (VM.attr_currentTime vm)) in
      let step := (VM.attr_speed vm / VM.attr_graduality vm)%float in
      VM.playbackMode (VM.play vm) = true
      /\ VM.attr_currentTime (VM.play vm) = JS.Num t0
      /\ forall n,
          (forall k, (1 <= k <= n)%nat -> JS.gt (clock step k t0) e = false) ->
          (VM.playbackMode (VM.ticks n (VM.play vm)) = true
           /\ VM.attr_currentTime (VM.ticks n (VM.play vm)) = JS.Num (clock step n t0))
          /\ VM.attr_currentTime (VM.ticks (S n) (VM.play vm))
             = JS.Num (clock step n t0 + step)%float
          /\ (JS.gt (clock step n t0 + step)%float e = true ->
              VM.playbackMode (VM.ticks (S n) (VM.play vm)) = false
              /\ VM.ticks (S (S n)) (VM.play vm) = VM.ticks (S n) (VM.play vm)))
  /\ (let vm := VM.play playbackExample in
      VM.playbackMode vm = true
      /\ VM.attr_currentTime vm = JS.Num 0%float
      /\ (VM.attr_currentTime (VM.ticks 1 vm) = JS.Num 5%float
          /\ VM.playbackMode (VM.ticks 1 vm) = true)
      /\ (VM.attr_currentTime (VM.ticks 2 vm) = JS.Num 10%float
          /\ VM.playbackMode (VM.ticks 2 vm) = true)
      /\ (VM.attr_currentTime (VM.ticks 3 vm) = JS.Num 15%float
          /\ VM.playbackMode (VM.ticks 3 vm) = false)
      /\ VM.ticks 4 vm = VM.ticks 3 vm).
Proof.
  split; [|vm_compute; repeat split; reflexivity].
  intros vm b e Hrt Hp Hb He t0 step.
  assert (Hplay : VM.attr_playInterval (VM.play vm) = true
                  /\ VM.attr_currentTime (VM.play vm) = JS.Num t0
                  /\ VM.attr_endTime (VM.play vm) = JS.Num e
                  /\ VM.attr_speed (VM.play vm) = VM.attr_speed vm
                  /\ VM.attr_graduality (VM.play vm) = VM.attr_graduality vm).
  { unfold VM.play, t0. rewrite Hb, He, Hp, Hrt. cbn [VM.has negb orb].
    destruct (VM.attr_currentTime vm) as [| |t] eqn:Ht; cbn [VM.has negb];
      cbn; rewrite ?Ht, ?He; repeat split; reflexivity. }
  destruct Hplay as (Hp0 & Ht0 & He0 & Hs0 & Hg0).
  split; [exact Hp0|]. split; [exact Ht0|].
  intros n Hk.
  destruct (ticks_running n (VM.play vm) t0 e Hp0 Ht0 He0) as (Hpn & Htn & Hen & Hsn & Hgn).
  { rewrite Hs0, Hg0. exact Hk. }
  rewrite Hs0, Hg0 in Htn. fold step in Htn.
  split; [split; [exact Hpn|exact Htn]|].
  rewrite ticks_last.
  destruct (tick_running _ _ Hpn Htn) as (Ht' & Hp' & _).
  rewrite Hsn, Hgn, Hs0, Hg0, Hen in *. fold step in Ht', Hp'. cbn [JS.attr_to_number] in Hp'.
  split; [exact Ht'|].
  intros Hgt. rewrite Hgt in Hp'. split; [exact Hp'|].
  rewrite (ticks_last (S n)), ticks_last. apply tick_paused. exact Hp'.
Qed.

Lemma playback_ticks_then_pauses_witness :
  let vm := VM.play playbackExample in
  VM.attr_currentTime (VM.ticks 2 vm) = JS.Num 10%float
  /\ VM.playbackMode (VM.ticks 2 vm) = true
  /\ VM.playbackMode (VM.ticks 3 vm) = false.
Proof.
  intros vm.
  destruct (proj1 playback_ticks_then_pauses playbackExample 0%float 10%float
              eq_refl eq_refl eq_refl eq_refl) as (_ & _ & Hn).
  destruct (Hn 2%nat) as ((Hp & Ht) & _ & Hlast).
  { intros k Hk. assert (Hc : k = 1%nat \/ k = 2%nat) by lia.
    destruct Hc as [->| ->]; vm_compute; reflexivity. }
  split; [exact Ht|]. split; [exact Hp|].
  apply Hlast. vm_compute. reflexivity.
Defined.

(** * Further properties *)

(** ** MapObject.calculatePos: what the eviction keeps and removes *)

Lemma SFleb_ltb_trans x y z :
  SFleb x y = true -> SFltb y z = true -> SFltb x z = true.
Proof. unfold SFleb, SFltb. sf_cases x y z. Qed.

Lemma le_lt_trans a b c :
  JS.le a b = true -> JS.lt b c = true -> JS.lt a c = true.
Proof.
  unfold JS.le, JS.lt. rewrite !FloatAxioms.ltb_spec, FloatAxioms.leb_spec.
  apply SFleb_ltb_trans.
Qed.

Lemma ascending_drop k ps : ascending ps = true -> ascending (drop k ps) = true.
Proof.
  revert ps. induction k as [|k IH]; intros ps H; [rewrite drop_0; exact H|].
  destruct ps as [|p ps]; [reflexivity|]. simpl. apply IH. eapply ascending_tail. exact H.
Qed.

Lemma calculatePos_points currentTime realtime timeWindow m :
  MapObject.points (MapObject.calculatePos currentTime realtime timeWindow m)
  = if MapObject.attr_showObject m
    then MapObject.points (MapObject.removeOldPoints currentTime timeWindow m)
    else MapObject.points m.
Proof.
  unfold MapObject.calculatePos. destruct (MapObject.attr_showObject m).
  - destruct (MapObject.position _ _ _) as [[la|] [lo|]];
      try destruct (JS.truthy la && JS.truthy lo);
      unfold MapObject.clearPos; try destruct (MapObject.marker _); reflexivity.
  - unfold MapObject.clearPos. destruct (MapObject.marker m); reflexivity.
Qed.

Lemma calculatePos_polyline currentTime realtime timeWindow m :
  MapObject.polyline (MapObject.calculatePos currentTime realtime timeWindow m)
  = if MapObject.attr_showObject m
    then MapObject.polyline (MapObject.removeOldPoints currentTime timeWindow m)
    else MapObject.polyline m.
Proof.
  unfold MapObject.calculatePos. destruct (MapObject.attr_showObject m).
  - destruct (MapObject.position _ _ _) as [[la|] [lo|]];
      try destruct (JS.truthy la && JS.truthy lo);
      unfold MapObject.clearPos; try destruct (MapObject.marker _); reflexivity.
  - unfold MapObject.clearPos. destruct (MapObject.marker m); reflexivity.
Qed.

Lemma removeOldPoints_frame currentTime timeWindow m :
  MapObject.modelId (MapObject.removeOldPoints currentTime timeWindow m) = MapObject.modelId m
  /\ MapObject.attr_showRoute (MapObject.removeOldPoints currentTime timeWindow m)
     = MapObject.attr_showRoute m
  /\ MapObject.marker (MapObject.removeOldPoints currentTime timeWindow m)
     = MapObject.marker m.
Proof.
  unfold MapObject.removeOldPoints. destruct (JS.truthy_opt timeWindow); [|auto].
  destruct (MapObject.evict _ _ _ _ _). auto.
Qed.

Lemma calculatePos_frame currentTime realtime timeWindow m :
  MapObject.modelId (MapObject.calculatePos currentTime realtime timeWindow m)
  = MapObject.modelId m
  /\ MapObject.attr_showRoute (MapObject.calculatePos currentTime realtime timeWindow m)
     = MapObject.attr_showRoute m.
Proof.
  destruct (removeOldPoints_frame currentTime timeWindow m) as (Hi & Hr & _).
  unfold MapObject.calculatePos. destruct (MapObject.attr_showObject m).
  - destruct (MapObject.position _ _ _) as [[la|] [lo|]];
      try destruct (JS.truthy la && JS.truthy lo);
      unfold MapObject.clearPos; try destruct (MapObject.marker _); auto.
  - unfold MapObject.clearPos. destruct (MapObject.marker m); auto.
Qed.

(** X1: [calculatePos] never adds, changes or reorders points: what it
    leaves is the array with some points dropped from its front, and
    ascending points stay ascending.  It drops nothing at all from a
    hidden object or when the time window is missing or falsy. *)
Theorem calculatePos_drops_only_from_front
    (currentTime : float) (realtime : bool) (timeWindow : option float) (m : MapObject.t) :
  (exists k, MapObject.points (MapObject.calculatePos currentTime realtime timeWindow m)
             = drop k (MapObject.points m))
  /\ (ascending (MapObject.points m) = true ->
      ascending (MapObject.points (MapObject.calculatePos currentTime realtime timeWindow m))
      = true)
  /\ (MapObject.attr_showObject m = false \/ JS.truthy_opt timeWindow = false ->
      MapObject.points (MapObject.calculatePos currentTime realtime timeWindow m)
      = MapObject.points m).
Proof.
  assert (Hk : exists k, MapObject.points (MapObject.calculatePos currentTime realtime
                                             timeWindow m)
                         = drop k (MapObject.points m)).
  { rewrite calculatePos_points. destruct (MapObject.attr_showObject m).
    - apply points_removeOldPoints.
    - exists 0%nat. reflexivity. }
  split; [exact Hk|]. split.
  - intros Ha. destruct Hk as [k ->]. apply ascending_drop. exact Ha.
  - intros Hcase. rewrite calculatePos_points.
    destruct (MapObject.attr_showObject m); [|reflexivity].
    destruct Hcase as [Hh|Hw]; [discriminate|].
    unfold MapObject.removeOldPoints. rewrite Hw. reflexivity.
Qed.

Lemma calculatePos_drops_only_from_front_witness :
  let m := MapObject.mk "a" [mkPoint 0 1 1; mkPoint 100 1 1; mkPoint 200 1 1]
             true false None None in
  let hidden := MapObject.set_showObject false m in
  (MapObject.points (MapObject.calculatePos 150 true (Some 100%float) m)
   = drop 2 (MapObject.points m)
   /\ ascending (MapObject.points (MapObject.calculatePos 150 true (Some 100%float) m))
      = true)
  /\ MapObject.points (MapObject.calculatePos 150 true None m) = MapObject.points m
  /\ MapObject.points (MapObject.calculatePos 150 true (Some 100%float) hidden)
     = MapObject.points hidden.
Proof.
  intros m hidden.
  destruct (calculatePos_drops_only_from_front 150 true (Some 100%float) m) as (_ & Ha & _).
  destruct (calculatePos_drops_only_from_front 150 true None m) as (_ & _ & Hw).
  destruct (calculatePos_drops_only_from_front 150 true (Some 100%float) hidden)
    as (_ & _ & Hh).
  split; [split; [vm_compute; reflexivity|apply Ha; reflexivity]|].
  split; [apply Hw; right; reflexivity|apply Hh; left; reflexivity].
Defined.

(** The point the loop last removed being old whenever the first point
    left is, the loop stops in one of three states: the array is empty,
    its first point is not older than the deadline, or a single point is
    left that the timeout protects. *)
Lemma evict_settled currentTime deadline fp ps path :
  ascending ps = true ->
  (forall p, head ps = Some p -> olderThan deadline p = true -> olderThan deadline fp = true) ->
  match fst (MapObject.evict currentTime deadline (Some fp) ps path) with
  | [] => True
  | p :: rest =>
    olderThan deadline p = false
    \/ (rest = [] /\ MapObject.inTimeoutLimit currentTime p = true)
  end.
Proof.
  revert fp path. induction ps as [|p rest IH]; intros fp path Ha Hfp.
  - simpl. destruct (JS.lt (ts fp) deadline); exact I.
  - cbn [MapObject.evict]. destruct (JS.lt (ts fp) deadline) eqn:Hold.
    + destruct ((length (p :: rest) =? 1)%nat && MapObject.inTimeoutLimit currentTime p)
        eqn:Hguard.
      * apply andb_prop in Hguard as [Hlen Hin]. cbn [fst]. right.
        split; [|exact Hin]. apply Nat.eqb_eq in Hlen. destruct rest; [reflexivity|].
        simpl in Hlen. lia.
      * apply IH; [eapply ascending_tail; exact Ha|].
        intros q Hq Hqold. destruct rest as [|q' rest']; [discriminate|].
        simpl in Hq. injection Hq as ->. rewrite ascending_cons in Ha.
        apply andb_prop in Ha as [Hpq _]. unfold olderThan in *.
        eapply le_lt_trans; eassumption.
    + cbn [fst]. left. destruct (olderThan deadline p) eqn:Hp; [|reflexivity].
      pose proof (Hfp p eq_refl Hp) as Hfpold. unfold olderThan in Hfpold. congruence.
Qed.

(** A settled array is left as it is by the loop. *)
Lemma evict_fixed currentTime deadline ps path :
  match ps with
  | [] => True
  | p :: rest =>
    olderThan deadline p = false
    \/ (rest = [] /\ MapObject.inTimeoutLimit currentTime p = true)
  end ->
  MapObject.evict currentTime deadline (head ps) ps path = (ps, path).
Proof.
  destruct ps as [|p rest]; [reflexivity|]. intros H. cbn [head MapObject.evict].
  destruct (JS.lt (ts p) deadline) eqn:Hold; [|reflexivity].
  destruct H as [Hn|[-> Hin]]; [unfold olderThan in Hn; congruence|].
  simpl. rewrite Hin. reflexivity.
Qed.

Lemma evict_from_head_settled currentTime deadline ps path :
  ascending ps = true ->
  match fst (MapObject.evict currentTime deadline (head ps) ps path) with
  | [] => True
  | p :: rest =>
    olderThan deadline p = false
    \/ (rest = [] /\ MapObject.inTimeoutLimit currentTime p = true)
  end.
Proof.
  intros Ha. destruct ps as [|p rest]; [exact I|].
  apply (evict_settled currentTime deadline p (p :: rest) path Ha).
  intros q Hq Hold. injection Hq as ->. exact Hold.
Qed.

(** X2: on a visible object with ascending points and a time window, the
    eviction leaves no point older than the deadline
    [currentTime - timeWindow], except that a single last point is kept
    while it is within the default timeout of the current time. *)
Theorem eviction_leaves_no_old_point
    (currentTime : float) (realtime : bool) (w : float) (m : MapObject.t) :
  MapObject.attr_showObject m = true ->
  JS.truthy w = true ->
  ascending (MapObject.points m) = true ->
  let left := MapObject.points (MapObject.calculatePos currentTime realtime (Some w) m) in
  Forall (fun q => olderThan (currentTime - w)%float q = false) left
  \/ exists p, left = [p] /\ MapObject.inTimeoutLimit currentTime p = true.
Proof.
  intros Hvis Hw Ha left.
  assert (Hleft : left = fst (MapObject.evict currentTime (currentTime - w)%float
                                (head (MapObject.points m)) (MapObject.points m)
                                (MapObject.polyline m))).
  { unfold left. rewrite calculatePos_points, Hvis. unfold MapObject.removeOldPoints.
    cbn [JS.truthy_opt JS.undefined_to_number]. rewrite Hw.
    destruct (MapObject.evict _ _ _ _ _). reflexivity. }
  assert (Hasc : ascending left = true).
  { rewrite Hleft.
    destruct (evict_drop currentTime (currentTime - w)%float (head (MapObject.points m))
                (MapObject.points m) (MapObject.polyline m)) as [k ->].
    apply ascending_drop. exact Ha. }
  pose proof (evict_from_head_settled currentTime (currentTime - w)%float
                (MapObject.points m) (MapObject.polyline m) Ha) as Hs.
  rewrite <- Hleft in Hs. destruct left as [|p rest]; [left; constructor|].
  destruct Hs as [Hp|[-> Hin]]; [|right; eauto].
  left. constructor; [exact Hp|]. apply Forall_forall. intros q Hq.
  destruct (olderThan (currentTime - w)%float q) eqn:Hqold; [|reflexivity].
  unfold olderThan in *. rewrite <- Hp. symmetry.
  eapply le_lt_trans; [|exact Hqold]. eapply ascending_head; eassumption.
Qed.

Lemma eviction_leaves_no_old_point_witness :
  let m := MapObject.mk "a" [mkPoint 0 1 1; mkPoint 40 1 1; mkPoint 100 1 1; mkPoint 200 1 1]
             true false None None in
  MapObject.points (MapObject.calculatePos 150 true (Some 100%float) m) = [mkPoint 200 1 1]
  /\ (Forall (fun q => olderThan (150 - 100)%float q = false)
        (MapObject.points (MapObject.calculatePos 150 true (Some 100%float) m))
      \/ exists p, MapObject.points (MapObject.calculatePos 150 true (Some 100%float) m) = [p]
                   /\ MapObject.inTimeoutLimit 150 p = true).
Proof.
  intros m. split; [vm_compute; reflexivity|].
  apply (eviction_leaves_no_old_point 150 true 100 m); vm_compute; reflexivity.
Defined.

Lemma evict_keeps_recent_last currentTime deadline firstPoint ps path l :
  last ps = Some l ->
  MapObject.inTimeoutLimit currentTime l = true ->
  last (fst (MapObject.evict currentTime deadline firstPoint ps path)) = Some l.
Proof.
  revert firstPoint path. induction ps as [|p rest IH]; intros firstPoint path Hl Hin.
  - discriminate.
  - destruct firstPoint as [fp|]; [|exact Hl]. cbn [MapObject.evict].
    destruct (JS.lt (ts fp) deadline); [|exact Hl].
    destruct rest as [|q rest'].
    + simpl in Hl. injection Hl as ->. simpl. rewrite Hin. reflexivity.
    + cbn [length Nat.eqb andb]. apply IH; [exact Hl|exact Hin].
Qed.

(** X3: an object whose last point is within the default timeout of the
    current time keeps that point through [calculatePos], whatever the
    time window and the mode: an object that has just reported is never
    emptied. *)
Theorem calculatePos_keeps_recent_last_point
    (currentTime : float) (realtime : bool) (timeWindow : option float)
    (m : MapObject.t) (l : Point) :
  last (MapObject.points m) = Some l ->
  MapObject.inTimeoutLimit currentTime l = true ->
  last (MapObject.points (MapObject.calculatePos currentTime realtime timeWindow m)) = Some l
  /\ MapObject.isEmpty (MapObject.calculatePos currentTime realtime timeWindow m) = false.
Proof.
  intros Hl Hin.
  assert (H : last (MapObject.points
                      (MapObject.calculatePos currentTime realtime timeWindow m)) = Some l).
  { rewrite calculatePos_points. destruct (MapObject.attr_showObject m); [|exact Hl].
    unfold MapObject.removeOldPoints. destruct (JS.truthy_opt timeWindow); [|exact Hl].
    pose proof (evict_keeps_recent_last currentTime
                  (currentTime - JS.undefined_to_number timeWindow)%float
                  (head (MapObject.points m)) (MapObject.points m) (MapObject.polyline m)
                  l Hl Hin) as He.
    destruct (MapObject.evict _ _ _ _ _). exact He. }
  split; [exact H|]. unfold MapObject.isEmpty.
  destruct (MapObject.points (MapObject.calculatePos currentTime realtime timeWindow m));
    [discriminate|reflexivity].
Qed.

Lemma calculatePos_keeps_recent_last_point_witness :
  let m := MapObject.mk "a" [mkPoint 0 1 1; mkPoint 1000 2 2] true false None None in
  last (MapObject.points (MapObject.calculatePos 1200 true (Some 10%float) m))
  = Some (mkPoint 1000 2 2).
Proof.
  intros m.
  apply (calculatePos_keeps_recent_last_point 1200 true (Some 10%float) m (mkPoint 1000 2 2));
    vm_compute; reflexivity.
Defined.

Lemma set_marker_twice k m :
  MapObject.set_marker k (MapObject.set_marker k m) = MapObject.set_marker k m.
Proof. reflexivity. Qed.

Lemma clearPos_twice m : MapObject.clearPos (MapObject.clearPos m) = MapObject.clearPos m.
Proof. unfold MapObject.clearPos. destruct (MapObject.marker m) eqn:E; simpl; [reflexivity|].
  rewrite E. reflexivity.
Qed.

(** The eviction does not look at the marker. *)
Lemma removeOldPoints_set_marker currentTime timeWindow k m :
  MapObject.removeOldPoints currentTime timeWindow (MapObject.set_marker k m)
  = MapObject.set_marker k (MapObject.removeOldPoints currentTime timeWindow m).
Proof.
  unfold MapObject.removeOldPoints. destruct (JS.truthy_opt timeWindow); [|reflexivity].
  cbn [MapObject.points MapObject.polyline MapObject.set_marker].
  destruct (MapObject.evict _ _ _ _ _). reflexivity.
Qed.

Lemma clearPos_set_marker m : MapObject.clearPos m = MapObject.set_marker None m.
Proof.
  unfold MapObject.clearPos. destruct m as [i ps so sr [k|] pl]; reflexivity.
Qed.

(** Evicting a second time, at the same time and with the same window,
    removes nothing more from ascending points. *)
Lemma removeOldPoints_twice currentTime timeWindow m :
  ascending (MapObject.points m) = true ->
  MapObject.removeOldPoints currentTime timeWindow
    (MapObject.removeOldPoints currentTime timeWindow m)
  = MapObject.removeOldPoints currentTime timeWindow m.
Proof.
  intros Ha. unfold MapObject.removeOldPoints.
  destruct (JS.truthy_opt timeWindow); [|reflexivity].
  set (deadline := (currentTime - JS.undefined_to_number timeWindow)%float).
  pose proof (evict_from_head_settled currentTime deadline (MapObject.points m)
                (MapObject.polyline m) Ha) as Hs.
  destruct (MapObject.evict currentTime deadline (head (MapObject.points m))
              (MapObject.points m) (MapObject.polyline m)) as [ps path] eqn:He.
  cbn [fst] in Hs. cbn [MapObject.points MapObject.polyline MapObject.set_points
                        MapObject.set_polyline].
  rewrite (evict_fixed currentTime deadline ps path Hs). reflexivity.
Qed.

Lemma calculatePos_as_set_marker currentTime realtime timeWindow m :
  MapObject.attr_showObject m = true ->
  MapObject.calculatePos currentTime realtime timeWindow m
  = MapObject.set_marker
      (markerFor (MapObject.position currentTime realtime
                    (MapObject.points (MapObject.removeOldPoints currentTime timeWindow m))))
      (MapObject.removeOldPoints currentTime timeWindow m).
Proof.
  intros Hvis. rewrite (calculatePos_visible _ _ _ _ Hvis). cbv zeta. unfold markerFor.
  destruct (MapObject.position _ _ _) as [[la|] [lo|]];
    try destruct (JS.truthy la && JS.truthy lo);
    rewrite ?clearPos_set_marker; reflexivity.
Qed.

(** X4: on ascending points [calculatePos] is idempotent: asking again
    for the position at the same time, in the same mode and with the same
    window, changes nothing. *)
Theorem calculatePos_idempotent
    (currentTime : float) (realtime : bool) (timeWindow : option float) (m : MapObject.t) :
  ascending (MapObject.points m) = true ->
  MapObject.calculatePos currentTime realtime timeWindow
    (MapObject.calculatePos currentTime realtime timeWindow m)
  = MapObject.calculatePos currentTime realtime timeWindow m.
Proof.
  intros Ha. destruct (MapObject.attr_showObject m) eqn:Hvis.
  - rewrite (calculatePos_as_set_marker _ _ _ m Hvis).
    rewrite calculatePos_as_set_marker
      by (cbn [MapObject.attr_showObject MapObject.set_marker];
          rewrite removeOldPoints_showObject; exact Hvis).
    rewrite removeOldPoints_set_marker, (removeOldPoints_twice _ _ _ Ha).
    reflexivity.
  - assert (E : MapObject.calculatePos currentTime realtime timeWindow m
                = MapObject.clearPos m)
      by (unfold MapObject.calculatePos; rewrite Hvis; reflexivity).
    rewrite E. unfold MapObject.calculatePos. rewrite clearPos_showObject, Hvis.
    apply clearPos_twice.
Qed.

Lemma calculatePos_idempotent_witness :
  let m := MapObject.mk "a" [mkPoint 0 1 1; mkPoint 100 1 1; mkPoint 200 3 4]
             true true None (Some [(1, 1); (1, 1); (3, 4)]%float) in
  MapObject.calculatePos 150 true (Some 100%float)
    (MapObject.calculatePos 150 true (Some 100%float) m)
  = MapObject.calculatePos 150 true (Some 100%float) m.
Proof.
  intros m. apply (calculatePos_idempotent 150 true (Some 100%float) m). reflexivity.
Defined.

(** ** The route of an object *)

Lemma drop_tail {A} k (l : list A) : drop k (tail l) = drop (S k) l.
Proof. destruct l; [simpl tail; rewrite !drop_nil; reflexivity|reflexivity]. Qed.

(** The eviction drops as many vertices from the front of the path as
    points from the front of the array. *)
Lemma evict_drop_both currentTime deadline firstPoint ps path :
  exists k, MapObject.evict currentTime deadline firstPoint ps path
            = (drop k ps, option_map (drop k) path).
Proof.
  assert (H0 : (ps, path) = (drop 0 ps, option_map (drop 0) path))
    by (destruct path; reflexivity).
  revert firstPoint path H0. induction ps as [|p rest IH]; intros firstPoint path H0.
  - destruct firstPoint as [fp|]; [|exists 0%nat; exact H0]. simpl.
    destruct (JS.lt (ts fp) deadline); [|exists 0%nat; exact H0].
    exists 1%nat. destruct path as [[|v path]|]; reflexivity.
  - destruct firstPoint as [fp|]; [|exists 0%nat; exact H0]. cbn [MapObject.evict].
    destruct (JS.lt (ts fp) deadline); [|exists 0%nat; exact H0].
    destruct ((length (p :: rest) =? 1)%nat && MapObject.inTimeoutLimit currentTime p);
      [exists 0%nat; exact H0|].
    destruct (IH (Some p) (MapObject.removeAt0 path)) as [k Hk];
      [destruct path; reflexivity|].
    exists (S k). rewrite Hk. f_equal. destruct path as [path|]; [|reflexivity].
    simpl. rewrite drop_tail. reflexivity.
Qed.

Lemma removeOldPoints_drop_both currentTime timeWindow m :
  exists k,
    MapObject.points (MapObject.removeOldPoints currentTime timeWindow m)
    = drop k (MapObject.points m)
    /\ MapObject.polyline (MapObject.removeOldPoints currentTime timeWindow m)
       = option_map (drop k) (MapObject.polyline m).
Proof.
  unfold MapObject.removeOldPoints. destruct (JS.truthy_opt timeWindow).
  - destruct (evict_drop_both currentTime
                (currentTime - JS.undefined_to_number timeWindow)%float
                (head (MapObject.points m)) (MapObject.points m) (MapObject.polyline m))
      as [k ->].
    exists k. split; reflexivity.
  - exists 0%nat. split; [reflexivity|]. destruct (MapObject.polyline m); reflexivity.
Qed.

Lemma calculatePos_drop_both currentTime realtime timeWindow m :
  exists k,
    MapObject.points (MapObject.calculatePos currentTime realtime timeWindow m)
    = drop k (MapObject.points m)
    /\ MapObject.polyline (MapObject.calculatePos currentTime realtime timeWindow m)
       = option_map (drop k) (MapObject.polyline m).
Proof.
  rewrite calculatePos_points, calculatePos_polyline.
  destruct (MapObject.attr_showObject m).
  - apply removeOldPoints_drop_both.
  - exists 0%nat. split; [reflexivity|]. destruct (MapObject.polyline m); reflexivity.
Qed.

Lemma coords_drop k ps : coords (drop k ps) = drop k (coords ps).
Proof. unfold coords. apply fmap_drop. Qed.

Lemma coords_app ps qs : coords (ps ++ qs) = coords ps ++ coords qs.
Proof. unfold coords. apply map_app. Qed.

(** X5: [add] and [calculatePos] keep the route in step with the points:
    if the route is in step before the call, it is after it, [add] having
    appended the vertex of the new point (or drawn the route of the first
    point) and [calculatePos] having removed the vertices of the evicted
    points.  A new object is in step, and so is any object once its route
    is hidden. *)
Theorem route_follows_points :
  (forall showObject showRoute id, routeFollows (MapObject.new showObject showRoute id))
  /\ (forall m, routeFollows (fst (MapObject.showRoute false m)))
  /\ (forall point m, routeFollows m -> routeFollows (fst (MapObject.add point m)))
  /\ (forall currentTime realtime timeWindow m,
         routeFollows m ->
         routeFollows (MapObject.calculatePos currentTime realtime timeWindow m)).
Proof.
  split; [|split; [|split]].
  - intros showObject showRoute id. unfold routeFollows. simpl.
    destruct showRoute; reflexivity.
  - intros m. unfold routeFollows, MapObject.showRoute, MapObject.drawRoute.
    cbn [fst MapObject.polyline MapObject.set_showRoute].
    destruct (MapObject.polyline m) eqn:E; cbn; [reflexivity|exact E].
  - intros point m Hm.
    destruct (MapObject.invalidPoint point) eqn:Hv.
    { rewrite (add_invalid _ _ Hv). exact Hm. }
    apply invalidPoint_numeric in Hv as [p Hp]. rewrite (add_numeric _ _ _ Hp).
    destruct (MapObject.outOfOrder (MapObject.points m) p); [exact Hm|].
    cbn [fst]. unfold routeFollows in *. unfold pushed.
    cbn [MapObject.attr_showRoute MapObject.set_points MapObject.polyline MapObject.points].
    destruct (MapObject.attr_showRoute m) eqn:Hr.
    + destruct (MapObject.polyline m) as [path|] eqn:Hpl.
      * cbn. rewrite Hr. subst path. rewrite coords_app. reflexivity.
      * rewrite Hm. unfold MapObject.showRoute, MapObject.drawRoute. cbn.
        rewrite Hpl. cbn. reflexivity.
    + cbn. rewrite Hr. exact Hm.
  - intros currentTime realtime timeWindow m Hm. unfold routeFollows in *.
    destruct (calculatePos_frame currentTime realtime timeWindow m) as [_ ->].
    destruct (calculatePos_drop_both currentTime realtime timeWindow m) as (k & -> & ->).
    destruct (MapObject.attr_showRoute m).
    + destruct (MapObject.polyline m) as [path|]; simpl.
      * rewrite Hm, coords_drop. reflexivity.
      * rewrite Hm. apply drop_nil.
    + rewrite Hm. reflexivity.
Qed.

Lemma route_follows_points_witness :
  let m := MapObject.mk "a" [mkPoint 0 1 1; mkPoint 100 2 2; mkPoint 200 3 4]
             true true None (Some [(1, 1); (2, 2); (3, 4)]%float) in
  MapObject.polyline (fst (MapObject.add (pt 300 5 6) m))
  = Some [(1, 1); (2, 2); (3, 4); (5, 6)]%float
  /\ routeFollows (fst (MapObject.add (pt 300 5 6) m))
  /\ routeFollows (MapObject.calculatePos 150 true (Some 100%float) m).
Proof.
  intros m.
  assert (Hm : routeFollows m) by reflexivity.
  destruct route_follows_points as (_ & _ & Hadd & Hcalc).
  split; [vm_compute; reflexivity|]. split; [apply Hadd; exact Hm|apply Hcalc; exact Hm].
Defined.

(** ** MapObjectsDictionary.each and the methods built on it *)

(** What holds of the dictionary before [each] and is kept by the action
    holds after it. *)
Lemma each_invariant (I : D.t -> Prop) action d :
  I d ->
  (forall model id d, I d -> D.models d !! id = Some model -> I (action model id d)) ->
  I (D.each action d).
Proof.
  intros Hd Hact. unfold D.each.
  generalize ((map_to_list (D.models d)).*1). intros l. revert d Hd.
  induction l as [|a l IH]; intros d Hd; [exact Hd|].
  cbn [foldl]. apply IH. destruct (D.models d !! a) as [model|] eqn:Hm; [|exact Hd].
  apply Hact; assumption.
Qed.

(** When the action, run on a model, replaces that model by [h model] or
    deletes it ([None]) and leaves the other models alone, [each] does so
    with every model. *)
Lemma each_models (h : MapObject.t -> option MapObject.t) action d :
  (forall model id d, D.models d !! id = Some model ->
     forall i, D.models (action model id d) !! i
               = if decide (i = id) then h model else D.models d !! i) ->
  D.models (D.each action d) = omap h (D.models d).
Proof.
  intros Hact.
  assert (Hfold : forall l d, NoDup l ->
            forall i, D.models (foldl (fun d id => match D.models d !! id with
                                                   | Some model => action model id d
                                                   | None => d
                                                   end) d l) !! i
                      = if decide (i ∈ l) then D.models d !! i ≫= h else D.models d !! i).
  { induction l as [|a l IH]; intros d0 Hnd i; cbn [foldl].
    - case_decide as Hi; [inversion Hi|reflexivity].
    - apply NoDup_cons in Hnd as [Ha Hnd]. rewrite (IH _ Hnd).
      assert (H1 : forall j, D.models (match D.models d0 !! a with
                                       | Some model => action model a d0
                                       | None => d0
                                       end) !! j
                             = if decide (j = a) then D.models d0 !! j ≫= h
                               else D.models d0 !! j).
      { intros j. destruct (D.models d0 !! a) as [model|] eqn:Hm.
        - rewrite (Hact model a d0 Hm). case_decide as Hj; [subst j; rewrite Hm|];
            reflexivity.
        - case_decide as Hj; [subst j; rewrite Hm|]; reflexivity. }
      rewrite !H1.
      destruct (decide (i ∈ l)) as [Hil|Hil].
      + rewrite decide_False by (intros ->; contradiction).
        rewrite decide_True by (apply elem_of_cons; auto). reflexivity.
      + destruct (decide (i = a)) as [->|Hne].
        * rewrite decide_True by (apply elem_of_cons; auto). reflexivity.
        * rewrite decide_False; [reflexivity|].
          intros Hin. apply elem_of_cons in Hin as [?|?]; contradiction. }
  apply map_eq. intros i. unfold D.each.
  rewrite (Hfold _ d (NoDup_fst_map_to_list _)), lookup_omap.
  case_decide as Hin; [reflexivity|].
  destruct (D.models d !! i) as [m|] eqn:Hi; [|reflexivity].
  exfalso. apply Hin. apply list_elem_of_fmap. exists (i, m). split; [reflexivity|].
  apply elem_of_map_to_list. exact Hi.
Qed.

(** The events of a removing [each]: 'remove' is triggered for the keys
    whose model is to go, in the order of the visit. *)
Lemma each_remove_triggered (c : MapObject.t -> bool) d :
  D.triggered (D.each (fun model id d => if c model then D.remove id d else d) d)
  = D.triggered d
    ++ (D.EvRemove <$> (List.filter (fun id => match D.models d !! id with
                                               | Some model => c model
                                               | None => false
                                               end)
                          (map_to_list (D.models d)).*1)).
Proof.
  unfold D.each.
  pose proof (NoDup_fst_map_to_list (D.models d)) as Hnd. revert Hnd.
  generalize ((map_to_list (D.models d)).*1). intros l.
  assert (Hgen : forall d0, NoDup l ->
            (forall i, i ∈ l -> D.models d0 !! i = D.models d !! i) ->
            D.triggered (foldl (fun d id => match D.models d !! id with
                                            | Some model =>
                                              if c model then D.remove id d else d
                                            | None => d
                                            end) d0 l)
            = D.triggered d0
              ++ (D.EvRemove <$> (List.filter (fun id => match D.models d !! id with
                                                         | Some model => c model
                                                         | None => false
                                                         end) l))).
  { induction l as [|a l IH]; intros d0 Hnd Hsame; cbn [foldl List.filter].
    - rewrite app_nil_r. reflexivity.
    - apply NoDup_cons in Hnd as [Ha Hnd].
      rewrite <- (Hsame a) by (apply elem_of_cons; auto).
      destruct (D.models d0 !! a) as [model|] eqn:Hm.
      + destruct (c model) eqn:Hc.
        * rewrite IH; [| exact Hnd |].
          -- cbn. rewrite <- app_assoc. reflexivity.
          -- intros i Hi. cbn. rewrite lookup_delete_ne by (intros ->; contradiction).
             apply Hsame. apply elem_of_cons. auto.
        * apply IH; [exact Hnd|]. intros i Hi. apply Hsame. apply elem_of_cons. auto.
      + apply IH; [exact Hnd|]. intros i Hi. apply Hsame. apply elem_of_cons. auto. }
  intros Hnd. apply Hgen; [exact Hnd|reflexivity].
Qed.

Lemma each_remove_models (c : MapObject.t -> bool) d :
  D.models (D.each (fun model id d => if c model then D.remove id d else d) d)
  = omap (fun model => if c model then None else Some model) (D.models d).
Proof.
  apply each_models. intros model id d0 Hm i. destruct (c model).
  - cbn. rewrite lookup_delete. case_decide; case_decide; congruence.
  - case_decide as Hi; [subst i; exact Hm|reflexivity].
Qed.

Lemma each_remove_flags (c : MapObject.t -> bool) d :
  D.attr_showAllObjects (D.each (fun model id d => if c model then D.remove id d else d) d)
  = D.attr_showAllObjects d
  /\ D.attr_showAllRoutes (D.each (fun model id d => if c model then D.remove id d else d) d)
     = D.attr_showAllRoutes d.
Proof.
  apply (each_invariant (fun d' => D.attr_showAllObjects d' = D.attr_showAllObjects d
                                   /\ D.attr_showAllRoutes d' = D.attr_showAllRoutes d));
    [auto|].
  intros model id d0 H _. destruct (c model); exact H.
Qed.

(** X6: [clearEmptyObjects] removes exactly the objects without points:
    an object with points stays as it is, no object without points is
    left, 'remove' is triggered once for each object removed and for no
    other, and the two attributes of the dictionary stay.  Clearing again
    changes nothing. *)
Theorem clearEmptyObjects_removes_empty (d : D.t) :
  let d' := D.clearEmptyObjects d in
  (forall i, D.models d' !! i
             = match D.models d !! i with
               | Some model => if MapObject.isEmpty model then None else Some model
               | None => None
               end)
  /\ (exists removed,
         D.triggered d' = D.triggered d ++ (D.EvRemove <$> removed)
         /\ NoDup removed
         /\ forall i, i ∈ removed
                      <-> exists model, D.models d !! i = Some model
                                        /\ MapObject.isEmpty model = true)
  /\ D.attr_showAllObjects d' = D.attr_showAllObjects d
  /\ D.attr_showAllRoutes d' = D.attr_showAllRoutes d
  /\ D.models (D.clearEmptyObjects d') = D.models d'
  /\ D.triggered (D.clearEmptyObjects d') = D.triggered d'.
Proof.
  intros d'.
  assert (Hm : forall d0 i, D.models (D.clearEmptyObjects d0) !! i
                            = match D.models d0 !! i with
                              | Some model =>
                                if MapObject.isEmpty model then None else Some model
                              | None => None
                              end).
  { intros d0 i. unfold D.clearEmptyObjects. rewrite each_remove_models, lookup_omap.
    destruct (D.models d0 !! i); reflexivity. }
  assert (Hkeep : forall i model, D.models d' !! i = Some model ->
                                  MapObject.isEmpty model = false).
  { intros i model. unfold d'. rewrite Hm.
    destruct (D.models d !! i) as [x|]; [|discriminate].
    destruct (MapObject.isEmpty x) eqn:E; [discriminate|]. intros [= <-]. exact E. }
  split; [apply Hm|]. split.
  { eexists. split; [apply each_remove_triggered|]. split.
    - apply NoDup_ListNoDup, List.NoDup_filter, NoDup_ListNoDup, NoDup_fst_map_to_list.
    - intros i. rewrite list_elem_of_In, List.filter_In, <- list_elem_of_In. split.
      + intros [_ Hc]. destruct (D.models d !! i) as [model|]; [|discriminate]. eauto.
      + intros (model & Hi & Hc). rewrite Hi. split; [|exact Hc].
        apply list_elem_of_fmap. exists (i, model). split; [reflexivity|].
        apply elem_of_map_to_list. exact Hi. }
  destruct (each_remove_flags MapObject.isEmpty d) as [Ho Hr].
  split; [exact Ho|]. split; [exact Hr|]. split.
  - apply map_eq. intros i. rewrite Hm.
    destruct (D.models d' !! i) as [model|] eqn:Hi; [|reflexivity].
    rewrite (Hkeep _ _ Hi). reflexivity.
  - unfold D.clearEmptyObjects at 1. rewrite each_remove_triggered.
    enough (Hnil : List.filter
                     (fun id => match D.models d' !! id with
                                | Some model => MapObject.isEmpty model
                                | None => false
                                end) (map_to_list (D.models d')).*1 = [])
      by (rewrite Hnil; apply app_nil_r).
    induction ((map_to_list (D.models d')).*1) as [|a l IH]; [reflexivity|].
    cbn [List.filter]. destruct (D.models d' !! a) as [model|] eqn:Ha; [|exact IH].
    rewrite (Hkeep _ _ Ha). exact IH.
Qed.

Lemma clearEmptyObjects_removes_empty_witness :
  let d := fst (D.addData (stringify := nameStringify) "tram" None
                  (VM.collection threeObjects)) in
  D.models (D.clearEmptyObjects d) !! "{name:tram}" = None
  /\ D.models (D.clearEmptyObjects d) !! "{name:bus}" = D.models d !! "{name:bus}".
Proof.
  intros d. destruct (clearEmptyObjects_removes_empty d) as (Hm & _).
  split; rewrite Hm; vm_compute; reflexivity.
Defined.

(** X7: [reset] leaves the dictionary without objects; it triggers
    'reset' first and then 'remove' once for each object it held, and it
    keeps the two attributes of the dictionary, which the next new object
    will take over. *)
Theorem reset_removes_every_object (d : D.t) :
  D.models (D.reset d) = ∅
  /\ (exists removed,
         D.triggered (D.reset d) = D.triggered d ++ D.EvReset :: (D.EvRemove <$> removed)
         /\ NoDup removed
         /\ forall i, i ∈ removed <-> is_Some (D.models d !! i))
  /\ D.attr_showAllObjects (D.reset d) = D.attr_showAllObjects d
  /\ D.attr_showAllRoutes (D.reset d) = D.attr_showAllRoutes d.
Proof.
  assert (Hm : D.models (D.reset d)
               = omap (fun model : MapObject.t => if true then None else Some model)
                   (D.models d))
    by exact (each_remove_models (fun _ => true) (D.trigger D.EvReset d)).
  assert (Ht : D.triggered (D.reset d)
               = (D.triggered d ++ [D.EvReset])
                 ++ (D.EvRemove <$> List.filter
                                      (fun id => match D.models d !! id with
                                                 | Some _ => true
                                                 | None => false
                                                 end) (map_to_list (D.models d)).*1))
    by exact (each_remove_triggered (fun _ => true) (D.trigger D.EvReset d)).
  assert (Hf : D.attr_showAllObjects (D.reset d) = D.attr_showAllObjects d
               /\ D.attr_showAllRoutes (D.reset d) = D.attr_showAllRoutes d)
    by exact (each_remove_flags (fun _ => true) (D.trigger D.EvReset d)).
  split; [|split; [|exact Hf]].
  - rewrite Hm. apply map_empty. intros i. rewrite lookup_omap.
    destruct (D.models d !! i); reflexivity.
  - eexists. split; [|split].
    + rewrite Ht, <- app_assoc. reflexivity.
    + apply NoDup_ListNoDup, List.NoDup_filter, NoDup_ListNoDup, NoDup_fst_map_to_list.
    + intros i. rewrite list_elem_of_In, List.filter_In, <- list_elem_of_In. split.
      * intros [_ Hc]. destruct (D.models d !! i) as [model|]; [eauto|discriminate].
      * intros [model Hi]. rewrite Hi. split; [|reflexivity].
        apply list_elem_of_fmap. exists (i, model). split; [reflexivity|].
        apply elem_of_map_to_list. exact Hi.
Qed.

Lemma reset_removes_every_object_witness :
  D.models (D.reset (VM.collection threeObjects)) = ∅
  /\ length (D.triggered (D.reset (VM.collection threeObjects))) = 7%nat.
Proof.
  split; [apply (proj1 (reset_removes_every_object (VM.collection threeObjects)))|].
  vm_compute. reflexivity.
Defined.

(** ** MapObjectsDictionary.addData *)

Lemma addData_seen {Fields} {stringify : JS.Stringify Fields}
    (obj : Fields) (point : option RawPoint) (d : D.t) (model : MapObject.t) :
  D.models d !! JS.JSON_stringify obj = Some model ->
  D.addData obj point d
  = (D.set_models (<[JS.JSON_stringify obj := fst (MapObject.add point model)]> (D.models d)) d,
     match snd (MapObject.add point model) with
     | inl e => inl e
     | inr _ => inr (JS.JSON_stringify obj)
     end).
Proof.
  intros Hm. unfold D.addData, bind, get, put, ret. rewrite Hm. unfold D.modelAdd.
  rewrite Hm. destruct (MapObject.add point model) as [model' [e|[]]]; reflexivity.
Qed.

(** The model [addData] adds the point to: the one stored under the id,
    or a new one with the attributes of the dictionary. *)
Lemma addData_effect {Fields} {stringify : JS.Stringify Fields}
    (obj : Fields) (point : option RawPoint) (d : D.t) :
  let id := JS.JSON_stringify obj in
  let model := match D.models d !! id with
               | Some model => model
               | None => MapObject.new (D.attr_showAllObjects d) (D.attr_showAllRoutes d) id
               end in
  D.models (fst (D.addData obj point d)) = <[id := fst (MapObject.add point model)]> (D.models d)
  /\ D.attr_showAllObjects (fst (D.addData obj point d)) = D.attr_showAllObjects d
  /\ D.attr_showAllRoutes (fst (D.addData obj point d)) = D.attr_showAllRoutes d
  /\ D.triggered (fst (D.addData obj point d))
     = D.triggered d ++ match D.models d !! id with
                        | Some _ => []
                        | None => [D.EvAdd id]
                        end
  /\ snd (D.addData obj point d)
     = match snd (MapObject.add point model) with
       | inl e => inl e
       | inr _ => inr id
       end.
Proof.
  intros id model. unfold model, id.
  destruct (D.models d !! JS.JSON_stringify obj) as [m|] eqn:Hm.
  - rewrite (addData_seen obj point d m Hm). cbn. rewrite app_nil_r. auto.
  - rewrite (addData_unseen (stringify := stringify) obj point d Hm). cbn. auto.
Qed.

(** X8: [addData] touches the object of the identity it is given and no
    other: every other object stays as it is, no object is removed, the
    attributes of the dictionary stay, and 'add' is triggered exactly
    when the identity was not there.  For an identity that is there, the
    point goes to the object stored under it, whose state is the one [add]
    leaves, and no object is created. *)
Theorem addData_touches_one_object {Fields} {stringify : JS.Stringify Fields}
    (obj : Fields) (point : option RawPoint) (d : D.t) :
  let id := JS.JSON_stringify obj in
  let d' := fst (D.addData obj point d) in
  (forall i, i <> id -> D.models d' !! i = D.models d !! i)
  /\ dom (D.models d') = {[id]} ∪ dom (D.models d)
  /\ D.attr_showAllObjects d' = D.attr_showAllObjects d
  /\ D.attr_showAllRoutes d' = D.attr_showAllRoutes d
  /\ D.triggered d' = D.triggered d ++ match D.models d !! id with
                                       | Some _ => []
                                       | None => [D.EvAdd id]
                                       end
  /\ (forall model, D.models d !! id = Some model ->
        D.models d' !! id = Some (fst (MapObject.add point model))
        /\ dom (D.models d') = dom (D.models d)
        /\ D.triggered d' = D.triggered d).
Proof.
  intros id d'. destruct (addData_effect obj point d) as (Hm & Ho & Hr & Ht & _).
  fold id in Hm, Ht. fold d' in Hm, Ho, Hr, Ht.
  split; [intros i Hi; rewrite Hm; apply lookup_insert_ne; congruence|].
  split; [rewrite Hm; apply dom_insert_L|].
  split; [exact Ho|]. split; [exact Hr|]. split; [exact Ht|].
  intros model Hmodel. rewrite Hmodel in Hm, Ht. cbn in Hm. split; [|split].
  - rewrite Hm. apply lookup_insert_eq.
  - rewrite Hm, dom_insert_L. apply subseteq_union_1_L, singleton_subseteq_l.
    apply elem_of_dom. eauto.
  - rewrite Ht. apply app_nil_r.
Qed.

Lemma addData_touches_one_object_witness :
  let d := VM.collection threeObjects in
  let d' := fst (D.addData (stringify := nameStringify) "car" (pt 7 8 9) d) in
  D.models d' !! "{name:car}"
  = Some (fst (MapObject.add (pt 7 8 9)
                 (pushed (mkPoint 1 2 3) (MapObject.new true true "{name:car}"))))
  /\ dom (D.models d') = dom (D.models d)
  /\ D.triggered d' = D.triggered d.
Proof.
  intros d d'.
  destruct (addData_touches_one_object (stringify := nameStringify) "car" (pt 7 8 9) d)
    as (_ & _ & _ & _ & _ & Hseen).
  apply Hseen. vm_compute. reflexivity.
Defined.

(** X9: two calls of [addData] with the same fields and valid points in
    order end in one object that holds both points, 'add' having been
    triggered once; a call with fields of another identity creates a
    second object and leaves the first as it was. *)
Theorem addData_same_identity_one_object {Fields} {stringify : JS.Stringify Fields}
    (obj obj' : Fields) (p1 p2 : Point) (d : D.t) :
  let id := JS.JSON_stringify obj in
  let raw p := pt (ts p) (lat p) (lon p) in
  D.models d !! id = None ->
  JS.gt (ts p1) (ts p2) = false ->
  let d1 := fst (D.addData obj (raw p1) d) in
  let d2 := fst (D.addData obj (raw p2) d1) in
  let d2' := fst (D.addData obj' (raw p2) d1) in
  (snd (D.addData obj (raw p1) d) = inr id
   /\ snd (D.addData obj (raw p2) d1) = inr id
   /\ (exists m, D.models d2 !! id = Some m /\ MapObject.points m = [p1; p2])
   /\ dom (D.models d2) = {[id]} ∪ dom (D.models d)
   /\ D.triggered d2 = D.triggered d ++ [D.EvAdd id])
  /\ (JS.JSON_stringify obj' <> id ->
      D.models d !! JS.JSON_stringify obj' = None ->
      D.models d2' !! id = D.models d1 !! id
      /\ (exists m', D.models d2' !! JS.JSON_stringify obj' = Some m'
                     /\ MapObject.points m' = [p2])
      /\ D.triggered d2' = D.triggered d ++ [D.EvAdd id; D.EvAdd (JS.JSON_stringify obj')]).
Proof.
  intros id raw Hnone Hord d1 d2 d2'.
  assert (Hraw : forall p, MapObject.numeric (raw p) = Some p)
    by (intros [t la lo]; reflexivity).
  set (m0 := MapObject.new (D.attr_showAllObjects d) (D.attr_showAllRoutes d) id).
  assert (Hadd1 : MapObject.add (raw p1) m0 = (pushed p1 m0, inr tt)).
  { rewrite (add_numeric _ _ _ (Hraw p1)). reflexivity. }
  destruct (addData_effect obj (raw p1) d) as (Hm1 & Ho1 & Hr1 & Ht1 & Hs1).
  fold id d1 in Hm1, Ho1, Hr1, Ht1, Hs1. rewrite Hnone in Hm1, Ht1, Hs1.
  cbv beta iota in Hm1, Hs1. fold m0 in Hm1, Hs1. rewrite Hadd1 in Hm1, Hs1.
  cbn [fst snd] in Hm1, Hs1.
  assert (Hl1 : D.models d1 !! id = Some (pushed p1 m0))
    by (rewrite Hm1; apply lookup_insert_eq).
  assert (Hadd2 : MapObject.add (raw p2) (pushed p1 m0)
                  = (pushed p2 (pushed p1 m0), inr tt)).
  { rewrite (add_numeric _ _ _ (Hraw p2)), points_pushed.
    unfold MapObject.outOfOrder, m0. cbn [MapObject.points MapObject.new app last].
    rewrite Hord. reflexivity. }
  split.
  - destruct (addData_effect obj (raw p2) d1) as (Hm2 & _ & _ & Ht2 & Hs2).
    fold id d2 in Hm2, Ht2, Hs2. rewrite Hl1 in Hm2, Ht2, Hs2.
    cbv beta iota in Hm2, Hs2. rewrite Hadd2 in Hm2, Hs2. cbn [fst snd] in Hm2, Hs2.
    split; [exact Hs1|]. split; [exact Hs2|]. split; [|split].
    + exists (pushed p2 (pushed p1 m0)). split; [rewrite Hm2; apply lookup_insert_eq|].
      rewrite !points_pushed. reflexivity.
    + rewrite Hm2, Hm1, !dom_insert_L, (assoc_L (∪)), union_idemp_L. reflexivity.
    + rewrite Ht2, Ht1, app_nil_r. reflexivity.
  - intros Hne Hnone'.
    assert (Hl1' : D.models d1 !! JS.JSON_stringify obj' = None).
    { rewrite Hm1, lookup_insert_ne by congruence. exact Hnone'. }
    destruct (addData_effect obj' (raw p2) d1) as (Hm2 & _ & _ & Ht2 & _).
    fold d2' in Hm2, Ht2. rewrite Hl1' in Hm2, Ht2. cbv beta iota in Hm2.
    rewrite (add_numeric _ _ _ (Hraw p2)) in Hm2. cbn [fst MapObject.points MapObject.new
      MapObject.outOfOrder last] in Hm2.
    split; [rewrite Hm2; apply lookup_insert_ne; congruence|]. split.
    + eexists. split; [rewrite Hm2; apply lookup_insert_eq|]. rewrite points_pushed.
      reflexivity.
    + rewrite Ht2, Ht1, <- app_assoc. reflexivity.
Qed.

Lemma addData_same_identity_one_object_witness :
  let d1 := fst (D.addData (stringify := nameStringify) "bus" (pt 1 2 3) D.new) in
  let d2 := fst (D.addData (stringify := nameStringify) "bus" (pt 4 5 6) d1) in
  (exists m, D.models d2 !! "{name:bus}" = Some m
             /\ MapObject.points m = [mkPoint 1 2 3; mkPoint 4 5 6])
  /\ D.triggered d2 = [D.EvAdd "{name:bus}"].
Proof.
  intros d1 d2.
  destruct (addData_same_identity_one_object (stringify := nameStringify) "bus" "car"
              (mkPoint 1 2 3) (mkPoint 4 5 6) D.new eq_refl eq_refl)
    as ((_ & _ & Hm & _ & Ht) & _).
  split; [exact Hm|exact Ht].
Defined.

(** ** Showing and hiding *)


Lemma set_showAllObjects_same d : D.set_showAllObjects (D.attr_showAllObjects d) d = d.
Proof. destruct d; reflexivity. Qed.

Lemma set_showAllRoutes_same d : D.set_showAllRoutes (D.attr_showAllRoutes d) d = d.
Proof. destruct d; reflexivity. Qed.

Lemma set_collection_same vm : VM.set_collection (VM.collection vm) vm = vm.
Proof. destruct vm; reflexivity. Qed.

(** What hiding makes of a model under the listener of the view model:
    the attribute is off, the marker is gone, nothing else changes. *)
Lemma shown_false vm m :
  shown (VM.onChangeShowObject vm) false m
  = MapObject.set_marker None (MapObject.set_showObject false m).
Proof.
  unfold shown, MapObject.showObject, VM.onChangeShowObject. cbn [fst].
  destruct (negb (Bool.eqb (MapObject.attr_showObject m) false));
    cbn [MapObject.attr_showObject MapObject.set_showObject];
    rewrite ?clearPos_twice; apply clearPos_set_marker.
Qed.





(** X11: a loud [showAllObjects(false)] on a dictionary that shows all
    objects hides every object and clears every marker, and changes
    nothing else of any object; but [showAllObjects(value)] on a
    dictionary whose attribute already is [value] does nothing at all, so
    that, one object having been hidden by hand, [showAllObjects(false)]
    leaves the other objects visible. *)
Theorem showAllObjects_false_hides_all_or_nothing (vm : VM.t) :
  (D.attr_showAllObjects (VM.collection vm) = true ->
   D.attr_showAllObjects (VM.collection (VM.showAllObjects false vm)) = false
   /\ D.models (VM.collection (VM.showAllObjects false vm))
      = (fun m => MapObject.set_marker None (MapObject.set_showObject false m))
          <$> D.models (VM.collection vm))
  /\ (forall value, D.attr_showAllObjects (VM.collection vm) = value ->
                    VM.showAllObjects value vm = vm)
  /\ (forall id m,
         D.attr_showAllObjects (VM.collection vm) = true ->
         D.models (VM.collection vm) !! id = Some m ->
         MapObject.attr_showObject m = true ->
         VM.showAllObjects false (VM.modelShowObject id false vm)
         = VM.modelShowObject id false vm).
Proof.
  assert (Hsame : forall vm value, D.attr_showAllObjects (VM.collection vm) = value ->
                                   VM.showAllObjects value vm = vm).
  { intros vm0 value Hv. unfold VM.showAllObjects, D.showAllObjects.
    rewrite Hv, Bool.eqb_reflx. cbn [negb andb]. rewrite <- Hv.
    rewrite set_showAllObjects_same. apply set_collection_same. }
  split; [|split].
  - intros Hall.
    destruct (showAllObjects_fanout (VM.onChangeShowObject vm) false (VM.collection vm) Hall)
      as (Hf & _ & _ & Hm).
    unfold VM.showAllObjects. cbn [VM.collection VM.set_collection].
    split; [exact Hf|]. rewrite Hm. apply map_fmap_ext. intros i x _. apply shown_false.
  - intros value. apply Hsame.
  - intros id m Hall Hm Hvis. apply Hsame.
    unfold VM.modelShowObject. cbn [VM.collection VM.set_collection].
    rewrite (modelShowObject_changed _ id false _ m Hm Hvis).
    unfold D.onChangeShowObject. cbn [D.attr_showAllObjects D.set_models].
    rewrite Hall. reflexivity.
Qed.

Lemma showAllObjects_false_hides_all_or_nothing_witness :
  D.models (VM.collection (VM.showAllObjects false threeObjects)) !! "{name:bus}"
  = Some (MapObject.set_showObject false (pushed (mkPoint 1 2 3)
                                            (MapObject.new true true "{name:bus}")))
  /\ D.models (VM.collection
                 (VM.showAllObjects false (VM.modelShowObject "{name:car}" false threeObjects)))
     !! "{name:bus}"
     = D.models (VM.collection threeObjects) !! "{name:bus}".
Proof.
  destruct (showAllObjects_false_hides_all_or_nothing threeObjects) as (Hhide & _ & Hone).
  split.
  - rewrite (proj2 (Hhide eq_refl)), lookup_fmap. vm_compute. reflexivity.
  - rewrite (Hone "{name:car}"
               (pushed (mkPoint 1 2 3) (MapObject.new true true "{name:car}")));
      vm_compute; reflexivity.
Defined.

Lemma modelShowRoute_lookup id value d model :
  D.models d !! id = Some model ->
  forall i, D.models (D.modelShowRoute id value d) !! i
            = if decide (i = id) then Some (fst (MapObject.showRoute value model))
              else D.models d !! i.
Proof.
  intros Hm i. unfold D.modelShowRoute. rewrite Hm.
  destruct (MapObject.showRoute value model) as [model' changed]. cbn [fst].
  assert (Hl : D.models (D.set_models (<[id := model']> (D.models d)) d) !! i
               = if decide (i = id) then Some model' else D.models d !! i).
  { cbn. case_decide as Hi; [subst i; apply lookup_insert_eq|].
    apply lookup_insert_ne. congruence. }
  destruct changed; [|exact Hl]. unfold D.onChangeShowRoute.
  destruct (D.attr_showAllRoutes _ && negb value); exact Hl.
Qed.

Lemma modelShowRoute_settled id value d :
  D.attr_showAllRoutes d = value ->
  D.attr_showAllRoutes (D.modelShowRoute id value d) = value
  /\ D.attr_showAllObjects (D.modelShowRoute id value d) = D.attr_showAllObjects d
  /\ D.triggered (D.modelShowRoute id value d) = D.triggered d.
Proof.
  intros Hv. unfold D.modelShowRoute. destruct (D.models d !! id) as [model|]; [|auto].
  destruct (MapObject.showRoute value model) as [model' changed].
  destruct changed; [|auto]. unfold D.onChangeShowRoute. cbn. rewrite Hv.
  destruct value; auto.
Qed.

Lemma showAllRoutes_fanout (value : bool) (d : D.t) :
  D.attr_showAllRoutes d = negb value ->
  let d' := D.showAllRoutes value false d in
  D.attr_showAllRoutes d' = value
  /\ D.attr_showAllObjects d' = D.attr_showAllObjects d
  /\ D.triggered d' = D.triggered d
  /\ D.models d' = (fun m => fst (MapObject.showRoute value m)) <$> D.models d.
Proof.
  intros Hd d'.
  assert (Hunfold : d' = D.each (fun _ id d => D.modelShowRoute id value d)
                           (D.set_showAllRoutes value d)).
  { unfold d', D.showAllRoutes. rewrite Hd. destruct value; reflexivity. }
  assert (Hflags : D.attr_showAllRoutes d' = value
                   /\ D.attr_showAllObjects d' = D.attr_showAllObjects d
                   /\ D.triggered d' = D.triggered d).
  { rewrite Hunfold.
    apply (each_invariant (fun d0 => D.attr_showAllRoutes d0 = value
                                     /\ D.attr_showAllObjects d0 = D.attr_showAllObjects d
                                     /\ D.triggered d0 = D.triggered d)).
    - repeat split.
    - intros model id d0 (Hr & Ho & Ht) _.
      destruct (modelShowRoute_settled id value d0 Hr) as (Hr' & Ho' & Ht').
      repeat split; congruence. }
  destruct Hflags as (Hr & Ho & Ht).
  split; [exact Hr|]. split; [exact Ho|]. split; [exact Ht|].
  rewrite Hunfold.
  rewrite (each_models (fun m => Some (fst (MapObject.showRoute value m)))).
  - apply map_eq. intros i. rewrite lookup_omap, lookup_fmap. cbn.
    destruct (D.models d !! i); reflexivity.
  - intros model id d0 Hm i. apply modelShowRoute_lookup. exact Hm.
Qed.

(** X12: a loud [showAllRoutes(value)] that changes the attribute gives
    every object the result of its own [showRoute(value)]: with [true]
    every route is shown and drawn, with [false] every route is hidden
    and no polyline is left; the keys, the other attribute and the events
    of the dictionary stay. *)
Theorem showAllRoutes_reaches_every_object (value : bool) (d : D.t) :
  D.attr_showAllRoutes d = negb value ->
  let d' := D.showAllRoutes value false d in
  D.attr_showAllRoutes d' = value
  /\ D.attr_showAllObjects d' = D.attr_showAllObjects d
  /\ D.triggered d' = D.triggered d
  /\ D.models d' = (fun m => fst (MapObject.showRoute value m)) <$> D.models d
  /\ (forall i m', D.models d' !! i = Some m' ->
        MapObject.attr_showRoute m' = value
        /\ (if value then is_Some (MapObject.polyline m')
            else MapObject.polyline m' = None)).
Proof.
  intros Hd d'. destruct (showAllRoutes_fanout value d Hd) as (Hr & Ho & Ht & Hmodels).
  fold d' in Hr, Ho, Ht, Hmodels.
  split; [exact Hr|]. split; [exact Ho|]. split; [exact Ht|]. split; [exact Hmodels|].
  intros i m' Hi. rewrite Hmodels, lookup_fmap in Hi.
  destruct (D.models d !! i) as [m|]; [|discriminate]. cbn in Hi. injection Hi as <-.
  unfold MapObject.showRoute, MapObject.drawRoute. cbn [fst].
  destruct value; cbn [MapObject.polyline MapObject.set_showRoute];
    destruct (MapObject.polyline m) eqn:Hp; cbn; rewrite ?Hp; eauto.
Qed.

Lemma showAllRoutes_reaches_every_object_witness :
  let d := D.showAllRoutes false false (VM.collection threeObjects) in
  D.attr_showAllRoutes d = false
  /\ (forall i m', D.models d !! i = Some m' ->
        MapObject.attr_showRoute m' = false /\ MapObject.polyline m' = None).
Proof.
  intros d.
  destruct (showAllRoutes_reaches_every_object false (VM.collection threeObjects) eq_refl)
    as (Hr & _ & _ & _ & Hall).
  split; [exact Hr|exact Hall].
Defined.

(** ** MapObjectsViewModel: the clock and the collection *)

(** What [currentTime(value)] makes of a model: a visible model is asked
    for its position, and a model left without points is removed. *)
Lemma currentTime_models value vm :
  D.models (VM.collection (VM.currentTime value vm))
  = omap (fun m =>
            let m' := if MapObject.attr_showObject m
                      then MapObject.calculatePos value (VM.attr_realtime vm)
                             (VM.attr_timeWindow vm) m
                      else m in
            if MapObject.isEmpty m' then None else Some m')
      (D.models (VM.collection vm)).
Proof.
  unfold VM.currentTime. cbn [VM.collection VM.set_collection VM.set_currentTime
                              VM.attr_realtime VM.attr_timeWindow].
  unfold D.clearEmptyObjects. rewrite each_remove_models.
  rewrite (each_models (fun m => Some (if MapObject.attr_showObject m
                                       then MapObject.calculatePos value (VM.attr_realtime vm)
                                              (VM.attr_timeWindow vm) m
                                       else m))).
  - apply map_eq. intros i. rewrite !lookup_omap.
    destruct (D.models (VM.collection vm) !! i); reflexivity.
  - intros model id d Hm i. destruct (MapObject.attr_showObject model).
    + cbn. case_decide as Hi; [subst i; apply lookup_insert_eq|].
      apply lookup_insert_ne. congruence.
    + case_decide as Hi; [subst i; exact Hm|reflexivity].
Qed.

Lemma currentTime_flags value vm :
  D.attr_showAllObjects (VM.collection (VM.currentTime value vm))
  = D.attr_showAllObjects (VM.collection vm)
  /\ D.attr_showAllRoutes (VM.collection (VM.currentTime value vm))
     = D.attr_showAllRoutes (VM.collection vm).
Proof.
  unfold VM.currentTime. cbn [VM.collection VM.set_collection VM.set_currentTime
                              VM.attr_realtime VM.attr_timeWindow].
  unfold D.clearEmptyObjects.
  match goal with
  | |- context [D.each ?f (D.each ?g ?d)] =>
    destruct (each_remove_flags MapObject.isEmpty (D.each g d)) as [-> ->];
    apply (each_invariant
             (fun d' => D.attr_showAllObjects d' = D.attr_showAllObjects d
                        /\ D.attr_showAllRoutes d' = D.attr_showAllRoutes d) g d)
  end; [auto|].
  intros model id d0 H _. destruct (MapObject.attr_showObject model); exact H.
Qed.

Lemma currentTime_attrs value vm :
  VM.attr_currentTime (VM.currentTime value vm) = JS.Num value
  /\ VM.attr_beginTime (VM.currentTime value vm) = VM.attr_beginTime vm
  /\ VM.attr_endTime (VM.currentTime value vm) = VM.attr_endTime vm
  /\ VM.attr_realtime (VM.currentTime value vm) = VM.attr_realtime vm
  /\ VM.attr_timeWindow (VM.currentTime value vm) = VM.attr_timeWindow vm
  /\ VM.attr_speed (VM.currentTime value vm) = VM.attr_speed vm
  /\ VM.attr_graduality (VM.currentTime value vm) = VM.attr_graduality vm
  /\ VM.attr_playInterval (VM.currentTime value vm) = VM.attr_playInterval vm.
Proof. repeat split. Qed.

(** X13: [currentTime(value)] sets the clock and nothing else of the
    view model's own attributes.  In the collection every visible object
    is given its position at [value] and hidden objects are not touched;
    then every object left without points, hidden or not, is removed and
    every other object stays under its key, so that no object without
    points is left and no object appears.  The two attributes of the
    dictionary stay. *)
Theorem currentTime_recalculates_and_reclaims (value : float) (vm : VM.t) :
  let vm' := VM.currentTime value vm in
  let placed m := if MapObject.attr_showObject m
                  then MapObject.calculatePos value (VM.attr_realtime vm)
                         (VM.attr_timeWindow vm) m
                  else m in
  (VM.attr_currentTime vm' = JS.Num value
   /\ VM.attr_beginTime vm' = VM.attr_beginTime vm
   /\ VM.attr_endTime vm' = VM.attr_endTime vm
   /\ VM.attr_realtime vm' = VM.attr_realtime vm
   /\ VM.attr_timeWindow vm' = VM.attr_timeWindow vm
   /\ VM.attr_speed vm' = VM.attr_speed vm
   /\ VM.attr_graduality vm' = VM.attr_graduality vm
   /\ VM.attr_playInterval vm' = VM.attr_playInterval vm)
  /\ (forall i,
        D.models (VM.collection vm') !! i
        = match D.models (VM.collection vm) !! i with
          | Some m => if MapObject.isEmpty (placed m) then None else Some (placed m)
          | None => None
          end)
  /\ (forall i m', D.models (VM.collection vm') !! i = Some m' ->
        MapObject.isEmpty m' = false)
  /\ D.attr_showAllObjects (VM.collection vm') = D.attr_showAllObjects (VM.collection vm)
  /\ D.attr_showAllRoutes (VM.collection vm') = D.attr_showAllRoutes (VM.collection vm).
Proof.
  intros vm' placed.
  assert (Hm : forall i,
             D.models (VM.collection vm') !! i
             = match D.models (VM.collection vm) !! i with
               | Some m => if MapObject.isEmpty (placed m) then None else Some (placed m)
               | None => None
               end).
  { intros i. unfold vm'. rewrite currentTime_models, lookup_omap.
    destruct (D.models (VM.collection vm) !! i) as [m|]; reflexivity. }
  split; [apply currentTime_attrs|]. split; [exact Hm|].
  split; [|apply currentTime_flags].
  intros i m' Hi. rewrite Hm in Hi.
  destruct (D.models (VM.collection vm) !! i) as [m|]; [|discriminate].
  destruct (MapObject.isEmpty (placed m)) eqn:He; [discriminate|].
  injection Hi as <-. exact He.
Qed.

Lemma currentTime_recalculates_and_reclaims_witness :
  let vm := VM.modelShowObject "{name:car}" false threeObjects in
  let bus := pushed (mkPoint 1 2 3) (MapObject.new true true "{name:bus}") in
  D.models (VM.collection vm) !! "{name:bus}" = Some bus
  /\ D.models (VM.collection (VM.currentTime 1 vm)) !! "{name:bus}"
     = Some (MapObject.calculatePos 1 true (Some 1800%float) bus)
  /\ D.models (VM.collection (VM.currentTime 5000 vm)) !! "{name:bus}" = None
  /\ D.models (VM.collection (VM.currentTime 5000 vm)) !! "{name:car}"
     = D.models (VM.collection vm) !! "{name:car}".
Proof.
  intros vm bus.
  destruct (currentTime_recalculates_and_reclaims 1 vm) as (_ & Hnow & _).
  destruct (currentTime_recalculates_and_reclaims 5000 vm) as (_ & Hlater & _).
  split; [vm_compute; reflexivity|].
  split; [rewrite Hnow; vm_compute; reflexivity|].
  split; rewrite Hlater; vm_compute; reflexivity.
Defined.

(** ** MapObjectsViewModel.addDataPoints and removeAllObjects *)

Section AddDataPointsEffect.

Context {Fields : Type} {stringify : JS.Stringify Fields} {toNumber : JS.StringToNumber}.

Lemma addDataPoint_state realtime currentTime bounds (p : VM.dataPoint Fields) d :
  fst (VM.addDataPoint realtime currentTime bounds p d)
  = if VM.accepts realtime currentTime p
    then fst (D.addData (VM.obj p) (Some (VM.point p)) d)
    else d.
Proof.
  unfold VM.addDataPoint. destruct (VM.accepts realtime currentTime p); [|reflexivity].
  unfold bind, ret. destruct (D.addData (VM.obj p) (Some (VM.point p)) d) as [d' [e|id]];
    reflexivity.
Qed.

Lemma addDataPoint_ok realtime currentTime bounds (p : VM.dataPoint Fields) d b :
  snd (VM.addDataPoint realtime currentTime bounds p d) = inr b ->
  VM.accepts realtime currentTime p = true ->
  is_Some (D.models (fst (VM.addDataPoint realtime currentTime bounds p d))
             !! JS.JSON_stringify (VM.obj p)).
Proof.
  intros _ Ha. rewrite addDataPoint_state, Ha.
  destruct (addData_effect (VM.obj p) (Some (VM.point p)) d) as (-> & _).
  rewrite lookup_insert_eq. eauto.
Qed.

(** One pair of the batch never removes an object nor changes the
    attributes of the dictionary. *)
Lemma addDataPoint_grows realtime currentTime bounds (p : VM.dataPoint Fields) d :
  let d' := fst (VM.addDataPoint realtime currentTime bounds p d) in
  dom (D.models d) ⊆ dom (D.models d')
  /\ D.attr_showAllObjects d' = D.attr_showAllObjects d
  /\ D.attr_showAllRoutes d' = D.attr_showAllRoutes d.
Proof.
  intros d'. unfold d'. rewrite addDataPoint_state.
  destruct (VM.accepts realtime currentTime p); [|auto].
  destruct (addData_effect (VM.obj p) (Some (VM.point p)) d) as (-> & -> & -> & _).
  split; [|auto]. rewrite dom_insert_L. apply union_subseteq_r.
Qed.

Lemma addEach_grows realtime currentTime (data : list (VM.dataPoint Fields)) bounds d :
  let r := VM.addEach realtime currentTime data bounds d in
  dom (D.models d) ⊆ dom (D.models (fst r))
  /\ D.attr_showAllObjects (fst r) = D.attr_showAllObjects d
  /\ D.attr_showAllRoutes (fst r) = D.attr_showAllRoutes d
  /\ (forall b, snd r = inr b ->
        forall p, p ∈ data -> VM.accepts realtime currentTime p = true ->
                  is_Some (D.models (fst r) !! JS.JSON_stringify (VM.obj p))).
Proof.
  revert bounds d. induction data as [|p data IH]; intros bounds d r.
  - unfold r. cbn. split; [reflexivity|]. split; [reflexivity|]. split; [reflexivity|].
    intros b _ q Hq. inversion Hq.
  - unfold r. cbn [VM.addEach]. unfold bind.
    destruct (addDataPoint_grows realtime currentTime bounds p d) as (Hdom & Ho & Hr).
    pose proof (addDataPoint_ok realtime currentTime bounds p d) as Hok.
    destruct (VM.addDataPoint realtime currentTime bounds p d) as [d1 [e|b1]];
      cbn [fst snd] in *.
    + split; [exact Hdom|]. split; [exact Ho|]. split; [exact Hr|]. intros b E. discriminate.
    + destruct (IH b1 d1) as (Hdom' & Ho' & Hr' & Hreg).
      split; [etransitivity; eassumption|]. split; [congruence|]. split; [congruence|].
      intros b Hb q Hq Hacc. apply elem_of_cons in Hq as [->|Hq].
      * specialize (Hok b1 eq_refl Hacc). apply elem_of_dom in Hok.
        apply elem_of_dom. apply Hdom'. exact Hok.
      * eapply Hreg; eassumption.
Qed.

Lemma addEach_app realtime currentTime (pre rest : list (VM.dataPoint Fields)) bounds d :
  VM.addEach realtime currentTime (pre ++ rest) bounds d
  = match VM.addEach realtime currentTime pre bounds d with
    | (d', inl e) => (d', inl e)
    | (d', inr b) => VM.addEach realtime currentTime rest b d'
    end.
Proof.
  revert bounds d. induction pre as [|p pre IH]; intros bounds d; [reflexivity|].
  cbn [app VM.addEach]. unfold bind.
  destruct (VM.addDataPoint realtime currentTime bounds p d) as [d1 [e|b1]];
    [reflexivity|apply IH].
Qed.

(** The result of the batch in terms of the result of its loop. *)
Lemma addDataPoints_loop (data : list (VM.dataPoint Fields)) vm :
  let r := VM.addEach (VM.attr_realtime vm) (VM.attr_currentTime vm) data
             (VM.getOrNull (VM.attr_beginTime vm), VM.getOrNull (VM.attr_endTime vm))
             (VM.collection vm) in
  VM.collection (fst (VM.addDataPoints data vm)) = fst r
  /\ match snd r with
     | inl e => VM.addDataPoints data vm = (VM.set_collection (fst r) vm, inl e)
     | inr _ => snd (VM.addDataPoints data vm) = inr tt
     end.
Proof.
  intros r. unfold VM.addDataPoints. fold r.
  destruct r as [c [e|[beginTime endTime]]]; cbn [fst snd]; [split; reflexivity|].
  split; [|reflexivity].
  cbn [VM.attr_timeWindow VM.set_collection].
  repeat match goal with
         | |- context [if ?c then _ else _] => destruct c
         end; reflexivity.
Qed.

(** X14: [addDataPoints] never removes an object from the collection and
    never touches the clock, the mode, the time window, the speed, the
    graduality or the timer, nor the attributes of the dictionary.  When
    the batch goes through, the identity of every accepted pair is in the
    collection.  When an accepted pair makes [addData] throw after the
    pairs before it went through, the exception leaves the batch at once:
    the pairs after it are not looked at, the collection is the one the
    pairs before it and the throwing call of [addData] left, so that the
    objects the earlier pairs created stay, and nothing else of the view
    model is written, the begin and end time staying as they were. *)
Theorem addDataPoints_keeps_objects_and_clock
    (data : list (VM.dataPoint Fields)) (vm : VM.t) :
  let vm' := fst (VM.addDataPoints data vm) in
  (dom (D.models (VM.collection vm)) ⊆ dom (D.models (VM.collection vm'))
   /\ D.attr_showAllObjects (VM.collection vm') = D.attr_showAllObjects (VM.collection vm)
   /\ D.attr_showAllRoutes (VM.collection vm') = D.attr_showAllRoutes (VM.collection vm))
  /\ (VM.attr_currentTime vm' = VM.attr_currentTime vm
      /\ VM.attr_realtime vm' = VM.attr_realtime vm
      /\ VM.attr_timeWindow vm' = VM.attr_timeWindow vm
      /\ VM.attr_speed vm' = VM.attr_speed vm
      /\ VM.attr_graduality vm' = VM.attr_graduality vm
      /\ VM.attr_playInterval vm' = VM.attr_playInterval vm)
  /\ (forall e, snd (VM.addDataPoints data vm) = inl e ->
        VM.attr_beginTime vm' = VM.attr_beginTime vm
        /\ VM.attr_endTime vm' = VM.attr_endTime vm)
  /\ (snd (VM.addDataPoints data vm) = inr tt ->
      forall p, p ∈ data ->
                VM.accepts (VM.attr_realtime vm) (VM.attr_currentTime vm) p = true ->
                is_Some (D.models (VM.collection vm') !! JS.JSON_stringify (VM.obj p)))
  /\ (forall pre p post e,
        data = pre ++ p :: post ->
        snd (VM.addDataPoints pre vm) = inr tt ->
        VM.accepts (VM.attr_realtime vm) (VM.attr_currentTime vm) p = true ->
        let added := D.addData (VM.obj p) (Some (VM.point p))
                       (VM.collection (fst (VM.addDataPoints pre vm))) in
        snd added = inl e ->
        VM.addDataPoints data vm = (VM.set_collection (fst added) vm, inl e)).
Proof.
  intros vm'.
  assert (Hfour :
    (dom (D.models (VM.collection vm)) ⊆ dom (D.models (VM.collection vm'))
     /\ D.attr_showAllObjects (VM.collection vm') = D.attr_showAllObjects (VM.collection vm)
     /\ D.attr_showAllRoutes (VM.collection vm') = D.attr_showAllRoutes (VM.collection vm))
    /\ (VM.attr_currentTime vm' = VM.attr_currentTime vm
        /\ VM.attr_realtime vm' = VM.attr_realtime vm
        /\ VM.attr_timeWindow vm' = VM.attr_timeWindow vm
        /\ VM.attr_speed vm' = VM.attr_speed vm
        /\ VM.attr_graduality vm' = VM.attr_graduality vm
        /\ VM.attr_playInterval vm' = VM.attr_playInterval vm)
    /\ (forall e, snd (VM.addDataPoints data vm) = inl e ->
          VM.attr_beginTime vm' = VM.attr_beginTime vm
          /\ VM.attr_endTime vm' = VM.attr_endTime vm)
    /\ (snd (VM.addDataPoints data vm) = inr tt ->
        forall p, p ∈ data ->
                  VM.accepts (VM.attr_realtime vm) (VM.attr_currentTime vm) p = true ->
                  is_Some (D.models (VM.collection vm') !! JS.JSON_stringify (VM.obj p)))).
  { unfold vm', VM.addDataPoints.
    destruct (addEach_grows (VM.attr_realtime vm) (VM.attr_currentTime vm) data
                (VM.getOrNull (VM.attr_beginTime vm), VM.getOrNull (VM.attr_endTime vm))
                (VM.collection vm))
      as (Hdom & Ho & Hr & Hreg).
    destruct (VM.addEach (VM.attr_realtime vm) (VM.attr_currentTime vm) data
                (VM.getOrNull (VM.attr_beginTime vm), VM.getOrNull (VM.attr_endTime vm))
                (VM.collection vm))
      as [c [e|[beginTime endTime]]]; cbn [fst snd] in *.
    - split; [auto|]. split; [repeat split|]. split; [intros e' _; split; reflexivity|].
      intros E. discriminate.
    - assert (Hcoll : forall x, VM.collection
                        (if JS.truthy_opt endTime
                         then VM.set_endTime (JS.nullable endTime) x else x)
                      = VM.collection x)
        by (intros x; destruct (JS.truthy_opt endTime); reflexivity).
      assert (Hcoll' : forall b x, VM.collection
                        (if JS.truthy_opt b then VM.set_beginTime (JS.nullable b) x else x)
                       = VM.collection x)
        by (intros b x; destruct (JS.truthy_opt b); reflexivity).
      cbn [VM.attr_timeWindow VM.set_collection].
      rewrite Hcoll, Hcoll'. cbn [VM.collection VM.set_collection].
      split; [auto|]. split.
      + cbv zeta. destruct (VM.attr_timeWindow vm) as [w|] eqn:Hw;
          repeat match goal with
                 | |- context [if ?c then _ else _] => destruct c
                 end; repeat split; exact Hw.
      + split; [intros e E; discriminate|].
        intros _ p Hp Hacc. eapply Hreg; [reflexivity|exact Hp|exact Hacc]. }
  destruct Hfour as (H1 & H2 & H3 & H4).
  split; [exact H1|]. split; [exact H2|]. split; [exact H3|]. split; [exact H4|].
  intros pre p post e -> Hpre Hacc added Hadded.
  destruct (addDataPoints_loop pre vm) as [Hc Hs].
  destruct (addDataPoints_loop (pre ++ p :: post) vm) as [_ Hs'].
  rewrite addEach_app in Hs'. subst added. rewrite Hc in Hadded |- *.
  destruct (VM.addEach (VM.attr_realtime vm) (VM.attr_currentTime vm) pre
              (VM.getOrNull (VM.attr_beginTime vm), VM.getOrNull (VM.attr_endTime vm))
              (VM.collection vm)) as [d1 [e1|b1]]; cbn [fst snd] in *.
  { rewrite Hs in Hpre. discriminate. }
  cbn [VM.addEach] in Hs'. unfold bind, VM.addDataPoint in Hs'. rewrite Hacc in Hs'.
  unfold bind, ret in Hs'. cbv beta in Hs'.
  destruct (D.addData (VM.obj p) (Some (VM.point p)) d1) as [d2 [e2|id]];
    cbn [fst snd] in *; [|discriminate].
  injection Hadded as ->. exact Hs'.
Qed.

End AddDataPointsEffect.

Lemma addDataPoints_keeps_objects_and_clock_witness :
  let good := VM.mkData "tram" (mkRaw (JS.Number 6) (JS.Number 1) (JS.Number 1)) in
  let bad := VM.mkData "boat" (mkRaw (JS.Number 7) JS.Null (JS.Number 1)) in
  let last := VM.mkData "ship" (mkRaw (JS.Number 8) (JS.Number 1) (JS.Number 1)) in
  let vm := VM.set_realtime false threeObjects in
  let r := VM.addDataPoints (stringify := nameStringify) (toNumber := textIsNaN)
             [good; bad; last] vm in
  snd r = inl InvalidPointFormat
  /\ VM.attr_beginTime (fst r) = JS.Unset
  /\ is_Some (D.models (VM.collection (fst r)) !! "{name:tram}")
  /\ is_Some (D.models (VM.collection (fst r)) !! "{name:boat}")
  /\ D.models (VM.collection (fst r)) !! "{name:ship}" = None.
Proof.
  intros good bad last vm r.
  destruct (addDataPoints_keeps_objects_and_clock
              (stringify := nameStringify) (toNumber := textIsNaN) [good; bad; last] vm)
    as (_ & _ & _ & _ & Hthrow).
  specialize (Hthrow [good] bad [last] InvalidPointFormat eq_refl
                ltac:(vm_compute; reflexivity) ltac:(vm_compute; reflexivity)
                ltac:(vm_compute; reflexivity)).
  unfold r. rewrite Hthrow. vm_compute. repeat split; eauto.
Defined.

(** ** The states the calls lead to *)

Lemma add_frame point m :
  MapObject.modelId (fst (MapObject.add point m)) = MapObject.modelId m
  /\ MapObject.attr_showObject (fst (MapObject.add point m)) = MapObject.attr_showObject m
  /\ MapObject.attr_showRoute (fst (MapObject.add point m)) = MapObject.attr_showRoute m
  /\ MapObject.marker (fst (MapObject.add point m)) = MapObject.marker m.
Proof.
  destruct (MapObject.invalidPoint point) eqn:Hv.
  { rewrite (add_invalid _ _ Hv). auto. }
  apply invalidPoint_numeric in Hv as [p Hp]. rewrite (add_numeric _ _ _ Hp).
  destruct (MapObject.outOfOrder (MapObject.points m) p); [auto|].
  cbn [fst]. unfold pushed.
  cbn [MapObject.attr_showRoute MapObject.set_points MapObject.polyline].
  destruct (MapObject.attr_showRoute m) eqn:Hr; [|cbn; auto].
  destruct (MapObject.polyline m) eqn:Hpl; cbn; rewrite ?Hpl; cbn; auto.
Qed.

Lemma routeShape_add point m : routeShape m -> routeShape (fst (MapObject.add point m)).
Proof.
  intros Hm. destruct (MapObject.invalidPoint point) eqn:Hv.
  { rewrite (add_invalid _ _ Hv). exact Hm. }
  apply invalidPoint_numeric in Hv as [p Hp]. rewrite (add_numeric _ _ _ Hp).
  destruct (MapObject.outOfOrder (MapObject.points m) p); [exact Hm|].
  cbn [fst]. unfold routeShape in *. unfold pushed.
  cbn [MapObject.attr_showRoute MapObject.set_points MapObject.polyline MapObject.points].
  destruct (MapObject.attr_showRoute m) eqn:Hr.
  - destruct (MapObject.polyline m) as [path|] eqn:Hpl.
    + cbn. rewrite Hr, !length_app, Hm. reflexivity.
    + rewrite Hm. unfold MapObject.showRoute, MapObject.drawRoute. cbn.
      rewrite Hpl. cbn. reflexivity.
  - cbn. rewrite Hr. exact Hm.
Qed.

Lemma routeShape_calculatePos currentTime realtime timeWindow m :
  routeShape m -> routeShape (MapObject.calculatePos currentTime realtime timeWindow m).
Proof.
  intros Hm. unfold routeShape in *.
  destruct (calculatePos_frame currentTime realtime timeWindow m) as [_ ->].
  destruct (calculatePos_drop_both currentTime realtime timeWindow m) as (k & -> & ->).
  destruct (MapObject.attr_showRoute m).
  - destruct (MapObject.polyline m) as [path|]; simpl.
    + rewrite !length_drop, Hm. reflexivity.
    + rewrite Hm. apply drop_nil.
  - rewrite Hm. reflexivity.
Qed.

Lemma routeShape_showRoute value m :
  routeShape m -> routeShape (fst (MapObject.showRoute value m)).
Proof.
  intros Hm. unfold routeShape in *. unfold MapObject.showRoute, MapObject.drawRoute.
  cbn [fst]. destruct value.
  - cbn [MapObject.polyline MapObject.set_showRoute].
    destruct (MapObject.polyline m) as [path|] eqn:Hpl.
    + cbn. rewrite Hpl. destruct (MapObject.attr_showRoute m); [exact Hm|discriminate].
    + cbn. unfold MapObject.getPoints. cbn. rewrite length_rev, length_map. reflexivity.
  - cbn [MapObject.polyline MapObject.set_showRoute].
    destruct (MapObject.polyline m) eqn:Hpl; cbn; [reflexivity|exact Hpl].
Qed.

Lemma showRoute_frame value m :
  MapObject.modelId (fst (MapObject.showRoute value m)) = MapObject.modelId m
  /\ MapObject.points (fst (MapObject.showRoute value m)) = MapObject.points m
  /\ MapObject.attr_showObject (fst (MapObject.showRoute value m))
     = MapObject.attr_showObject m
  /\ MapObject.attr_showRoute (fst (MapObject.showRoute value m)) = value.
Proof.
  unfold MapObject.showRoute, MapObject.drawRoute. cbn [fst].
  destruct value; cbn [MapObject.polyline MapObject.set_showRoute];
    destruct (MapObject.polyline m); cbn; auto.
Qed.

Lemma timestamped_drop k ps : timestamped ps = true -> timestamped (drop k ps) = true.
Proof.
  revert ps. induction k as [|k IH]; intros ps H; [rewrite drop_0; exact H|].
  destruct ps as [|p ps]; [reflexivity|]. simpl. apply IH.
  unfold timestamped in H. simpl in H. apply andb_prop in H. apply H.
Qed.

Lemma objectInv_new ordered showObject showRoute id :
  objectInv ordered id (MapObject.new showObject showRoute id).
Proof.
  split; [reflexivity|]. split; [|intros _; split; reflexivity].
  unfold routeShape. simpl. destruct showRoute; reflexivity.
Qed.

Lemma objectInv_add ordered id point m :
  (ordered = true -> ts_not_NaN point = true) ->
  objectInv ordered id m -> objectInv ordered id (fst (MapObject.add point m)).
Proof.
  intros Hclean (Hid & Hshape & Hord). destruct (add_frame point m) as (Hi & _).
  split; [congruence|]. split; [apply routeShape_add; exact Hshape|].
  intros Ho. destruct (Hord Ho) as [Ha Ht].
  apply (add_keeps_order point m Ha Ht (Hclean Ho)).
Qed.

Lemma objectInv_calculatePos ordered id currentTime realtime timeWindow m :
  objectInv ordered id m ->
  objectInv ordered id (MapObject.calculatePos currentTime realtime timeWindow m).
Proof.
  intros (Hid & Hshape & Hord).
  destruct (calculatePos_frame currentTime realtime timeWindow m) as [Hi _].
  split; [congruence|]. split; [apply routeShape_calculatePos; exact Hshape|].
  intros Ho. destruct (Hord Ho) as [Ha Ht].
  destruct (calculatePos_drop_both currentTime realtime timeWindow m) as (k & -> & _).
  split; [apply ascending_drop; exact Ha|apply timestamped_drop; exact Ht].
Qed.

Lemma objectInv_showRoute ordered id value m :
  objectInv ordered id m -> objectInv ordered id (fst (MapObject.showRoute value m)).
Proof.
  intros (Hid & Hshape & Hord). destruct (showRoute_frame value m) as (Hi & Hp & _).
  split; [congruence|]. split; [apply routeShape_showRoute; exact Hshape|].
  rewrite Hp. exact Hord.
Qed.

(** Writing the attribute [showObject] or the marker leaves the identity,
    the points and the route alone. *)
Lemma objectInv_set_showObject ordered id b m :
  objectInv ordered id m -> objectInv ordered id (MapObject.set_showObject b m).
Proof. intros H. exact H. Qed.

Lemma objectInv_clearPos ordered id m :
  objectInv ordered id m -> objectInv ordered id (MapObject.clearPos m).
Proof. intros H. rewrite clearPos_set_marker. exact H. Qed.

Lemma vm_listener_objectInv ordered id vm m b :
  objectInv ordered id m -> objectInv ordered id (VM.onChangeShowObject vm m b).
Proof.
  intros H. unfold VM.onChangeShowObject. destruct b; [|exact H].
  apply objectInv_calculatePos. exact H.
Qed.

Lemma vm_listener_showRoute vm m b :
  MapObject.attr_showRoute (VM.onChangeShowObject vm m b) = MapObject.attr_showRoute m.
Proof.
  unfold VM.onChangeShowObject. destruct b; [|reflexivity]. apply calculatePos_frame.
Qed.

Lemma clearPos_showRoute m :
  MapObject.attr_showRoute (MapObject.clearPos m) = MapObject.attr_showRoute m.
Proof. rewrite clearPos_set_marker. reflexivity. Qed.

Lemma objectInv_shown ordered id vm value m :
  objectInv ordered id m ->
  objectInv ordered id (shown (VM.onChangeShowObject vm) value m)
  /\ MapObject.attr_showRoute (shown (VM.onChangeShowObject vm) value m)
     = MapObject.attr_showRoute m
  /\ MapObject.attr_showObject (shown (VM.onChangeShowObject vm) value m) = value.
Proof.
  intros H. split; [|split].
  - unfold shown, MapObject.showObject. cbn [fst].
    assert (H1 : objectInv ordered id
                   (if negb (Bool.eqb (MapObject.attr_showObject m) value)
                    then VM.onChangeShowObject vm
                           (if MapObject.attr_showObject (MapObject.set_showObject value m)
                            then MapObject.set_showObject value m
                            else MapObject.clearPos (MapObject.set_showObject value m))
                           value
                    else MapObject.set_showObject value m)).
    { pose proof (objectInv_set_showObject ordered id value m H) as Hs.
      destruct (negb (Bool.eqb (MapObject.attr_showObject m) value)); [|exact Hs].
      apply vm_listener_objectInv.
      destruct (MapObject.attr_showObject (MapObject.set_showObject value m)); [exact Hs|].
      apply objectInv_clearPos. exact Hs. }
    destruct value; [exact H1|apply objectInv_clearPos; exact H1].
  - unfold shown, MapObject.showObject. cbn [fst].
    assert (H1 : MapObject.attr_showRoute
                   (if negb (Bool.eqb (MapObject.attr_showObject m) value)
                    then VM.onChangeShowObject vm
                           (if MapObject.attr_showObject (MapObject.set_showObject value m)
                            then MapObject.set_showObject value m
                            else MapObject.clearPos (MapObject.set_showObject value m))
                           value
                    else MapObject.set_showObject value m)
                 = MapObject.attr_showRoute m).
    { destruct (negb (Bool.eqb (MapObject.attr_showObject m) value)); [|reflexivity].
      rewrite vm_listener_showRoute.
      destruct (MapObject.attr_showObject (MapObject.set_showObject value m));
        [reflexivity|rewrite clearPos_showRoute; reflexivity]. }
    destruct value; [exact H1|rewrite clearPos_showRoute; exact H1].
  - apply showObject_attr. apply vm_listener_keepsShowObject.
Qed.

Lemma dictionaryInv_omap ordered (h : MapObject.t -> option MapObject.t) d d' :
  dictionaryInv ordered d ->
  D.attr_showAllObjects d' = D.attr_showAllObjects d ->
  D.attr_showAllRoutes d' = D.attr_showAllRoutes d ->
  D.models d' = omap h (D.models d) ->
  (forall id m m', objectInv ordered id m -> h m = Some m' ->
     objectInv ordered id m'
     /\ MapObject.attr_showObject m' = MapObject.attr_showObject m
     /\ MapObject.attr_showRoute m' = MapObject.attr_showRoute m) ->
  dictionaryInv ordered d'.
Proof.
  intros Hd Ho Hr Hm Hh id m' Hl. rewrite Hm, lookup_omap in Hl.
  destruct (D.models d !! id) as [m|] eqn:Hi; [|discriminate]. cbn in Hl.
  destruct (Hd id m Hi) as (Hobj & Hvis & Hroute).
  destruct (Hh id m m' Hobj Hl) as (Hobj' & -> & ->).
  rewrite Ho, Hr. auto.
Qed.

Lemma dictionaryInv_modelShowObject ordered vm id value d :
  dictionaryInv ordered d ->
  dictionaryInv ordered (D.modelShowObject (VM.onChangeShowObject vm) id value d).
Proof.
  intros Hd. unfold D.modelShowObject.
  destruct (D.models d !! id) as [m|] eqn:Hm; [|exact Hd].
  rewrite showObject_pair.
  destruct (Hd id m Hm) as (Hobj & Hvis & Hroute).
  destruct (objectInv_shown ordered id vm value m Hobj) as (Hobj' & Hr' & Hv').
  set (m' := shown (VM.onChangeShowObject vm) value m) in *.
  assert (Hflag : forall d0,
             D.models d0 = <[id := m']> (D.models d) ->
             D.attr_showAllRoutes d0 = D.attr_showAllRoutes d ->
             (D.attr_showAllObjects d0 = true ->
              D.attr_showAllObjects d = true /\ value = true) ->
             dictionaryInv ordered d0).
  { intros d0 Hm0 Hr0 Ho0 i x Hx. rewrite Hm0 in Hx.
    destruct (decide (i = id)) as [->|Hne].
    - rewrite lookup_insert_eq in Hx. injection Hx as <-.
      split; [exact Hobj'|]. split.
      + intros Hf. destruct (Ho0 Hf) as [_ ->]. exact Hv'.
      + rewrite Hr0, Hr'. exact Hroute.
    - rewrite lookup_insert_ne in Hx by congruence.
      destruct (Hd i x Hx) as (Hx1 & Hx2 & Hx3).
      split; [exact Hx1|]. split; [|rewrite Hr0; exact Hx3].
      intros Hf. apply Hx2. apply (Ho0 Hf). }
  destruct (negb (Bool.eqb (MapObject.attr_showObject m) value)) eqn:Hch.
  - unfold D.onChangeShowObject. cbn [D.attr_showAllObjects D.set_models].
    destruct (D.attr_showAllObjects d && negb value) eqn:Hdem.
    + apply Hflag; [reflexivity|reflexivity|]. cbn. discriminate.
    + apply Hflag; [reflexivity|reflexivity|]. cbn. intros Hf. rewrite Hf in Hdem.
      destruct value; [auto|discriminate].
  - apply Hflag; [reflexivity|reflexivity|]. cbn. intros Hf. split; [exact Hf|].
    apply negb_false_iff, Bool.eqb_prop in Hch. rewrite <- Hch. apply Hvis. exact Hf.
Qed.

Lemma dictionaryInv_modelShowRoute ordered id value d :
  dictionaryInv ordered d -> dictionaryInv ordered (D.modelShowRoute id value d).
Proof.
  intros Hd. unfold D.modelShowRoute.
  destruct (D.models d !! id) as [m|] eqn:Hm; [|exact Hd].
  destruct (Hd id m Hm) as (Hobj & Hvis & Hroute).
  pose proof (objectInv_showRoute ordered id value m Hobj) as Hobj'.
  destruct (showRoute_frame value m) as (_ & _ & Ho' & Hv').
  assert (Hch : snd (MapObject.showRoute value m)
                = negb (Bool.eqb (MapObject.attr_showRoute m) value)) by reflexivity.
  destruct (MapObject.showRoute value m) as [m' changed]. cbn [fst snd] in *.
  assert (Hflag : forall d0,
             D.models d0 = <[id := m']> (D.models d) ->
             D.attr_showAllObjects d0 = D.attr_showAllObjects d ->
             (D.attr_showAllRoutes d0 = true ->
              D.attr_showAllRoutes d = true /\ value = true) ->
             dictionaryInv ordered d0).
  { intros d0 Hm0 Ho0 Hr0 i x Hx. rewrite Hm0 in Hx.
    destruct (decide (i = id)) as [->|Hne].
    - rewrite lookup_insert_eq in Hx. injection Hx as <-.
      split; [exact Hobj'|]. split.
      + rewrite Ho0, Ho'. exact Hvis.
      + intros Hf. destruct (Hr0 Hf) as [_ ->]. exact Hv'.
    - rewrite lookup_insert_ne in Hx by congruence.
      destruct (Hd i x Hx) as (Hx1 & Hx2 & Hx3).
      split; [exact Hx1|]. split; [rewrite Ho0; exact Hx2|].
      intros Hf. apply Hx3. apply (Hr0 Hf). }
  destruct changed.
  - unfold D.onChangeShowRoute. cbn [D.attr_showAllRoutes D.set_models].
    destruct (D.attr_showAllRoutes d && negb value) eqn:Hdem.
    + apply Hflag; [reflexivity|reflexivity|]. cbn. discriminate.
    + apply Hflag; [reflexivity|reflexivity|]. cbn. intros Hf. rewrite Hf in Hdem.
      destruct value; [auto|discriminate].
  - apply Hflag; [reflexivity|reflexivity|]. cbn. intros Hf. split; [exact Hf|].
    symmetry in Hch. apply negb_false_iff, Bool.eqb_prop in Hch. rewrite <- Hch.
    apply Hroute. exact Hf.
Qed.

Lemma dictionaryInv_showAllObjects ordered vm value d :
  dictionaryInv ordered d ->
  dictionaryInv ordered (D.showAllObjects (VM.onChangeShowObject vm) value false d).
Proof.
  intros Hd. destruct (Bool.eqb (D.attr_showAllObjects d) value) eqn:Hsame.
  - apply Bool.eqb_prop in Hsame. unfold D.showAllObjects.
    rewrite Hsame, Bool.eqb_reflx. cbn [negb andb]. rewrite <- Hsame.
    rewrite set_showAllObjects_same. exact Hd.
  - assert (Hneg : D.attr_showAllObjects d = negb value)
      by (destruct (D.attr_showAllObjects d), value; try discriminate; reflexivity).
    destruct (showAllObjects_fanout (VM.onChangeShowObject vm) value d Hneg)
      as (Hf & Hr & _ & Hm).
    intros i x Hx. rewrite Hm, lookup_fmap in Hx.
    destruct (D.models d !! i) as [m|] eqn:Hi; [|discriminate].
    change (Some (shown (VM.onChangeShowObject vm) value m) = Some x) in Hx.
    injection Hx as <-. destruct (Hd i m Hi) as (Hobj & _ & Hroute).
    destruct (objectInv_shown ordered i vm value m Hobj) as (Hobj' & Hr' & Hv').
    split; [exact Hobj'|]. split.
    + intros Hflag. rewrite Hv'. rewrite <- Hf. exact Hflag.
    + rewrite Hr, Hr'. exact Hroute.
Qed.

Lemma dictionaryInv_showAllRoutes ordered value d :
  dictionaryInv ordered d -> dictionaryInv ordered (D.showAllRoutes value false d).
Proof.
  intros Hd. destruct (Bool.eqb (D.attr_showAllRoutes d) value) eqn:Hsame.
  - apply Bool.eqb_prop in Hsame. unfold D.showAllRoutes.
    rewrite Hsame, Bool.eqb_reflx. cbn [negb andb]. rewrite <- Hsame.
    rewrite set_showAllRoutes_same. exact Hd.
  - assert (Hneg : D.attr_showAllRoutes d = negb value)
      by (destruct (D.attr_showAllRoutes d), value; try discriminate; reflexivity).
    destruct (showAllRoutes_fanout value d Hneg) as (Hf & Ho & _ & Hm).
    intros i x Hx. rewrite Hm, lookup_fmap in Hx.
    destruct (D.models d !! i) as [m|] eqn:Hi; [|discriminate].
    change (Some (fst (MapObject.showRoute value m)) = Some x) in Hx.
    injection Hx as <-. destruct (Hd i m Hi) as (Hobj & Hvis & _).
    destruct (showRoute_frame value m) as (_ & _ & Ho' & Hv').
    split; [apply objectInv_showRoute; exact Hobj|]. split.
    + intros Hflag. rewrite Ho in Hflag.
      change (MapObject.attr_showObject (fst (MapObject.showRoute value m)) = true).
      rewrite Ho'. exact (Hvis Hflag).
    + intros Hflag.
      change (MapObject.attr_showRoute (fst (MapObject.showRoute value m)) = true).
      rewrite Hv'. rewrite <- Hf. exact Hflag.
Qed.

Lemma dictionaryInv_addData {Fields} {stringify : JS.Stringify Fields}
    ordered (obj : Fields) point d :
  (ordered = true -> ts_not_NaN point = true) ->
  dictionaryInv ordered d ->
  dictionaryInv ordered (fst (D.addData obj point d)).
Proof.
  intros Hclean Hd.
  destruct (addData_effect obj point d) as (Hm & Ho & Hr & _).
  intros i x Hx. rewrite Hm in Hx. rewrite Ho, Hr.
  destruct (decide (i = JS.JSON_stringify obj)) as [->|Hne].
  - rewrite lookup_insert_eq in Hx. injection Hx as <-.
    destruct (D.models d !! JS.JSON_stringify obj) as [m|] eqn:Hi.
    + destruct (Hd _ m Hi) as (Hobj & Hvis & Hroute).
      destruct (add_frame point m) as (_ & -> & -> & _).
      split; [apply objectInv_add; assumption|]. auto.
    + destruct (add_frame point (MapObject.new (D.attr_showAllObjects d)
                                   (D.attr_showAllRoutes d) (JS.JSON_stringify obj)))
        as (_ & -> & -> & _).
      split; [apply objectInv_add; [assumption|apply objectInv_new]|]. cbn. auto.
  - rewrite lookup_insert_ne in Hx by congruence. apply Hd. exact Hx.
Qed.

Lemma dictionaryInv_addEach {Fields} {stringify : JS.Stringify Fields}
    {toNumber : JS.StringToNumber} ordered realtime currentTime
    (data : list (VM.dataPoint Fields)) bounds d :
  (ordered = true -> forallb (fun p => ts_not_NaN (Some (VM.point p))) data = true) ->
  dictionaryInv ordered d ->
  dictionaryInv ordered (fst (VM.addEach realtime currentTime data bounds d)).
Proof.
  revert bounds d. induction data as [|p data IH]; intros bounds d Hclean Hd; [exact Hd|].
  cbn [VM.addEach]. unfold bind.
  assert (Hp : ordered = true -> ts_not_NaN (Some (VM.point p)) = true).
  { intros Ho. specialize (Hclean Ho). cbn in Hclean. apply andb_prop in Hclean. apply Hclean. }
  assert (Hrest : ordered = true ->
                  forallb (fun p => ts_not_NaN (Some (VM.point p))) data = true).
  { intros Ho. specialize (Hclean Ho). cbn in Hclean. apply andb_prop in Hclean. apply Hclean. }
  assert (H1 : dictionaryInv ordered (fst (VM.addDataPoint realtime currentTime bounds p d))).
  { rewrite addDataPoint_state. destruct (VM.accepts realtime currentTime p); [|exact Hd].
    apply dictionaryInv_addData; assumption. }
  destruct (VM.addDataPoint realtime currentTime bounds p d) as [d1 [e|b1]]; [exact H1|].
  apply IH; assumption.
Qed.

Lemma dictionaryInv_each_remove ordered (c : MapObject.t -> bool) d :
  dictionaryInv ordered d ->
  dictionaryInv ordered (D.each (fun model id d => if c model then D.remove id d else d) d).
Proof.
  intros Hd. destruct (each_remove_flags c d) as [Ho Hr].
  apply (dictionaryInv_omap ordered (fun model => if c model then None else Some model) d);
    [exact Hd|exact Ho|exact Hr|apply each_remove_models|].
  intros id m m' Hobj Hh. destruct (c m); [discriminate|]. injection Hh as <-. auto.
Qed.

Lemma dictionaryInv_trigger ordered e d :
  dictionaryInv ordered d -> dictionaryInv ordered (D.trigger e d).
Proof. intros H. exact H. Qed.

Lemma dictionaryInv_reset ordered d :
  dictionaryInv ordered d -> dictionaryInv ordered (D.reset d).
Proof.
  intros Hd.
  exact (dictionaryInv_each_remove ordered (fun _ => true) (D.trigger D.EvReset d)
           (dictionaryInv_trigger ordered D.EvReset d Hd)).
Qed.

Lemma dictionaryInv_currentTime ordered value vm :
  dictionaryInv ordered (VM.collection vm) ->
  dictionaryInv ordered (VM.collection (VM.currentTime value vm)).
Proof.
  intros Hd. destruct (currentTime_flags value vm) as [Ho Hr].
  eapply dictionaryInv_omap; [exact Hd|exact Ho|exact Hr|apply currentTime_models|].
  intros id m m' Hobj Hh. cbv beta zeta in Hh.
  destruct (MapObject.isEmpty
              (if MapObject.attr_showObject m
               then MapObject.calculatePos value (VM.attr_realtime vm)
                      (VM.attr_timeWindow vm) m
               else m)); [discriminate|].
  injection Hh as <-.
  destruct (MapObject.attr_showObject m) eqn:Hvis; [|auto].
  split; [apply objectInv_calculatePos; exact Hobj|].
  split; [rewrite calculatePos_showObject; exact Hvis|apply calculatePos_frame].
Qed.

Lemma timerInv_set_collection c vm : timerInv vm -> timerInv (VM.set_collection c vm).
Proof. intros H. exact H. Qed.

Lemma timerInv_pause vm : timerInv (VM.pause vm).
Proof.
  unfold VM.pause. destruct (VM.attr_playInterval vm) eqn:Hp.
  - intros H. discriminate.
  - intros H. congruence.
Qed.

Lemma timerInv_currentTime value vm : timerInv vm -> timerInv (VM.currentTime value vm).
Proof.
  intros H Hp. destruct (H Hp) as (Hr & _ & Hb & He).
  split; [exact Hr|]. split; [cbn; eauto|]. split; [exact Hb|exact He].
Qed.

Lemma collection_pause vm : VM.collection (VM.pause vm) = VM.collection vm.
Proof. unfold VM.pause. destruct (VM.attr_playInterval vm); reflexivity. Qed.

Section Calls.

Context {Fields : Type} {stringify : JS.Stringify Fields} {toNumber : JS.StringToNumber}.

(** The state [addDataPoints] leaves: the collection is the one the loop
    leaves, the begin and end time are written or left alone, and nothing
    else is touched. *)
Lemma addDataPoints_state (data : list (VM.dataPoint Fields)) vm :
  let vm' := fst (VM.addDataPoints data vm) in
  VM.collection vm'
  = fst (VM.addEach (VM.attr_realtime vm) (VM.attr_currentTime vm) data
           (VM.getOrNull (VM.attr_beginTime vm), VM.getOrNull (VM.attr_endTime vm))
           (VM.collection vm))
  /\ VM.attr_playInterval vm' = VM.attr_playInterval vm
  /\ VM.attr_realtime vm' = VM.attr_realtime vm
  /\ VM.attr_currentTime vm' = VM.attr_currentTime vm
  /\ (VM.has (VM.attr_beginTime vm) = true -> VM.has (VM.attr_beginTime vm') = true)
  /\ (VM.has (VM.attr_endTime vm) = true -> VM.has (VM.attr_endTime vm') = true).
Proof.
  intros vm'. unfold vm', VM.addDataPoints.
  destruct (VM.addEach (VM.attr_realtime vm) (VM.attr_currentTime vm) data
              (VM.getOrNull (VM.attr_beginTime vm), VM.getOrNull (VM.attr_endTime vm))
              (VM.collection vm))
    as [c [e|[beginTime endTime]]]; cbn [fst snd].
  - repeat split; auto.
  - assert (Hwritten : forall x, JS.truthy_opt x = true -> VM.has (JS.nullable x) = true)
      by (intros [x|] Hx; [reflexivity|discriminate]).
    cbv zeta. destruct (VM.attr_timeWindow vm) as [w|] eqn:Hw;
      repeat match goal with
             | |- context [if ?c then _ else _] => destruct c eqn:?
             end; cbn; rewrite ?Hw; repeat split; auto.
    all: intros _; apply Hwritten;
      cbn [VM.attr_timeWindow VM.set_collection] in *; rewrite Hw in *; assumption.
Qed.

Lemma viewModelInv_perform ordered (c : call Fields) vm :
  (ordered = true -> withoutNaN c = true) ->
  viewModelInv ordered vm ->
  viewModelInv ordered (perform c vm).
Proof.
  intros Hclean [Hd Ht]. destruct c; cbn [perform].
  - destruct (addDataPoints_state data vm) as (Hc & Hp & Hr & Hct & Hb & He). split.
    + rewrite Hc. apply dictionaryInv_addEach; [exact Hclean|exact Hd].
    + intros Hplay. rewrite Hp in Hplay. destruct (Ht Hplay) as (H1 & H2 & H3 & H4).
      rewrite Hr, Hct. auto.
  - split; [apply dictionaryInv_currentTime; exact Hd|apply timerInv_currentTime; exact Ht].
  - split; [exact Hd|]. intros Hp. destruct (Ht Hp) as (H1 & H2 & H3 & H4).
    repeat split; cbn; eauto.
  - split; [exact Hd|]. intros Hp. destruct (Ht Hp) as (H1 & H2 & H3 & H4).
    repeat split; cbn; eauto.
  - unfold VM.realtime. split.
    + cbn [VM.collection VM.set_realtime]. destruct value;
        [rewrite collection_pause|]; exact Hd.
    + destruct value.
      * intros Hp. change (VM.attr_playInterval (VM.pause vm) = true) in Hp.
        unfold VM.pause in Hp.
        destruct (VM.attr_playInterval vm) eqn:E; cbn in Hp; congruence.
      * intros Hp. destruct (Ht Hp) as (H1 & H2 & H3 & H4). repeat split; assumption.
  - split; [exact Hd|exact Ht].
  - split; [exact Hd|exact Ht].
  - split; [exact Hd|exact Ht].
  - unfold VM.play.
    destruct (negb (VM.has (VM.attr_beginTime vm)) || negb (VM.has (VM.attr_endTime vm))
              || VM.attr_playInterval vm) eqn:Hguard; [split; assumption|].
    apply orb_false_elim in Hguard as [Hguard Hplaying].
    apply orb_false_elim in Hguard as [Hb He].
    apply negb_false_iff in Hb, He.
    destruct (VM.attr_realtime vm) eqn:Hrt.
    + split; [apply dictionaryInv_currentTime; exact Hd|].
      apply timerInv_currentTime. exact Ht.
    + destruct (VM.attr_currentTime vm) as [| |t] eqn:Hct; cbn [VM.has negb].
      * split; [apply dictionaryInv_currentTime; exact Hd|].
        intros _. split; [exact Hrt|]. split; [reflexivity|]. split; [exact Hb|exact He].
      * split; [apply dictionaryInv_currentTime; exact Hd|].
        intros _. split; [exact Hrt|]. split; [reflexivity|]. split; [exact Hb|exact He].
      * split; [exact Hd|].
        intros _. split; [exact Hrt|]. split; [cbn; rewrite Hct; reflexivity|].
        split; [exact Hb|exact He].
  - split; [rewrite collection_pause; exact Hd|apply timerInv_pause].
  - unfold VM.tick. destruct (VM.attr_playInterval vm) eqn:Hp; [|split; assumption].
    set (vm1 := VM.currentTime _ vm).
    assert (H1 : viewModelInv ordered vm1).
    { split; [apply dictionaryInv_currentTime; exact Hd|].
      apply timerInv_currentTime. exact Ht. }
    destruct (JS.gt _ _); [|exact H1].
    split; [rewrite collection_pause; apply H1|apply timerInv_pause].
  - split; [apply dictionaryInv_modelShowObject; exact Hd|exact Ht].
  - split; [|exact Ht]. unfold VM.modelToggleShowObject, D.modelToggleShowObject.
    cbn [VM.collection VM.set_collection].
    destruct (D.models (VM.collection vm) !! id); [|exact Hd].
    apply dictionaryInv_modelShowObject. exact Hd.
  - split; [apply dictionaryInv_modelShowRoute; exact Hd|exact Ht].
  - split; [|exact Ht]. unfold vmToggleShowRoute, D.modelToggleShowRoute.
    cbn [VM.collection VM.set_collection].
    destruct (D.models (VM.collection vm) !! id); [|exact Hd].
    apply dictionaryInv_modelShowRoute. exact Hd.
  - split; [apply dictionaryInv_showAllObjects; exact Hd|exact Ht].
  - split; [apply dictionaryInv_showAllRoutes; exact Hd|exact Ht].
  - unfold VM.removeAllObjects. split.
    + cbn [VM.collection VM.set_endTime VM.set_beginTime VM.set_currentTime
           VM.set_collection].
      apply dictionaryInv_reset. rewrite collection_pause. exact Hd.
    + intros Hp. change (VM.attr_playInterval (VM.pause vm) = true) in Hp.
      unfold VM.pause in Hp.
      destruct (VM.attr_playInterval vm) eqn:E; cbn in Hp; congruence.
Qed.

Lemma viewModelInv_new ordered : viewModelInv ordered VM.new.
Proof.
  split.
  - intros id m Hm. cbn in Hm. rewrite lookup_empty in Hm. discriminate.
  - intros Hp. discriminate.
Qed.

Lemma viewModelInv_performAll ordered (calls : list (call Fields)) vm :
  (ordered = true -> forallb withoutNaN calls = true) ->
  viewModelInv ordered vm ->
  viewModelInv ordered (performAll calls vm).
Proof.
  revert vm. induction calls as [|c calls IH]; intros vm Hclean Hvm; [exact Hvm|].
  cbn [performAll foldl]. apply IH.
  - intros Ho. specialize (Hclean Ho). cbn in Hclean. apply andb_prop in Hclean. apply Hclean.
  - apply viewModelInv_perform; [|exact Hvm].
    intros Ho. specialize (Hclean Ho). cbn in Hclean. apply andb_prop in Hclean. apply Hclean.
Qed.

(** X15: whatever calls the page makes on a new view model, every object
    of the collection is stored under its own identity, and its route is
    in step with its points: a hidden route has no polyline, a shown one
    has a polyline with one vertex for each stored point, or no polyline
    yet when the object has no points. *)
Theorem calls_keep_objects_keyed_and_routed
    (calls : list (call Fields)) (id : string) (m : MapObject.t) :
  D.models (VM.collection (performAll calls VM.new)) !! id = Some m ->
  MapObject.modelId m = id /\ routeShape m.
Proof.
  intros Hm.
  destruct (viewModelInv_performAll false calls VM.new) as [Hd _];
    [discriminate|apply viewModelInv_new|].
  destruct (Hd id m Hm) as ((Hid & Hshape & _) & _). split; assumption.
Qed.

(** X16: whatever calls the page makes on a new view model, the two
    attributes of the dictionary never claim more than the objects show:
    while [showAllObjects] is true every object is visible, and while
    [showAllRoutes] is true every object shows its route. *)
Theorem calls_keep_show_all_attributes
    (calls : list (call Fields)) (id : string) (m : MapObject.t) :
  D.models (VM.collection (performAll calls VM.new)) !! id = Some m ->
  (D.attr_showAllObjects (VM.collection (performAll calls VM.new)) = true ->
   MapObject.attr_showObject m = true)
  /\ (D.attr_showAllRoutes (VM.collection (performAll calls VM.new)) = true ->
      MapObject.attr_showRoute m = true).
Proof.
  intros Hm.
  destruct (viewModelInv_performAll false calls VM.new) as [Hd _];
    [discriminate|apply viewModelInv_new|].
  destruct (Hd id m Hm) as (_ & Hobjects & Hroutes). split; assumption.
Qed.

(** X17: whatever calls the page makes on a new view model, the timer of
    the playback runs only in historical mode, and only while the current
    time, the begin time and the end time all hold a number. *)
Theorem timer_runs_only_in_playback (calls : list (call Fields)) :
  VM.attr_playInterval (performAll calls VM.new) = true ->
  VM.attr_realtime (performAll calls VM.new) = false
  /\ VM.has (VM.attr_currentTime (performAll calls VM.new)) = true
  /\ VM.has (VM.attr_beginTime (performAll calls VM.new)) = true
  /\ VM.has (VM.attr_endTime (performAll calls VM.new)) = true.
Proof.
  intros Hp.
  destruct (viewModelInv_performAll false calls VM.new) as [_ Ht];
    [discriminate|apply viewModelInv_new|].
  exact (Ht Hp).
Qed.

(** X18: when no point handed to [addDataPoints] carries [NaN] as its
    timestamp, whatever calls the page makes on a new view model leave
    the points of every object in ascending order of [ts], and no stored
    timestamp is [NaN]. *)
Theorem calls_without_NaN_keep_points_ascending
    (calls : list (call Fields)) (id : string) (m : MapObject.t) :
  forallb withoutNaN calls = true ->
  D.models (VM.collection (performAll calls VM.new)) !! id = Some m ->
  ascending (MapObject.points m) = true /\ timestamped (MapObject.points m) = true.
Proof.
  intros Hclean Hm.
  destruct (viewModelInv_performAll true calls VM.new) as [Hd _];
    [intros _; exact Hclean|apply viewModelInv_new|].
  destruct (Hd id m Hm) as ((_ & _ & Hord) & _). apply Hord. reflexivity.
Qed.

End Calls.

Lemma calls_keep_objects_keyed_and_routed_witness :
  let calls :=
    [AddDataPoints [VM.mkData "tram" (mkRaw (JS.Number 1) (JS.Number 2) (JS.Number 3))];
     RemoveAllObjects; ShowAllObjects false;
     AddDataPoints
       [VM.mkData "tram" (mkRaw (JS.Number (-3000)) (JS.Number 2) (JS.Number 3));
        VM.mkData "tram" (mkRaw (JS.Number (-2000)) (JS.Number 4) (JS.Number 5));
        VM.mkData "tram" (mkRaw (JS.Number (-100)) (JS.Number 6) (JS.Number 7))];
     ShowRoute "{name:tram}" false; ToggleShowRoute "{name:tram}";
     ShowObject "{name:tram}" true] in
  exists m,
    D.models (VM.collection (performAll (stringify := nameStringify)
                               (toNumber := textIsNaN) calls VM.new))
      !! "{name:tram}" = Some m
    /\ MapObject.points m = [mkPoint (-100) 6 7]
    /\ MapObject.modelId m = "{name:tram}" /\ routeShape m.
Proof.
  intros calls. eexists. split; [vm_compute; reflexivity|].
  split; [reflexivity|].
  apply (calls_keep_objects_keyed_and_routed
           (stringify := nameStringify) (toNumber := textIsNaN) calls).
  vm_compute. reflexivity.
Defined.

Lemma calls_keep_show_all_attributes_witness :
  let calls :=
    [AddDataPoints [VM.mkData "tram" (mkRaw (JS.Number 1) (JS.Number 2) (JS.Number 3));
                    VM.mkData "boat" (mkRaw (JS.Number 4) (JS.Number 5) (JS.Number 6))];
     RemoveAllObjects; ShowAllObjects false; ShowAllRoutes false;
     AddDataPoints [VM.mkData "tram" (mkRaw (JS.Number 1) (JS.Number 2) (JS.Number 3));
                    VM.mkData "boat" (mkRaw (JS.Number 4) (JS.Number 5) (JS.Number 6))];
     ShowObject "{name:tram}" true; ShowAllRoutes true; ShowAllObjects true] in
  let vm := performAll (stringify := nameStringify) (toNumber := textIsNaN)
              calls VM.new in
  exists m,
    D.models (VM.collection vm) !! "{name:boat}" = Some m
    /\ D.attr_showAllObjects (VM.collection vm) = true
    /\ MapObject.attr_showObject m = true
    /\ MapObject.attr_showRoute m = true.
Proof.
  intros calls vm. eexists. split; [vm_compute; reflexivity|].
  split; [vm_compute; reflexivity|].
  destruct (calls_keep_show_all_attributes
              (stringify := nameStringify) (toNumber := textIsNaN) calls "{name:boat}" _
              ltac:(vm_compute; reflexivity)) as [Hobjects Hroutes].
  split; [apply Hobjects|apply Hroutes]; vm_compute; reflexivity.
Defined.

Lemma timer_runs_only_in_playback_witness :
  let calls :=
    [SetRealtime false;
     AddDataPoints [VM.mkData "tram" (mkRaw (JS.Number 1) (JS.Number 2) (JS.Number 3))];
     Play; RemoveAllObjects; Play;
     AddDataPoints [VM.mkData "tram" (mkRaw (JS.Number 1) (JS.Number 2) (JS.Number 3));
                    VM.mkData "tram" (mkRaw (JS.Number 40) (JS.Number 5) (JS.Number 6))];
     Play; Tick; Tick] in
  let vm := performAll (stringify := nameStringify) (toNumber := textIsNaN)
              calls VM.new in
  VM.attr_playInterval vm = true
  /\ VM.attr_realtime vm = false
  /\ VM.has (VM.attr_currentTime vm) = true
  /\ VM.has (VM.attr_beginTime vm) = true
  /\ VM.has (VM.attr_endTime vm) = true.
Proof.
  intros calls vm. split; [vm_compute; reflexivity|].
  apply (timer_runs_only_in_playback
           (stringify := nameStringify) (toNumber := textIsNaN) calls).
  vm_compute. reflexivity.
Defined.

Lemma calls_without_NaN_keep_points_ascending_witness :
  let calls :=
    [AddDataPoints [VM.mkData "tram" (mkRaw (JS.Number 4) (JS.Number 2) (JS.Number 3));
                    VM.mkData "tram" (mkRaw (JS.Number 9) (JS.Number 5) (JS.Number 6));
                    VM.mkData "tram" (mkRaw (JS.Number 1) (JS.Number 5) (JS.Number 6))];
     SetCurrentTime 5; ShowObject "{name:tram}" false;
     AddDataPoints [VM.mkData "tram" (mkRaw (JS.Number 12) (JS.Number 5) (JS.Number 6))]] in
  exists m,
    D.models (VM.collection (performAll (stringify := nameStringify)
                               (toNumber := textIsNaN) calls VM.new))
      !! "{name:tram}" = Some m
    /\ MapObject.points m = [mkPoint 4 2 3; mkPoint 9 5 6; mkPoint 12 5 6]
    /\ ascending (MapObject.points m) = true
    /\ timestamped (MapObject.points m) = true.
Proof.
  intros calls. eexists. split; [vm_compute; reflexivity|].
  split; [reflexivity|].
  apply (calls_without_NaN_keep_points_ascending
           (stringify := nameStringify) (toNumber := textIsNaN) calls "{name:tram}").
  - vm_compute. reflexivity.
  - vm_compute. reflexivity.
Defined.
